(** * Video trimmer: a shallow embedding of [main.py] and its verified properties

    The development follows the source file top to bottom:

    - [Float64]   Python's [float] (IEEE-754 binary64) as exact rationals
                  with an explicit round-to-nearest-even;
    - [Text]      the [str] builtins the program uses ([strip], [int],
                  [float], the format specifications [02] and [06.3f]);
    - [Re]        the fragment of [re] needed by [TIME_PATTERN];
    - [to_seconds], [seconds_to_timecode];
    - [QtLogger], [TrimWorker], [MainWindow];
    - [Slots]     the remaining slots of the window ([browse_file],
                  [browse_output]) and the connections of the worker's
                  signals.

    Modelling conventions.
    - A Python [str] is a [list ascii]; a character is its code point, so the
      model covers the texts whose code points are all below 256, and every
      statement about a text is about such a text.  There [\d], [int] and
      [float] know the digits [0] to [9] only; beyond, the interpreter also
      takes the other decimal digits of Unicode, and [strip] removes other
      white space.  [lit "..."] writes a literal.
    - A Python [int] is a [Z].
    - A Python [float] is a [float]: a finite binary64 value carried by its
      exact rational value, or an infinity, or NaN.  The sign of zero is not
      represented.  Every arithmetic operation rounds with [Float64.rnd].
    - Instances of [Exception] are values of [exn]; fallible code returns
      [result].  The exceptions outside of [Exception] ([KeyboardInterrupt],
      [SystemExit], [GeneratorExit]) are values of [base_exn]; only a call
      into MoviePy is taken to end with one, and [run], which makes such
      calls, is a [task].
    - The interpreter's optional cap on the length of decimal literals given
      to [int] is not part of the model. *)

From Stdlib Require Import ZArith QArith Qround Qabs Qpower Lia Lqa Ascii String List.
From Stdlib Require Import Floats.PrimFloat Floats.FloatOps Floats.SpecFloat.
From stdpp Require Import gmap strings.

(* ===================================================================== *)
(** * Part I: the program                                                  *)
(* ===================================================================== *)

(** ** Exceptions and fallible computations *)

Inductive exn : Type :=
| ValueError (msg : string)
| OverflowError (msg : string)
| ZeroDivisionError (msg : string)
| RuntimeError (msg : string).

(** [str(e)] *)
Definition exn_str (e : exn) : string :=
  match e with
  | ValueError m | OverflowError m | ZeroDivisionError m | RuntimeError m => m
  end.

Inductive result (A : Type) : Type :=
| Ok (a : A)
| Raise (e : exn).
Arguments Ok {A} a.
Arguments Raise {A} e.

Definition rbind {A B : Type} (m : result A) (k : A -> result B) : result B :=
  match m with
  | Ok a => k a
  | Raise e => Raise e
  end.

#[global] Instance result_ret : MRet result := @Ok.
#[global] Instance result_bind : MBind result := fun A B k m => rbind m k.

(** ** Python floats *)

Module Float64.

(** [2^e] for any integer exponent. *)
Definition pow2 (e : Z) : Q := (2 ^ e)%Q.

(** For [q > 0], the integer [l] with [2^l <= q < 2^(l+1)]. *)
Definition ilog2 (q : Q) : Z :=
  let l := (Z.log2 (Qnum q) - Z.log2 (Zpos (Qden q)))%Z in
  if Qle_bool (pow2 l) q then l else (l - 1)%Z.

(** Nearest integer, ties to the even one. *)
Definition round_half_even (x : Q) : Z :=
  let f := Qfloor x in
  match Qcompare (x - inject_Z f) (1 # 2) with
  | Lt => f
  | Gt => (f + 1)%Z
  | Eq => if Z.even f then f else (f + 1)%Z
  end.

(** Exponent of the last place of the binary64 numbers next to [q]:
    53 significant bits, subnormals from [2^-1074]. *)
Definition fexp (q : Q) : Z := Z.max (ilog2 (Qabs q) - 52) (-1074).

(** Round to nearest, ties to even, exponent unbounded above. *)
Definition rnd (q : Q) : Q :=
  if Qeq_bool q 0 then 0%Q
  else Qred (inject_Z (round_half_even (q / pow2 (fexp q))) * pow2 (fexp q)).

(** [a < b] as a boolean. *)
Definition Qltb (a b : Q) : bool := negb (Qle_bool b a).

(** The rounded value is beyond the largest finite binary64 number. *)
Definition overflows (q : Q) : bool := Qle_bool (pow2 1024) (Qabs (rnd q)).

Inductive float : Type :=
| Fin (q : Q)
| Inf (negative : bool)
| NaN.

(** The float nearest to an exact finite result. *)
Definition round_result (q : Q) : float :=
  if overflows q then Inf (Qltb q 0) else Fin (rnd q).

Definition fadd (x y : float) : float :=
  match x, y with
  | Fin a, Fin b => round_result (a + b)
  | Fin _, Inf s | Inf s, Fin _ => Inf s
  | Inf s, Inf t => if Bool.eqb s t then Inf s else NaN
  | _, _ => NaN
  end.

Definition fmul (x y : float) : float :=
  match x, y with
  | Fin a, Fin b => round_result (a * b)
  | Fin a, Inf s | Inf s, Fin a =>
      if Qeq_bool a 0 then NaN else Inf (xorb s (Qltb a 0))
  | Inf s, Inf t => Inf (xorb s t)
  | _, _ => NaN
  end.

(** [x > y]; every comparison with NaN is false. *)
Definition fgt (x y : float) : bool :=
  match x, y with
  | Fin a, Fin b => Qltb b a
  | Fin _, Inf s => s
  | Inf s, Fin _ => negb s
  | Inf s, Inf t => negb s && t
  | _, _ => false
  end.

(** [x <= y] *)
Definition fle (x y : float) : bool :=
  match x, y with
  | Fin a, Fin b => Qle_bool a b
  | Fin _, Inf s => negb s
  | Inf s, Fin _ => s
  | Inf s, Inf t => s || negb t
  | _, _ => false
  end.

(** [int + float]: the int operand is converted first. *)
Definition of_int (n : Z) : result float :=
  if overflows (inject_Z n)
  then Raise (OverflowError "int too large to convert to float")
  else Ok (Fin (rnd (inject_Z n))).

(** [a / b] on two ints: the correctly rounded quotient. *)
Definition int_truediv (a b : Z) : result float :=
  if (b =? 0)%Z then Raise (ZeroDivisionError "division by zero")
  else if overflows (inject_Z a / inject_Z b)
  then Raise (OverflowError "integer division result too large for a float")
  else Ok (Fin (rnd (inject_Z a / inject_Z b))).

(** Truncation toward zero of a rational. *)
Definition Qtrunc (q : Q) : Z := if Qltb q 0 then Qceiling q else Qfloor q.

(** [int(x)] *)
Definition to_int (x : float) : result Z :=
  match x with
  | Fin q => Ok (Qtrunc q)
  | Inf _ => Raise (OverflowError "cannot convert float infinity to integer")
  | NaN => Raise (ValueError "cannot convert float NaN to integer")
  end.

(** C's [fmod]: exact, sign of the dividend. *)
Definition fmod (vx wx : Q) : Q := Qred (vx - wx * inject_Z (Qtrunc (vx / wx))).

(** [vx % wx] on finite floats with [wx] non-zero, as the interpreter
    computes it from [fmod]. *)
Definition rem (vx wx : Q) : Q :=
  let md := fmod vx wx in
  if Qeq_bool md 0 then 0%Q
  else if negb (Bool.eqb (Qltb wx 0)
                         (Qltb md 0))
       then rnd (md + wx)
       else md.

(** [vx // wx] on finite floats with [wx] non-zero. *)
Definition floordiv (vx wx : Q) : Q :=
  let md := fmod vx wx in
  let dv := rnd (rnd (vx - md) / wx) in
  let dv :=
    if Qeq_bool md 0 then dv
    else if negb (Bool.eqb (Qltb wx 0)
                           (Qltb md 0))
         then rnd (dv - 1)
         else dv in
  if Qeq_bool dv 0 then 0%Q
  else
    let fl := inject_Z (Qfloor dv) in
    if Qltb (1 # 2) (dv - fl) then rnd (fl + 1) else fl.

(** The rational value of a hardware float, for comparing [rnd] with the
    machine's arithmetic. *)
Definition of_prim (f : PrimFloat.float) : option Q :=
  match Prim2SF f with
  | S754_zero _ => Some 0%Q
  | S754_finite s m e =>
      Some (Qred (inject_Z (if s then Zneg m else Zpos m) * pow2 e))
  | _ => None
  end.

(** The hardware float nearest to an integer. *)
Definition prim_of_Z (z : Z) : PrimFloat.float :=
  SF2Prim (binary_normalize 53 1024 z 0 false).

End Float64.
Export Float64.

(** ** Text *)

Module Text.

Definition str : Type := list ascii.

(** A string literal. *)
Definition lit (s : string) : str := list_ascii_of_string s.

Definition code (c : ascii) : N := N_of_ascii c.

(** [\d], and the characters [int] and [float] read as decimal digits:
    below code point 256 these are [0] to [9].  The decimal digits that
    Unicode has beyond are outside of [str]. *)
Definition is_digit (c : ascii) : bool := ((48 <=? code c) && (code c <=? 57))%N.

(** [str.isspace] on one character, below code point 256: tab, line feed,
    vertical tab, form feed, carriage return, the four separators 28 to 31,
    space, next line (133) and no-break space (160). *)
Definition is_space (c : ascii) : bool :=
  (((9 <=? code c) && (code c <=? 13)) || ((28 <=? code c) && (code c <=? 32))
   || (code c =? 133) || (code c =? 160))%N.

Fixpoint lstrip (s : str) : str :=
  match s with
  | c :: s' => if is_space c then lstrip s' else s
  | [] => []
  end.

Definition rstrip (s : str) : str := rev (lstrip (rev s)).

(** [s.strip()] *)
Definition strip (s : str) : str := rstrip (lstrip s).

Definition digit_val (c : ascii) : Z := (Z.of_N (code c) - 48)%Z.

Definition digit_char (d : Z) : ascii := ascii_of_N (Z.to_N (d + 48)).

(** The value of a string of decimal digits. *)
Definition digits_val (s : str) : Z :=
  fold_left (fun acc c => (10 * acc + digit_val c)%Z) s 0%Z.

Definition all_digits (s : str) : bool := forallb is_digit s.

(** [int(s)] for [s] a string of decimal digits, the only literals the
    groups of [TIME_PATTERN] can hold; there is no other call of [int] on
    a string.  The interpreter's cap on the length of [s] (4300 digits
    unless configured otherwise) is left out: the theorems that depend on
    what [int] returns bound the length of the hour field. *)
Definition int_of_str (s : str) : result Z :=
  match s with
  | [] => Raise (ValueError "invalid literal for int() with base 10")
  | _ => if all_digits s then Ok (digits_val s)
         else Raise (ValueError "invalid literal for int() with base 10")
  end.

(** The text before and after the first occurrence of [c]. *)
Fixpoint split_at (c : ascii) (s : str) : str * option str :=
  match s with
  | [] => ([], None)
  | a :: s' =>
      if Ascii.eqb a c then ([], Some s')
      else let '(l, r) := split_at c s' in (a :: l, r)
  end.

(** [float(s)] for [s] of the form [digits] or [digits.digits]: the float
    nearest to the decimal value. *)
Definition float_of_str (s : str) : result float :=
  let bad := Raise (ValueError "could not convert string to float") in
  let '(ip, fp) := split_at "." s in
  let fp := default [] fp in
  match ip ++ fp with
  | [] => bad
  | ds => if all_digits ds
          then Ok (round_result (inject_Z (digits_val ds) / inject_Z (10 ^ Z.of_nat (length fp))))
          else bad
  end.

(** Decimal digits of a non-negative integer, most significant first. *)
Fixpoint dec_digits (fuel : nat) (n : Z) (acc : str) : str :=
  match fuel with
  | O => acc
  | S fuel' =>
      let acc' := digit_char (n mod 10) :: acc in
      if (n / 10 =? 0)%Z then acc' else dec_digits fuel' (n / 10)%Z acc'
  end.

Definition str_of_nonneg (n : Z) : str := dec_digits (S (Z.to_nat (Z.log2 n))) n [].

(** Pad with zeros on the left up to [width] characters. *)
Definition zfill (width : nat) (s : str) : str := repeat "0"%char (width - length s) ++ s.

(** [f"{n:02}"]; the sign counts in the width. *)
Definition format_02 (n : Z) : str :=
  if (n <? 0)%Z then "-"%char :: zfill 1 (str_of_nonneg (- n))
  else zfill 2 (str_of_nonneg n).

(** [f"{q:06.3f}"] for a finite float: the exact value rounded to three
    decimals (ties to even), at least six characters. *)
Definition format_06_3f (q : Q) : str :=
  let k := round_half_even (Qabs q * 1000) in
  let body := str_of_nonneg (k / 1000) ++ "."%char :: zfill 3 (str_of_nonneg (k mod 1000)) in
  if Qltb q 0 then "-"%char :: zfill 5 body else zfill 6 body.

End Text.
Export Text.

(** ** Regular expressions *)

Module Re.

(** The constructs [TIME_PATTERN] is written with.  [(?:r)] only groups and
    has no node of its own. *)
Inductive re : Type :=
| Bol                                        (* ^ *)
| Eol                                        (* $ *)
| Digit                                      (* \d *)
| Chr (c : ascii)                            (* a literal character *)
| Cat (r1 r2 : re)                           (* r1 r2 *)
| Opt (r : re)                               (* r? *)
| Rep (lo : nat) (hi : option nat) (r : re)  (* r{lo,hi}; r+ is Rep 1 None *)
| Grp (r : re).                              (* (r) *)

(** A partial match: the groups closed so far, the position reached in the
    subject and the text that remains. *)
Definition mstate : Type := list str * nat * str.

Fixpoint iter_exact (m : nat -> str -> list mstate) (n : nat) (i : nat) (s : str)
  : list mstate :=
  match n with
  | O => [([], i, s)]
  | S n' =>
      '(g1, i1, s1) ← m i s;
      '(g2, i2, s2) ← iter_exact m n' i1 s1;
      [(g1 ++ g2, i2, s2)]
  end.

(** Greedy: one more iteration is tried before stopping. *)
Fixpoint iter_upto (m : nat -> str -> list mstate) (n : nat) (i : nat) (s : str)
  : list mstate :=
  match n with
  | O => [([], i, s)]
  | S n' =>
      ('(g1, i1, s1) ← m i s;
       '(g2, i2, s2) ← iter_upto m n' i1 s1;
       [(g1 ++ g2, i2, s2)]) ++ [([], i, s)]
  end.

(** All the ways [r] matches a prefix of [s] at position [i], in the order
    a backtracking matcher tries them. *)
Fixpoint run (r : re) (i : nat) (s : str) : list mstate :=
  match r with
  | Bol => if Nat.eqb i 0 then [([], i, s)] else []
  | Eol =>
      match s with
      | [] => [([], i, s)]
      | [c] => if Ascii.eqb c "010" then [([], i, s)] else []
      | _ => []
      end
  | Digit =>
      match s with
      | c :: s' => if is_digit c then [([], S i, s')] else []
      | [] => []
      end
  | Chr a =>
      match s with
      | c :: s' => if Ascii.eqb c a then [([], S i, s')] else []
      | [] => []
      end
  | Cat r1 r2 =>
      '(g1, i1, s1) ← run r1 i s;
      '(g2, i2, s2) ← run r2 i1 s1;
      [(g1 ++ g2, i2, s2)]
  | Opt r' => run r' i s ++ [([], i, s)]
  | Rep lo hi r' =>
      '(g1, i1, s1) ← iter_exact (run r') lo i s;
      '(g2, i2, s2) ← iter_upto (run r')
                        (match hi with Some h => h - lo | None => length s1 end) i1 s1;
      [(g1 ++ g2, i2, s2)]
  | Grp r' =>
      '(g, i', s') ← run r' i s;
      [(take (i' - i) s :: g, i', s')]
  end.

(** [r.fullmatch(s)]: the groups of the first match that uses all of [s]. *)
Definition fullmatch (r : re) (s : str) : option (list str) :=
  match List.find (fun st : mstate => match st.2 with [] => true | _ => false end)
                  (run r 0 s) with
  | Some st => Some st.1.1
  | None => None
  end.

End Re.
Export Re.

(** ** The timecode codec *)

Infix "$>" := Cat (at level 60, right associativity).

(** [re.compile(r"^(\d+):(\d{2}):(\d{2}(?:\.\d{1,3})?)$")] *)
Definition TIME_PATTERN : re :=
  Bol $> Grp (Rep 1 None Digit) $> Chr ":" $> Grp (Rep 2 (Some 2) Digit) $> Chr ":"
      $> Grp (Rep 2 (Some 2) Digit $> Opt (Chr "." $> Rep 1 (Some 3) Digit)) $> Eol.

Definition TIMECODE_MSG : string := "Timecode must be HH:MM:SS or HH:MM:SS.mmm".

(** HH:MM:SS(.ms) → seconds (float). *)
Definition to_seconds (timecode : str) : result float :=
  match fullmatch TIME_PATTERN (strip timecode) with
  | None => Raise (ValueError TIMECODE_MSG)
  | Some groups =>
      let h := nth 0 groups [] in
      let mnt := nth 1 groups [] in
      let sec := nth 2 groups [] in
      hi ← int_of_str h;
      mi ← int_of_str mnt;
      sf ← float_of_str sec;
      n ← of_int (hi * 3600 + mi * 60);
      Ok (fadd n sf)
  end.

Definition seconds_to_timecode (seconds : float) : result str :=
  match seconds with
  | Fin x =>
      let h := Qtrunc (floordiv x 3600) in
      let m := Qtrunc (floordiv (rem x 3600) 60) in
      let s := rem x 60 in
      if negb (Qeq_bool (rem s 1) 0)
      then Ok (format_02 h ++ ":"%char :: format_02 m ++ ":"%char :: format_06_3f s)
      else Ok (format_02 h ++ ":"%char :: format_02 m ++ ":"%char :: format_02 (Qtrunc s))
  | _ => Raise (ValueError "cannot convert float NaN to integer")
  end.

(** ** Stateful code: a state and exception monad *)

Definition prog (S A : Type) : Type := S -> result A * S.

#[global] Instance prog_ret {S} : MRet (prog S) := fun A a s => (Ok a, s).
#[global] Instance prog_bind {S} : MBind (prog S) := fun A B k m s =>
  match m s with
  | (Ok a, s') => k a s'
  | (Raise e, s') => (Raise e, s')
  end.

Definition raise {S A} (e : exn) : prog S A := fun s => (Raise e, s).
Definition read_state {S} : prog S S := fun s => (Ok s, s).
Definition update_state {S} (f : S -> S) : prog S unit := fun s => (Ok tt, f s).
Definition lift {S A} (r : result A) : prog S A := fun s => (r, s).

(** [try: body except Exception as e: handler(e)] in [prog], where every
    exception is an instance of [Exception]: the clause catches all that
    [body] can raise.  What [body] did to the state before raising stays
    done. *)
Definition try_except {S A} (body : prog S A) (handler : exn -> prog S A) : prog S A :=
  fun s =>
    match body s with
    | (Ok a, s') => (Ok a, s')
    | (Raise e, s') => handler e s'
    end.

(** ** Exceptions outside of [Exception]

    [exn] holds instances of [Exception] and a program of [prog] raises
    nothing else.  A call into a library can also end with an exception
    that derives from [BaseException] only, which [except Exception] does
    not catch.  A program that makes such calls is a [task]. *)

Inductive base_exn : Type :=
| KeyboardInterrupt
| SystemExit
| GeneratorExit.

(** How a call ends. *)
Inductive ending (A : Type) : Type :=
| Returns (a : A)
| Raises (e : exn)            (* an instance of [Exception] *)
| Escapes (b : base_exn).     (* any other [BaseException] *)
Arguments Returns {A} a.
Arguments Raises {A} e.
Arguments Escapes {A} b.

Definition ended {A : Type} (r : result A) : ending A :=
  match r with
  | Ok a => Returns a
  | Raise e => Raises e
  end.

Definition task (S A : Type) : Type := S -> ending A * S.

#[global] Instance task_ret {S} : MRet (task S) := fun A a s => (Returns a, s).
#[global] Instance task_bind {S} : MBind (task S) := fun A B k m s =>
  match m s with
  | (Returns a, s') => k a s'
  | (Raises e, s') => (Raises e, s')
  | (Escapes b, s') => (Escapes b, s')
  end.

(** A program of [prog] as a task. *)
Definition of_prog {S A} (m : prog S A) : task S A :=
  fun s => let '(r, s') := m s in (ended r, s').

(** A call that ends as [e] says. *)
Definition call {S A} (e : ending A) : task S A := fun s => (e, s).

(** [try: body except Exception as e: handler(e)] in [task]: an exception
    outside of [Exception] passes through. *)
Definition try_except_Exception {S A} (body : task S A) (handler : exn -> task S A)
  : task S A :=
  fun s =>
    match body s with
    | (Raises e, s') => handler e s'
    | (Returns a, s') => (Returns a, s')
    | (Escapes b, s') => (Escapes b, s')
    end.

(** ** QtLogger *)

Module QtLogger.

(** One entry of [self.bars]. *)
Record Bar : Type := mkBar { index : Z; total : option Z }.

(** [b["total"] or b["index"]]: [None] and [0] are false. *)
Definition total_or_index (b : Bar) : Z :=
  match total b with
  | Some t => if (t =? 0)%Z then index b else t
  | None => index b
  end.

Definition completed (bars : gmap string Bar) : Z :=
  map_fold (fun _ b acc => (acc + Z.min (index b) (total_or_index b))%Z) 0%Z bars.

(** [sum((b["total"] or b["index"]) for b in self.bars.values())] *)
Definition sum_totals (bars : gmap string Bar) : Z :=
  map_fold (fun _ b acc => (acc + total_or_index b)%Z) 0%Z bars.

(** [... or 1] *)
Definition grand_total (bars : gmap string Bar) : Z :=
  let t := sum_totals bars in
  if (t =? 0)%Z then 1%Z else t.

(** [int(completed / grand_total * 100)] *)
Definition percent (bars : gmap string Bar) : result Z :=
  r ← int_truediv (completed bars) (grand_total bars);
  to_int (fmul r (Fin 100)).

Section Callback.
(** What the parent class does with the keyword arguments of a call is
    outside this repository: any function on the bar table. *)
Context {Changes : Type} (super_callback : Changes -> gmap string Bar -> gmap string Bar).

(** [callback]: the new bar table and the value sent on
    [qt_signal], if one is sent. *)
Definition callback (changes : Changes) (bars : gmap string Bar)
  : result (gmap string Bar * option Z) :=
  let bars := super_callback changes bars in
  if bool_decide (bars = ∅) then Ok (bars, None)
  else p ← percent bars; Ok (bars, Some p).

(** The values sent on the signal over a sequence of calls, oldest
    first, and the exception that ended it, if any. *)
Fixpoint emissions (calls : list Changes) (bars : gmap string Bar)
  : list Z * option exn :=
  match calls with
  | [] => ([], None)
  | c :: calls' =>
      match callback c bars with
      | Ok (bars', out) =>
          let '(ps, e) := emissions calls' bars' in
          (match out with Some p => p :: ps | None => ps end, e)
      | Raise e => ([], Some e)
      end
  end.
End Callback.

(** A phase snapshot. *)
Record Snapshot : Type :=
  mkSnapshot { phase_name : string; current_index : Z; phase_total : option Z }.

(** Modelled from the spec: the bookkeeping of the parent class
    [ProgressBarLogger] (package proglog), which is not in this
    repository.  The spec, section 4.2: "records/overwrites the latest snapshot for
    that named phase". *)
Definition record_snapshot (c : Snapshot) (bars : gmap string Bar) : gmap string Bar :=
  <[phase_name c := mkBar (current_index c) (phase_total c)]> bars.

End QtLogger.

(** ** TrimWorker *)

(** [pathlib.Path(text)] *)
Record Path : Type := mkPath { path_text : str }.

(** The truth value of a [Path]: the class defines neither [__bool__] nor
    [__len__], so every instance is true. *)
Definition Path_bool (p : Path) : bool := true.

Module TrimWorker.

(** An open media handle and the duration read from it. *)
Record Clip : Type := mkClip { handle : nat; duration : float }.

Record t : Type := mkWorker {
  src : Path;
  dst : Path;
  start_time : float;
  end_time : float
}.

Definition set_end_time (v : float) (w : t) : t :=
  mkWorker (src w) (dst w) (start_time w) v.

(** What the worker does that others can observe. *)
Inductive Event : Type :=
| Opened (c : Clip)                         (* VideoFileClip(...) returned *)
| Closed (c : Clip)                         (* c.close() *)
| SubclipCall (c : Clip) (t0 t1 : float)    (* c.subclipped(t0, t1) *)
| WriteCall (c : Clip) (dst : Path)         (* c.write_videofile(str(dst), ...) *)
| Progress (percent : Z)                    (* self.progress.emit *)
| Finished (ok : bool) (msg : string).      (* self.finished.emit *)

(** The collaborator, MoviePy and, behind the logger, proglog, when every
    exception it raises is an instance of [Exception]. *)
Record MoviePy (Changes : Type) : Type := mkMoviePy {
  VideoFileClip : Path -> result Clip;
  subclipped : Clip -> float -> float -> result Clip;
  (** the logger calls made while writing, then how the call ends *)
  write_videofile : Clip -> Path -> list Changes * option exn;
  super_callback : Changes -> gmap string QtLogger.Bar -> gmap string QtLogger.Bar
}.
Arguments VideoFileClip {Changes}.
Arguments subclipped {Changes}.
Arguments write_videofile {Changes}.
Arguments super_callback {Changes}.

(** The collaborator in general: each call returns, raises an instance of
    [Exception], or ends with an exception outside of [Exception]. *)
Record Collaborator (Changes : Type) : Type := mkCollaborator {
  open_clip : Path -> ending Clip;                      (* VideoFileClip(str(src)) *)
  cut : Clip -> float -> float -> ending Clip;          (* clip.subclipped(t0, t1) *)
  (** the logger calls made while writing, then how the call ends *)
  encode : Clip -> Path -> list Changes * ending unit;  (* sub.write_videofile(...) *)
  bookkeeping : Changes -> gmap string QtLogger.Bar -> gmap string QtLogger.Bar
}.
Arguments open_clip {Changes}.
Arguments cut {Changes}.
Arguments encode {Changes}.
Arguments bookkeeping {Changes}.

Definition of_MoviePy {Changes : Type} (env : MoviePy Changes) : Collaborator Changes :=
  mkCollaborator Changes
    (fun p => ended (VideoFileClip env p))
    (fun c t0 t1 => ended (subclipped env c t0 t1))
    (fun c p =>
       let '(calls, outcome) := write_videofile env c p in
       (calls, match outcome with Some e => Raises e | None => Returns tt end))
    (super_callback env).
Coercion of_MoviePy : MoviePy >-> Collaborator.

Record World : Type := mkWorld { self : t; events : list Event }.

Definition emit (ev : Event) : prog World unit :=
  update_state (fun w => mkWorld (self w) (events w ++ [ev])).

Section Run.
Context {Changes : Type} (env : Collaborator Changes).

(** The logger's callbacks, in order, each forwarding its percent to
    [self.progress]. *)
Fixpoint log_calls (calls : list Changes) (bars : gmap string QtLogger.Bar)
  : prog World unit :=
  match calls with
  | [] => mret tt
  | c :: calls' =>
      '(bars', out) ← lift (QtLogger.callback (bookkeeping env) c bars);
      match out with Some p => emit (Progress p) | None => mret tt end;;
      log_calls calls' bars'
  end.

Definition run : task World unit :=
  try_except_Exception
    (w ← of_prog read_state;
     clip ← call (open_clip env (src (self w)));
     of_prog (emit (Opened clip));;
     of_prog
       (if fgt (end_time (self w)) (duration clip)
        then update_state (fun w => mkWorld (set_end_time (duration clip) (self w)) (events w))
        else mret tt);;
     w ← of_prog read_state;
     of_prog (emit (SubclipCall clip (start_time (self w)) (end_time (self w))));;
     sub ← call (cut env clip (start_time (self w)) (end_time (self w)));
     of_prog (emit (WriteCall sub (dst (self w))));;
     let '(calls, outcome) := encode env sub (dst (self w)) in
     of_prog (log_calls calls ∅);;
     call outcome;;
     of_prog (emit (Finished true "Done!")))
    (fun e => of_prog (emit (Finished false (exn_str e)))).
End Run.

(** The handles open after a sequence of events. *)
Fixpoint open_handles (evs : list Event) (acc : list nat) : list nat :=
  match evs with
  | [] => acc
  | Opened c :: evs' => open_handles evs' (handle c :: acc)
  | Closed c :: evs' => open_handles evs' (List.filter (fun h => negb (Nat.eqb h (handle c))) acc)
  | _ :: evs' => open_handles evs' acc
  end.

Definition terminal (ev : Event) : bool :=
  match ev with Finished _ _ => true | _ => false end.

End TrimWorker.

(** ** MainWindow *)

Module MainWindow.

Record t : Type := mkWindow {
  video_path : option Path;
  start_edit : str;
  end_edit : str;
  out_edit : str;
  trim_btn_enabled : bool;
  progress : Z;
  worker : option TrimWorker.t
}.

(** What a slot does besides updating the window. *)
Inductive Effect : Type :=
| ErrorBox (message : string)             (* QMessageBox.critical *)
| InfoBox (title message : string)        (* QMessageBox.information *)
| Started (w : TrimWorker.t).             (* worker.start() *)

Definition UI : Type := t * list Effect.

Definition error (message : string) : prog UI unit :=
  update_state (fun '(win, fx) => (win, fx ++ [ErrorBox message])).

Definition prepare (w : TrimWorker.t) : prog UI unit :=
  update_state (fun '(win, fx) =>
    (mkWindow (video_path win) (start_edit win) (end_edit win) (out_edit win)
              false 0%Z (Some w),
     fx ++ [Started w])).

Section Slots.
(** [Path.exists], a question to the file system. *)
Context (exists_ : Path -> bool).

Definition start_trim : prog UI unit :=
  '(win, _) ← read_state;
  match video_path win with
  | None => error "Please select a source video first."
  | Some video =>
      if negb (Path_bool video) || negb (exists_ video)
      then error "Please select a source video first."
      else
        let output := mkPath (strip (out_edit win)) in
        if negb (Path_bool output)
        then error "Please specify an output file path."
        else
          fun ui =>
            match to_seconds (start_edit win) with
            | Raise (ValueError m) => error m ui
            | Raise e => (Raise e, ui)
            | Ok start_sec =>
                match to_seconds (end_edit win) with
                | Raise (ValueError m) => error m ui
                | Raise e => (Raise e, ui)
                | Ok end_sec =>
                    if fle end_sec start_sec
                    then error "End time must be greater than start time." ui
                    else prepare (TrimWorker.mkWorker video output start_sec end_sec) ui
                end
            end
  end.
End Slots.

Definition on_finished (ok : bool) (msg : string) : prog UI unit :=
  update_state (fun '(win, fx) =>
    let set p := mkWindow (video_path win) (start_edit win) (end_edit win)
                          (out_edit win) true p (worker win) in
    if ok then (set 100%Z, fx ++ [InfoBox "Success" "Trimming complete!"])
    else (set 0%Z, fx ++ [ErrorBox ("Failed: " +:+ msg)])).

(** The window as first shown. *)
Definition init : t := mkWindow None (lit "00:00:00") (lit "00:00:00") [] true 0%Z None.

(** *** The window inside the event loop *)

(** The window together with the worker threads that were started and
    whose [finished] signal has not been delivered yet. *)
Record App : Type := mkApp { window : t; alive : list TrimWorker.t }.

Inductive UiEvent : Type :=
| EditStart (text : str)
| EditEnd (text : str)
| EditOutput (text : str)
| ChooseVideo (p : Path)
| ClickTrim                                   (* the user presses "Trim" *)
| ProgressSignal (p : Z)                      (* worker.progress delivered *)
| FinishedSignal (ok : bool) (msg : string).  (* worker.finished delivered *)

Definition started (fx : list Effect) : list TrimWorker.t :=
  omap (fun e => match e with Started w => Some w | _ => None end) fx.

Section Loop.
Context (exists_ : Path -> bool).

(** One turn of the event loop.  A disabled button sends no [clicked];
    a [finished] signal comes from a live worker, which is then over. *)
Definition dispatch (ev : UiEvent) (app : App) : App :=
  let win := window app in
  match ev with
  | EditStart s =>
      mkApp (mkWindow (video_path win) s (end_edit win) (out_edit win)
                      (trim_btn_enabled win) (progress win) (worker win)) (alive app)
  | EditEnd s =>
      mkApp (mkWindow (video_path win) (start_edit win) s (out_edit win)
                      (trim_btn_enabled win) (progress win) (worker win)) (alive app)
  | EditOutput s =>
      mkApp (mkWindow (video_path win) (start_edit win) (end_edit win) s
                      (trim_btn_enabled win) (progress win) (worker win)) (alive app)
  | ChooseVideo p =>
      mkApp (mkWindow (Some p) (start_edit win) (end_edit win) (out_edit win)
                      (trim_btn_enabled win) (progress win) (worker win)) (alive app)
  | ClickTrim =>
      if trim_btn_enabled win
      then let '(_, (win', fx)) := start_trim exists_ (win, []) in
           mkApp win' (alive app ++ started fx)
      else app
  | ProgressSignal p =>
      mkApp (mkWindow (video_path win) (start_edit win) (end_edit win) (out_edit win)
                      (trim_btn_enabled win) p (worker win)) (alive app)
  | FinishedSignal ok msg =>
      match alive app with
      | [] => app
      | _ :: rest =>
          let '(_, (win', _)) := on_finished ok msg (win, []) in
          mkApp win' rest
      end
  end.

Definition run_events (evs : list UiEvent) (app : App) : App :=
  fold_left (fun a ev => dispatch ev a) evs app.
End Loop.

End MainWindow.

(** ** The remaining slots of the window *)

Module Slots.
Import MainWindow.

(** [c.lower()] for one character: the capital letters of ASCII and of
    Latin-1, whose small letters lie 32 code points higher. *)
Definition lower_char (c : ascii) : ascii :=
  let n := code c in
  if (((65 <=? n) && (n <=? 90)) || ((192 <=? n) && (n <=? 222) && negb (n =? 215)))%N
  then ascii_of_N (n + 32)
  else c.

(** [s.lower()] *)
Definition lower (s : str) : str := map lower_char s.

(** [s.startswith(prefix)] *)
Fixpoint startswith (s prefix : str) {struct prefix} : bool :=
  match prefix, s with
  | [], _ => true
  | p :: prefix', c :: s' => Ascii.eqb c p && startswith s' prefix'
  | _ :: _, [] => false
  end.

(** [s.endswith(suffix)] *)
Definition endswith (s suffix : str) : bool := startswith (rev s) (rev suffix).

Definition set_out_edit (text : str) (win : MainWindow.t) : MainWindow.t :=
  mkWindow (video_path win) (start_edit win) (end_edit win) text
           (trim_btn_enabled win) (progress win) (worker win).

Definition set_end_edit (text : str) (win : MainWindow.t) : MainWindow.t :=
  mkWindow (video_path win) (start_edit win) text (out_edit win)
           (trim_btn_enabled win) (progress win) (worker win).

Definition set_video_path (p : Path) (win : MainWindow.t) : MainWindow.t :=
  mkWindow (Some p) (start_edit win) (end_edit win) (out_edit win)
           (trim_btn_enabled win) (progress win) (worker win).


(** [browse_output]; [fname] is what the save dialog returned, the empty
    text when the user cancelled. *)
Definition browse_output (fname : str) : prog UI unit :=
  match fname with
  | [] => mret tt
  | _ =>
      update_state (fun '(win, fx) =>
        (set_out_edit (if endswith (lower fname) (lit ".mp4")
                       then fname else fname ++ lit ".mp4") win,
         fx))
  end.

(** The window together with the label that shows the chosen file. *)
Record View : Type := mkView { win : MainWindow.t; file_label : str }.

(** The view as first shown. *)
Definition init_view : View := mkView init (lit "<i>No file chosen</i>").

Section BrowseFile.
(** [VideoFileClip(fname)], a question to MoviePy. *)
Context (VideoFileClip : str -> result TrimWorker.Clip).

(** [browse_file]; [fname] is what the open dialog returned, the empty
    text when the user cancelled. *)
Definition browse_file (fname : str) : prog View unit :=
  match fname with
  | [] => mret tt
  | _ =>
      update_state (fun v => mkView (set_video_path (mkPath fname) (win v)) fname);;
      try_except
        (clip ← lift (VideoFileClip fname);
         text ← lift (seconds_to_timecode (TrimWorker.duration clip));
         update_state (fun v => mkView (set_end_edit text (win v)) (file_label v)))
        (fun _ => mret tt)
  end.
End BrowseFile.


End Slots.

(* ===================================================================== *)
(** * Part II: the vocabulary of the specification                         *)
(* ===================================================================== *)

(** ** What it means for a pattern to match

    [sem r i w rest g]: the pattern [r] matches the text [w] found at
    position [i] of the subject and followed by [rest], and the groups
    closed on the way hold [g]. *)

Fixpoint iter_sem (P : nat -> str -> str -> list str -> Prop)
    (n : nat) (i : nat) (w rest : str) (g : list str) : Prop :=
  match n with
  | O => w = [] /\ g = []
  | S n' =>
      exists w1 w2 g1 g2,
        w = w1 ++ w2 /\ g = g1 ++ g2
        /\ P i w1 (w2 ++ rest) g1 /\ iter_sem P n' (i + length w1) w2 rest g2
  end.

Fixpoint sem (r : re) (i : nat) (w rest : str) (g : list str) : Prop :=
  match r with
  | Bol => w = [] /\ g = [] /\ i = 0%nat
  | Eol => w = [] /\ g = [] /\ (rest = [] \/ rest = ["010"%char])
  | Digit => exists c, w = [c] /\ is_digit c = true /\ g = []
  | Chr a => w = [a] /\ g = []
  | Cat r1 r2 =>
      exists w1 w2 g1 g2,
        w = w1 ++ w2 /\ g = g1 ++ g2
        /\ sem r1 i w1 (w2 ++ rest) g1 /\ sem r2 (i + length w1) w2 rest g2
  | Opt r' => sem r' i w rest g \/ (w = [] /\ g = [])
  | Rep lo hi r' =>
      exists n, (lo <= n)%nat
                /\ match hi with Some h => (n <= lo + (h - lo))%nat | None => True end
                /\ iter_sem (sem r') n i w rest g
  | Grp r' => exists g', sem r' i w rest g' /\ g = w :: g'
  end.

(** A pattern that matches no empty text. *)
Fixpoint consuming (r : re) : bool :=
  match r with
  | Digit | Chr _ => true
  | Cat r1 r2 => consuming r1 || consuming r2
  | Rep lo _ r' => negb (Nat.eqb lo 0) && consuming r'
  | Grp r' => consuming r'
  | _ => false
  end.

(** Every pattern repeated without bound consumes text at each turn. *)
Fixpoint wf (r : re) : bool :=
  match r with
  | Cat r1 r2 => wf r1 && wf r2
  | Opt r' | Grp r' => wf r'
  | Rep _ hi r' => (match hi with None => consuming r' | Some _ => true end) && wf r'
  | _ => true
  end.

(** The matcher finds only matches, and finds every match. *)
Definition sound (m : nat -> str -> list mstate) (P : nat -> str -> str -> list str -> Prop) :=
  forall i s g i' s', (g, i', s') ∈ m i s ->
    exists w, s = w ++ s' /\ i' = (i + length w)%nat /\ P i w s' g.

Definition complete (m : nat -> str -> list mstate) (P : nat -> str -> str -> list str -> Prop) :=
  forall i w s' g, P i w s' g -> (g, (i + length w)%nat, s') ∈ m i (w ++ s').

(** ** The grammar of a timecode, in the words of the specification

    "H+:MM:SS or H+:MM:SS.mmm (hours may be any non-negative integer of any
    digit count; minutes and seconds are exactly two digits; fractional
    seconds 1-3 digits)". *)

Definition digit_field (lo hi : nat) (s : str) : Prop :=
  all_digits s = true /\ (lo <= length s <= hi)%nat.

Definition hours_field (s : str) : Prop := all_digits s = true /\ (1 <= length s)%nat.

Inductive seconds_field : str -> Prop :=
| seconds_whole ss : digit_field 2 2 ss -> seconds_field ss
| seconds_frac ss d :
    digit_field 2 2 ss -> digit_field 1 3 d -> seconds_field (ss ++ "."%char :: d).

Definition timecode_fields (s h m sec : str) : Prop :=
  s = h ++ ":"%char :: m ++ ":"%char :: sec
  /\ hours_field h /\ digit_field 2 2 m /\ seconds_field sec.

Definition is_timecode (s : str) : Prop := exists h m sec, timecode_fields s h m sec.

(** The rational a seconds field denotes. *)
Definition seconds_value (sec : str) : Q :=
  let '(ip, fp) := split_at "." sec in
  let fp := default [] fp in
  (inject_Z (digits_val (ip ++ fp)) / inject_Z (10 ^ Z.of_nat (length fp)))%Q.

(** ** The components [seconds_to_timecode] computes *)

(** The exact quotient of a non-negative [x] by a positive integer [y]. *)
Definition quo (x : Q) (y : Z) : Z := Qfloor (x / inject_Z y).

Definition hours_of (x : Q) : Z := Qtrunc (floordiv x 3600).
Definition minutes_of (x : Q) : Z := Qtrunc (floordiv (rem x 3600) 60).
Definition seconds_of (x : Q) : Q := rem x 60.

(** The number of thousandths shown for a seconds value. *)
Definition millis (s : Q) : Z := round_half_even (s * 1000).

(** The test [s % 1] of the source: whether [seconds % 60] has a fractional
    part. *)
Definition has_fraction (x : Q) : bool := negb (Qeq_bool (rem (seconds_of x) 1) 0).

(** ** Progress bars *)

(** A bar whose counters are not negative. *)
Definition nonneg_bar (b : QtLogger.Bar) : Prop :=
  (0 <= QtLogger.index b)%Z
  /\ match QtLogger.total b with Some t => (0 <= t)%Z | None => True end.

(** The bar table after a sequence of calls. *)
Definition final_table {Changes}
    (super_callback : Changes -> gmap string QtLogger.Bar -> gmap string QtLogger.Bar)
    (calls : list Changes) (bars : gmap string QtLogger.Bar) : gmap string QtLogger.Bar :=
  fold_left (fun b c => super_callback c b) calls bars.

(** A sequence of emitted percents that never goes down. *)
Fixpoint non_decreasing (l : list Z) : Prop :=
  match l with
  | a :: (b :: _) as tl => (a <= b)%Z /\ non_decreasing tl
  | _ => True
  end.

(** ** The trim job *)

(** The end time once the duration of the source is known. *)
Definition clamp_end (end_time duration : float) : float :=
  if fgt end_time duration then duration else end_time.

(** The first exception among the collaborator's answers, in the order
    [run] asks for them. *)
Definition first_failure {Changes} (env : TrimWorker.MoviePy Changes) (w : TrimWorker.t)
  : option exn :=
  match TrimWorker.VideoFileClip env (TrimWorker.src w) with
  | Raise e => Some e
  | Ok clip =>
      match TrimWorker.subclipped env clip (TrimWorker.start_time w)
              (clamp_end (TrimWorker.end_time w) (TrimWorker.duration clip)) with
      | Raise e => Some e
      | Ok sub =>
          let '(calls, outcome) := TrimWorker.write_videofile env sub (TrimWorker.dst w) in
          match QtLogger.emissions (TrimWorker.super_callback env) calls ∅ with
          | (_, Some e) => Some e
          | (_, None) => outcome
          end
      end
  end.

(** The exception outside of [Exception] that ends [run], if one does:
    that of the first call, in the order [run] makes them, that ends so. *)
Definition first_escape {Changes} (c : TrimWorker.Collaborator Changes) (w : TrimWorker.t)
  : option base_exn :=
  match TrimWorker.open_clip c (TrimWorker.src w) with
  | Returns clip =>
      match TrimWorker.cut c clip (TrimWorker.start_time w)
              (clamp_end (TrimWorker.end_time w) (TrimWorker.duration clip)) with
      | Returns sub =>
          let '(calls, outcome) := TrimWorker.encode c sub (TrimWorker.dst w) in
          match QtLogger.emissions (TrimWorker.bookkeeping c) calls ∅, outcome with
          | (_, None), Escapes b => Some b
          | _, _ => None
          end
      | Escapes b => Some b
      | Raises _ => None
      end
  | Escapes b => Some b
  | Raises _ => None
  end.

(** ** The supervisor *)

(** At most one worker is alive, and the button is enabled exactly when
    none is. *)
Definition one_job (app : MainWindow.App) : Prop :=
  (MainWindow.trim_btn_enabled (MainWindow.window app) = true /\ MainWindow.alive app = [])
  \/ (MainWindow.trim_btn_enabled (MainWindow.window app) = false
      /\ exists w, MainWindow.alive app = [w]).

(** ** Concrete collaborators and inputs, to run the program on *)

Definition snap (n : string) (i t : Z) : QtLogger.Snapshot :=
  QtLogger.mkSnapshot n i (Some t).

(** A source of 120 seconds. *)
Definition clip120 : TrimWorker.Clip := TrimWorker.mkClip 1 (Fin 120).

(** A collaborator that opens [clip120], cuts it, reports two snapshots
    while writing and then ends as [outcome] says. *)
Definition moviepy120 (outcome : option exn) : TrimWorker.MoviePy QtLogger.Snapshot :=
  TrimWorker.mkMoviePy QtLogger.Snapshot
    (fun _ => Ok clip120)
    (fun c _ _ => Ok c)
    (fun _ _ => ([snap "t" 1 2; snap "t" 2 2], outcome))
    QtLogger.record_snapshot.

(** A collaborator that cannot open the source. *)
Definition moviepy_unreadable (e : exn) : TrimWorker.MoviePy QtLogger.Snapshot :=
  TrimWorker.mkMoviePy QtLogger.Snapshot
    (fun _ => Raise e)
    (fun c _ _ => Ok c)
    (fun _ _ => ([], None))
    QtLogger.record_snapshot.

Definition video_in : Path := mkPath (lit "in.mp4").

(** The window of the end-to-end example: start 00:00:10, end 00:05:00. *)
Definition window_10_300 : MainWindow.t :=
  MainWindow.mkWindow (Some video_in) (lit "00:00:10") (lit "00:05:00") (lit "out.mp4")
                      true 0%Z None.

Definition worker_10_300 : TrimWorker.t :=
  TrimWorker.mkWorker video_in (mkPath (lit "out.mp4")) (Fin 10) (Fin 300).

(** A window with every field filled but the output path. *)
Definition window_no_output : MainWindow.t :=
  MainWindow.mkWindow (Some video_in) (lit "00:00:00") (lit "00:00:10") []
                      true 0%Z None.

(** A window whose job [worker_10_300] is still running. *)
Definition window_busy : MainWindow.t :=
  MainWindow.mkWindow (Some video_in) (lit "00:00:10") (lit "00:05:00") (lit "out.mp4")
                      false 0%Z (Some worker_10_300).

(** The text [1] followed by 310 zeros, then [:00:00]. *)
Definition huge_hours : str := "1"%char :: repeat "0"%char 310 ++ lit ":00:00".


(** A collaborator that opens [clip120] and cannot cut it. *)
Definition moviepy_bad_cut (e : exn) : TrimWorker.MoviePy QtLogger.Snapshot :=
  TrimWorker.mkMoviePy QtLogger.Snapshot
    (fun _ => Ok clip120)
    (fun _ _ _ => Raise e)
    (fun _ _ => ([], None))
    QtLogger.record_snapshot.

(** A window whose start field holds [huge_hours]. *)
Definition window_huge_start : MainWindow.t :=
  MainWindow.mkWindow (Some video_in) huge_hours (lit "00:05:00") (lit "out.mp4")
                      true 0%Z None.

(** A collaborator whose encoder reports two snapshots and then ends with
    [SystemExit]. *)
Definition moviepy_exits : TrimWorker.Collaborator QtLogger.Snapshot :=
  TrimWorker.mkCollaborator QtLogger.Snapshot
    (fun _ => Returns clip120)
    (fun c _ _ => Returns c)
    (fun _ _ => ([snap "t" 1 2; snap "t" 2 2], Escapes SystemExit))
    QtLogger.record_snapshot.

(** A request that ends before the source does. *)
Definition worker_10_60 : TrimWorker.t :=
  TrimWorker.mkWorker video_in (mkPath (lit "out.mp4")) (Fin 10) (Fin 60).

(** Windows with a source and one thing wrong: a start text that is no
    timecode, an end text that is none, an end time equal to the start
    time. *)
Definition window_bad_start : MainWindow.t :=
  MainWindow.mkWindow (Some video_in) (lit "abc") (lit "00:05:00") (lit "out.mp4")
                      true 0%Z None.

Definition window_bad_end : MainWindow.t :=
  MainWindow.mkWindow (Some video_in) (lit "00:00:10") (lit "1:2:3") (lit "out.mp4")
                      true 0%Z None.

Definition window_equal_times : MainWindow.t :=
  MainWindow.mkWindow (Some video_in) (lit "00:00:10") (lit "00:00:10") (lit "out.mp4")
                      true 0%Z None.


(* ===================================================================== *)
(** * Part III: facts                                                      *)
(* ===================================================================== *)

(** [lra] with the powers of two taken as atoms. *)
Ltac abstract_pow2 :=
  repeat match goal with
         | |- context [pow2 ?e] =>
             let p := fresh "p" in set (p := pow2 e) in *; clearbody p
         | H : context [pow2 ?e] |- _ =>
             let p := fresh "p" in set (p := pow2 e) in *; clearbody p
         end.
Ltac plra := abstract_pow2; lra.

Section Float64Facts.
Local Open Scope Q_scope.


Lemma pow2_pos e : 0 < pow2 e.
Proof. unfold pow2. apply Qpower_0_lt. reflexivity. Qed.

Lemma pow2_add a b : pow2 (a + b) == pow2 a * pow2 b.
Proof. unfold pow2. apply Qpower_plus. discriminate. Qed.

Lemma pow2_le a b : (a <= b)%Z -> pow2 a <= pow2 b.
Proof. intros H. unfold pow2. apply Qpower_le_compat_l; [exact H | discriminate]. Qed.

Lemma pow2_lt a b : (a < b)%Z -> pow2 a < pow2 b.
Proof. intros H. unfold pow2. apply Qpower_lt_compat_l; [exact H | reflexivity]. Qed.

Lemma pow2_inject e : (0 <= e)%Z -> pow2 e == inject_Z (2 ^ e).
Proof. intros H. unfold pow2. symmetry. apply (Zpower_Qpower 2 e H). Qed.

Lemma pow2_succ e : pow2 (e + 1) == 2 * pow2 e.
Proof. rewrite pow2_add. change (pow2 1) with 2. ring. Qed.

Lemma pow2_opp e : pow2 (- e) == / pow2 e.
Proof. unfold pow2. apply Qpower_opp. Qed.


Lemma ilog2_spec q : 0 < q -> pow2 (ilog2 q) <= q /\ q < pow2 (ilog2 q + 1).
Proof.
  intros Hq. destruct q as [n d]. unfold ilog2. cbn [Qnum Qden].
  assert (Hn : (0 < n)%Z) by (unfold Qlt in Hq; cbn in Hq; lia).
  set (a := Z.log2 n). set (b := Z.log2 (Z.pos d)).
  assert (Ha : (2 ^ a <= n < 2 ^ (a + 1))%Z).
  { pose proof (Z.log2_spec n Hn) as H. fold a in H. rewrite <- Z.add_1_r in H. exact H. }
  assert (Hb : (2 ^ b <= Z.pos d < 2 ^ (b + 1))%Z).
  { pose proof (Z.log2_spec (Z.pos d) eq_refl) as H. fold b in H.
    rewrite <- Z.add_1_r in H. exact H. }
  assert (Ha0 : (0 <= a)%Z) by apply Z.log2_nonneg.
  assert (Hb0 : (0 <= b)%Z) by apply Z.log2_nonneg.
  assert (Hqd : n # d == inject_Z n / inject_Z (Z.pos d)) by apply Qmake_Qdiv.
  assert (Hdpos : 0 < inject_Z (Z.pos d)) by (unfold Qlt; cbn; lia).
  (* the two outer bounds *)
  assert (Hup : n # d < pow2 (a - b + 1)).
  { rewrite Hqd. apply Qlt_shift_div_r; [exact Hdpos |].
    apply Qlt_le_trans with (pow2 (a + 1)).
    - rewrite pow2_inject by lia. rewrite <- Zlt_Qlt. lia.
    - replace (a + 1)%Z with ((a - b + 1) + b)%Z by lia. rewrite pow2_add.
      apply Qmult_le_l; [apply pow2_pos |].
      rewrite pow2_inject by lia. rewrite <- Zle_Qle. lia. }
  assert (Hlo : pow2 (a - b - 1) <= n # d).
  { rewrite Hqd. apply Qle_shift_div_l; [exact Hdpos |].
    apply Qle_trans with (pow2 a).
    - replace a with ((a - b - 1) + (b + 1))%Z at 2 by lia. rewrite pow2_add.
      apply Qmult_le_l; [apply pow2_pos |].
      rewrite pow2_inject by lia. rewrite <- Zle_Qle. lia.
    - rewrite pow2_inject by lia. rewrite <- Zle_Qle. lia. }
  destruct (Qle_bool (pow2 (a - b)) (n # d)) eqn:E.
  - apply Qle_bool_iff in E. split; [exact E | exact Hup].
  - split; [exact Hlo |].
    replace (a - b - 1 + 1)%Z with (a - b)%Z by lia.
    apply Qnot_le_lt. intros H. apply Qle_bool_iff in H. congruence.
Qed.

Lemma ilog2_unique q l : pow2 l <= q -> q < pow2 (l + 1) -> ilog2 q = l.
Proof.
  intros H1 H2.
  assert (Hq : 0 < q) by (eapply Qlt_le_trans; [apply (pow2_pos l) | exact H1]).
  destruct (ilog2_spec q Hq) as [H3 H4].
  destruct (Z.lt_trichotomy (ilog2 q) l) as [Hlt | [Heq | Hgt]]; [| exact Heq |].
  - exfalso. assert (pow2 (ilog2 q + 1) <= pow2 l) by (apply pow2_le; lia). plra.
  - exfalso. assert (pow2 (l + 1) <= pow2 (ilog2 q)) by (apply pow2_le; lia). plra.
Qed.


Lemma ilog2_proper q q' : 0 < q -> q == q' -> ilog2 q = ilog2 q'.
Proof.
  intros Hq E. destruct (ilog2_spec q Hq) as [H1 H2].
  symmetry. apply ilog2_unique; rewrite <- E; assumption.
Qed.

(** *** Rounding to an integer *)

Lemma rhe_cases x :
  let f := Qfloor x in
  (x - inject_Z f < 1 # 2 /\ round_half_even x = f) \/
  (1 # 2 < x - inject_Z f /\ round_half_even x = (f + 1)%Z) \/
  (x - inject_Z f == 1 # 2 /\ round_half_even x = if Z.even f then f else (f + 1)%Z).
Proof.
  intros f. unfold round_half_even. fold f.
  destruct (Qcompare_spec (x - inject_Z f) (1 # 2)) as [E | E | E]; auto.
Qed.

Lemma rhe_bounds x :
  x - (1 # 2) <= inject_Z (round_half_even x) /\ inject_Z (round_half_even x) <= x + (1 # 2).
Proof.
  pose proof (Qfloor_le x) as H1. pose proof (Qlt_floor x) as H2.
  rewrite inject_Z_plus in H2. change (inject_Z 1) with 1 in H2.
  destruct (rhe_cases x) as [[H E] | [[H E] | [H E]]]; rewrite E.
  - lra.
  - rewrite inject_Z_plus. change (inject_Z 1) with 1. lra.
  - destruct (Z.even (Qfloor x)); [| rewrite inject_Z_plus; change (inject_Z 1) with 1]; lra.
Qed.

Lemma rhe_Z z : round_half_even (inject_Z z) = z.
Proof.
  destruct (rhe_cases (inject_Z z)) as [[H E] | [[H E] | [H E]]];
    rewrite Qfloor_Z in *; [exact E | exfalso; lra | exfalso; lra].
Qed.

Lemma rhe_proper x y : x == y -> round_half_even x = round_half_even y.
Proof.
  intros E. unfold round_half_even. rewrite (Qfloor_comp _ _ E).
  assert (E' : x - inject_Z (Qfloor y) == y - inject_Z (Qfloor y)) by (rewrite E; reflexivity).
  rewrite (Qcompare_comp _ _ E' (1 # 2) (1 # 2) (Qeq_refl _)). reflexivity.
Qed.

Lemma rhe_mono x y : x <= y -> (round_half_even x <= round_half_even y)%Z.
Proof.
  intros Hxy.
  pose proof (Qfloor_resp_le _ _ Hxy) as Hf.
  pose proof (Qfloor_le x) as Hx1. pose proof (Qlt_floor x) as Hx2.
  pose proof (Qfloor_le y) as Hy1. pose proof (Qlt_floor y) as Hy2.
  rewrite inject_Z_plus in Hx2, Hy2. change (inject_Z 1) with 1 in Hx2, Hy2.
  destruct (Z.eq_dec (Qfloor x) (Qfloor y)) as [Ef | Nf].
  - destruct (rhe_cases x) as [[H E] | [[H E] | [H E]]];
      destruct (rhe_cases y) as [[H' E'] | [[H' E'] | [H' E']]];
      rewrite E, E'; rewrite Ef in *; try lia; try (exfalso; lra);
      destruct (Z.even (Qfloor y)); lia.
  - assert (Hlt : (Qfloor x + 1 <= Qfloor y)%Z) by lia.
    assert (round_half_even x <= Qfloor x + 1)%Z.
    { destruct (rhe_cases x) as [[H E] | [[H E] | [H E]]]; rewrite E; try lia.
      destruct (Z.even (Qfloor x)); lia. }
    assert (Qfloor y <= round_half_even y)%Z.
    { destruct (rhe_cases y) as [[H' E'] | [[H' E'] | [H' E']]]; rewrite E'; try lia.
      destruct (Z.even (Qfloor y)); lia. }
    lia.
Qed.

Lemma rhe_nonneg x : 0 <= x -> (0 <= round_half_even x)%Z.
Proof. intros H. rewrite <- (rhe_Z 0). apply rhe_mono. exact H. Qed.


(** *** Rounding to binary64 *)

Lemma pow2_nonzero e : ~ pow2 e == 0.
Proof. pose proof (pow2_pos e). lra. Qed.

Lemma div_pow2 x e : x / pow2 e == x * pow2 (- e).
Proof. rewrite pow2_opp. reflexivity. Qed.

Lemma pow2_cancel e : pow2 (- e) * pow2 e == 1.
Proof. rewrite <- pow2_add. replace (- e + e)%Z with 0%Z by lia. reflexivity. Qed.

Lemma fexp_pos q : 0 < q -> fexp q = Z.max (ilog2 q - 52) (-1074).
Proof.
  intros H. unfold fexp. f_equal. f_equal.
  assert (E : Qabs q == q) by (apply Qabs_pos; lra).
  symmetry. apply ilog2_proper; [exact H | symmetry; exact E].
Qed.

Lemma fexp_proper q q' : 0 < q -> q == q' -> fexp q = fexp q'.
Proof.
  intros H E. rewrite !fexp_pos by (rewrite <- ?E; exact H).
  rewrite (ilog2_proper q q' H E). reflexivity.
Qed.

Lemma rnd_zero q : q == 0 -> rnd q = 0.
Proof. intros E. unfold rnd. apply Qeq_bool_iff in E. rewrite E. reflexivity. Qed.

Lemma rnd_eq q :
  ~ q == 0 -> rnd q == inject_Z (round_half_even (q * pow2 (- fexp q))) * pow2 (fexp q).
Proof.
  intros N. unfold rnd. destruct (Qeq_bool q 0) eqn:E.
  - apply Qeq_bool_iff in E. contradiction.
  - rewrite Qred_correct. rewrite (rhe_proper _ _ (div_pow2 q (fexp q))). reflexivity.
Qed.

Lemma rnd_proper q q' : 0 <= q -> q == q' -> rnd q = rnd q'.
Proof.
  intros H E. unfold rnd.
  destruct (Qeq_bool q 0) eqn:E0.
  - apply Qeq_bool_iff in E0. rewrite E in E0. apply Qeq_bool_iff in E0. rewrite E0. reflexivity.
  - assert (N : ~ q == 0) by (intros C; apply Qeq_bool_iff in C; congruence).
    assert (N' : Qeq_bool q' 0 = false).
    { destruct (Qeq_bool q' 0) eqn:E1; [| reflexivity].
      apply Qeq_bool_iff in E1. rewrite <- E in E1. contradiction. }
    rewrite N'. apply Qred_complete.
    assert (Hq : 0 < q) by lra.
    rewrite <- (fexp_proper q q' Hq E).
    assert (E2 : q / pow2 (fexp q) == q' / pow2 (fexp q))
      by (apply Qdiv_comp; [exact E | reflexivity]).
    rewrite (rhe_proper _ _ E2). reflexivity.
Qed.

Lemma rnd_nonneg q : 0 <= q -> 0 <= rnd q.
Proof.
  intros H. destruct (Qeq_dec q 0) as [E | N].
  - rewrite (rnd_zero q E). lra.
  - rewrite (rnd_eq q N).
    apply Qmult_le_0_compat; [| apply Qlt_le_weak, pow2_pos].
    change 0 with (inject_Z 0). rewrite <- Zle_Qle. apply rhe_nonneg.
    apply Qmult_le_0_compat; [exact H | apply Qlt_le_weak, pow2_pos].
Qed.

(** A value that is a multiple of its own last place is not changed. *)
Lemma rnd_exact q m k :
  0 < q -> (fexp q <= k)%Z -> q == inject_Z m * pow2 k -> rnd q == q.
Proof.
  intros Hq Hk E.
  assert (N : ~ q == 0) by lra.
  rewrite (rnd_eq q N). set (e := fexp q) in *. clearbody e.
  assert (E1 : q * pow2 (- e) == inject_Z (m * 2 ^ (k - e))).
  { rewrite inject_Z_mult, <- pow2_inject by lia.
    replace (k - e)%Z with (k + - e)%Z by lia.
    rewrite pow2_add, E. ring. }
  rewrite (rhe_proper _ _ E1), rhe_Z, <- E1.
  rewrite <- Qmult_assoc, pow2_cancel. ring.
Qed.

Lemma ilog2_lt q e : 0 < q -> q < pow2 e -> (ilog2 q < e)%Z.
Proof.
  intros Hq H. destruct (ilog2_spec q Hq) as [H1 _].
  destruct (Z_lt_le_dec (ilog2 q) e) as [L | G]; [exact L | exfalso].
  pose proof (pow2_le _ _ G). plra.
Qed.

Lemma ilog2_ge q e : pow2 e <= q -> (e <= ilog2 q)%Z.
Proof.
  intros H.
  assert (Hq : 0 < q) by (pose proof (pow2_pos e); lra).
  destruct (ilog2_spec q Hq) as [_ H2].
  destruct (Z_le_gt_dec e (ilog2 q)) as [L | G]; [exact L | exfalso].
  assert (pow2 (ilog2 q + 1) <= pow2 e) by (apply pow2_le; lia). plra.
Qed.

(** Integers of at most 53 bits are floats. *)
Lemma rnd_Z z : (0 <= z <= 2 ^ 53)%Z -> rnd (inject_Z z) == inject_Z z.
Proof.
  intros [H0 H53].
  destruct (Z.eq_dec z 0%Z) as [-> | Nz]; [reflexivity |].
  assert (Hq : 0 < inject_Z z) by (change 0 with (inject_Z 0); rewrite <- Zlt_Qlt; lia).
  destruct (Z.eq_dec z (2 ^ 53)%Z) as [-> | N53].
  - apply (rnd_exact _ 1 53); [exact Hq | | rewrite pow2_inject by lia; ring].
    rewrite fexp_pos by exact Hq.
    assert (ilog2 (inject_Z (2 ^ 53)) < 54)%Z.
    { apply ilog2_lt; [exact Hq |]. rewrite pow2_inject by lia. rewrite <- Zlt_Qlt. lia. }
    lia.
  - apply (rnd_exact _ z 0); [exact Hq | | change (pow2 0) with 1; ring].
    rewrite fexp_pos by exact Hq.
    assert (ilog2 (inject_Z z) < 53)%Z.
    { apply ilog2_lt; [exact Hq |]. rewrite pow2_inject by lia. rewrite <- Zlt_Qlt. lia. }
    lia.
Qed.


Lemma rnd_error q :
  0 < q ->
  q - pow2 (fexp q) * (1 # 2) <= rnd q /\ rnd q <= q + pow2 (fexp q) * (1 # 2).
Proof.
  intros Hq. assert (N : ~ q == 0) by lra.
  rewrite (rnd_eq q N). set (e := fexp q). clearbody e.
  destruct (rhe_bounds (q * pow2 (- e))) as [H1 H2].
  pose proof (pow2_pos e) as He.
  assert (E : q * pow2 (- e) * pow2 e == q) by (rewrite <- Qmult_assoc, pow2_cancel; ring).
  set (r := inject_Z (round_half_even (q * pow2 (- e)))) in *. clearbody r.
  set (t := q * pow2 (- e)) in *. clearbody t.
  set (p := pow2 e) in *. clearbody p.
  split; nra.
Qed.

Lemma rnd_rel_error q :
  pow2 (-1022) <= q ->
  q * (1 - pow2 (-53)) <= rnd q /\ rnd q <= q * (1 + pow2 (-53)).
Proof.
  intros H.
  assert (Hq : 0 < q) by (pose proof (pow2_pos (-1022)); lra).
  destruct (rnd_error q Hq) as [H1 H2].
  pose proof (ilog2_ge _ _ H) as Hl.
  destruct (ilog2_spec q Hq) as [H3 _].
  rewrite fexp_pos in H1, H2 by exact Hq.
  rewrite Z.max_l in H1, H2 by lia.
  assert (E : pow2 (ilog2 q - 52) * (1 # 2) == pow2 (ilog2 q) * pow2 (-53)).
  { replace (ilog2 q - 52)%Z with (ilog2 q + -53 + 1)%Z by lia.
    rewrite pow2_succ, pow2_add. ring. }
  rewrite E in H1, H2.
  assert (P : 0 < pow2 (-53)) by apply pow2_pos.
  set (p := pow2 (-53)) in *. clearbody p.
  set (l := pow2 (ilog2 q)) in *. clearbody l.
  split; nra.
Qed.

Lemma ilog2_mono x y : 0 < x -> x <= y -> (ilog2 x <= ilog2 y)%Z.
Proof.
  intros Hx Hxy. apply ilog2_ge. destruct (ilog2_spec x Hx) as [H _]. lra.
Qed.

Lemma rhe_le_Z x z : x <= inject_Z z -> (round_half_even x <= z)%Z.
Proof. intros H. rewrite <- (rhe_Z z). apply rhe_mono. exact H. Qed.

Lemma rhe_ge_Z x z : inject_Z z <= x -> (z <= round_half_even x)%Z.
Proof. intros H. rewrite <- (rhe_Z z). apply rhe_mono. exact H. Qed.

(** Rounding is monotone (stated on the non-negative numbers, which is all
    the program computes with). *)
Lemma rnd_mono x y : 0 <= x -> x <= y -> rnd x <= rnd y.
Proof.
  intros Hx Hxy.
  destruct (Qeq_dec x 0) as [E | Nx].
  { rewrite (rnd_zero x E). apply rnd_nonneg. lra. }
  assert (Hx' : 0 < x) by lra. assert (Hy' : 0 < y) by lra.
  assert (Ny : ~ y == 0) by lra.
  pose proof (ilog2_mono x y Hx' Hxy) as Hl.
  destruct (ilog2_spec x Hx') as [Hx1 Hx2]. destruct (ilog2_spec y Hy') as [Hy1 Hy2].
  rewrite (rnd_eq x Nx), (rnd_eq y Ny).
  rewrite (fexp_pos x Hx'), (fexp_pos y Hy').
  set (lx := ilog2 x) in *. set (ly := ilog2 y) in *. clearbody lx ly.
  set (ex := Z.max (lx - 52) (-1074)). set (ey := Z.max (ly - 52) (-1074)).
  destruct (Z.eq_dec ex ey) as [Ee | Ne].
  - rewrite Ee. apply Qmult_le_compat_r; [| apply Qlt_le_weak, pow2_pos].
    rewrite <- Zle_Qle. apply rhe_mono.
    apply Qmult_le_compat_r; [exact Hxy | apply Qlt_le_weak, pow2_pos].
  - assert (Hlt : (ex < ey)%Z) by lia.
    assert (Hey : ey = (ly - 52)%Z) by lia.
    apply Qle_trans with (pow2 ly).
    + (* rnd x is at most the next power of two *)
      set (k := Z.max (lx + 1 - ex) 0).
      apply Qle_trans with (inject_Z (2 ^ k) * pow2 ex).
      * apply Qmult_le_compat_r; [| apply Qlt_le_weak, pow2_pos].
        rewrite <- Zle_Qle. apply rhe_le_Z.
        rewrite <- pow2_inject by lia.
        apply Qle_trans with (pow2 (lx + 1 - ex)); [| apply pow2_le; lia].
        replace (lx + 1 - ex)%Z with (lx + 1 + - ex)%Z by lia. rewrite pow2_add.
        apply Qmult_le_compat_r; [lra | apply Qlt_le_weak, pow2_pos].
      * rewrite <- pow2_inject, <- pow2_add by lia. apply pow2_le. lia.
    + apply Qle_trans with (inject_Z (2 ^ 52) * pow2 ey).
      * rewrite <- pow2_inject, <- pow2_add by lia. apply pow2_le. lia.
      * apply Qmult_le_compat_r; [| apply Qlt_le_weak, pow2_pos].
        rewrite <- Zle_Qle. apply rhe_ge_Z.
        rewrite <- pow2_inject by lia.
        replace 52%Z with (ly + - ey)%Z by lia. rewrite pow2_add.
        apply Qmult_le_compat_r; [lra | apply Qlt_le_weak, pow2_pos].
Qed.

Lemma rnd_le_Z q z : 0 <= q -> (0 <= z <= 2 ^ 53)%Z -> q <= inject_Z z -> rnd q <= inject_Z z.
Proof. intros H0 Hz H. rewrite <- (rnd_Z z Hz). apply rnd_mono; assumption. Qed.

Lemma rnd_ge_Z q z : (0 <= z <= 2 ^ 53)%Z -> inject_Z z <= q -> inject_Z z <= rnd q.
Proof.
  intros Hz H. rewrite <- (rnd_Z z Hz). apply rnd_mono; [| exact H].
  change 0 with (inject_Z 0). rewrite <- Zle_Qle. lia.
Qed.

Lemma no_overflow q z :
  0 <= q -> (0 <= z <= 2 ^ 53)%Z -> q <= inject_Z z -> overflows q = false.
Proof.
  intros H0 Hz H. unfold overflows.
  destruct (Qle_bool (pow2 1024) (Qabs (rnd q))) eqn:E; [exfalso | reflexivity].
  apply Qle_bool_iff in E.
  rewrite Qabs_pos in E by (apply rnd_nonneg; exact H0).
  pose proof (rnd_le_Z q z H0 Hz H) as H1.
  assert (inject_Z z < pow2 1024).
  { rewrite pow2_inject by lia. rewrite <- Zlt_Qlt.
    apply Z.le_lt_trans with (2 ^ 53)%Z; [lia |].
    apply Z.pow_lt_mono_r; lia. }
  plra.
Qed.

End Float64Facts.

Section TextFacts.

Lemma digit_char_is_digit d : (0 <= d <= 9)%Z -> is_digit (digit_char d) = true.
Proof.
  intros H. assert (C : In d [0; 1; 2; 3; 4; 5; 6; 7; 8; 9]%Z) by (cbn; lia).
  cbn in C. intuition (subst; reflexivity).
Qed.

Lemma digit_val_char d : (0 <= d <= 9)%Z -> digit_val (digit_char d) = d.
Proof.
  intros H. assert (C : In d [0; 1; 2; 3; 4; 5; 6; 7; 8; 9]%Z) by (cbn; lia).
  cbn in C. intuition (subst; reflexivity).
Qed.

Lemma is_digit_val c : is_digit c = true -> (0 <= digit_val c <= 9)%Z.
Proof.
  unfold is_digit, digit_val. intros H. apply andb_prop in H as [H1 H2].
  apply N.leb_le in H1, H2. lia.
Qed.

Lemma digit_char_val c : is_digit c = true -> digit_char (digit_val c) = c.
Proof.
  intros H. pose proof (is_digit_val c H) as B.
  unfold digit_char, digit_val in *. unfold code in *.
  replace (Z.to_N (Z.of_N (N_of_ascii c) - 48 + 48)) with (N_of_ascii c) by lia.
  apply ascii_N_embedding.
Qed.

Lemma fold_digits_acc s a :
  fold_left (fun acc c => (10 * acc + digit_val c)%Z) s a
  = (a * 10 ^ Z.of_nat (length s) + digits_val s)%Z.
Proof.
  unfold digits_val. revert a. induction s as [| c s IH]; intros a.
  - cbn. lia.
  - cbn [fold_left length]. rewrite IH, (IH (10 * 0 + digit_val c)%Z).
    rewrite Nat2Z.inj_succ, Z.pow_succ_r by lia. ring.
Qed.

Lemma digits_val_cons c s :
  digits_val (c :: s) = (digit_val c * 10 ^ Z.of_nat (length s) + digits_val s)%Z.
Proof. unfold digits_val at 1. cbn [fold_left]. rewrite fold_digits_acc. f_equal. Qed.

Lemma digits_val_app a b :
  digits_val (a ++ b) = (digits_val a * 10 ^ Z.of_nat (length b) + digits_val b)%Z.
Proof.
  unfold digits_val at 1. rewrite fold_left_app.
  change (fold_left _ a 0%Z) with (digits_val a). apply fold_digits_acc.
Qed.

Lemma digits_val_nonneg s : all_digits s = true -> (0 <= digits_val s)%Z.
Proof.
  induction s as [| c s IH]; intros H; [cbn; lia |].
  cbn in H. apply andb_prop in H as [H1 H2].
  rewrite digits_val_cons. pose proof (is_digit_val c H1). specialize (IH H2).
  assert (0 <= 10 ^ Z.of_nat (length s))%Z by (apply Z.pow_nonneg; lia). nia.
Qed.

Lemma digits_val_bound s : all_digits s = true -> (digits_val s < 10 ^ Z.of_nat (length s))%Z.
Proof.
  induction s as [| c s IH]; intros H; [cbn; lia |].
  cbn in H. apply andb_prop in H as [H1 H2].
  rewrite digits_val_cons. pose proof (is_digit_val c H1). specialize (IH H2).
  cbn [length]. rewrite Nat2Z.inj_succ, Z.pow_succ_r by lia. nia.
Qed.

Lemma all_digits_app a b : all_digits (a ++ b) = all_digits a && all_digits b.
Proof. unfold all_digits. apply forallb_app. Qed.

(** *** Printing integers *)

Lemma dec_digits_spec fuel : forall n acc,
  (0 < fuel)%nat -> (0 <= n < 10 ^ Z.of_nat fuel)%Z ->
  exists ds, dec_digits fuel n acc = ds ++ acc /\ all_digits ds = true /\ digits_val ds = n
             /\ (1 <= length ds <= fuel)%nat
             /\ (forall k, (0 < k)%nat -> (n < 10 ^ Z.of_nat k)%Z -> (length ds <= k)%nat).
Proof.
  induction fuel as [| fuel IH]; intros n acc Hf Hn; [lia |].
  cbn [dec_digits]. clear Hf.
  {
    assert (Hm : (0 <= n mod 10 <= 9)%Z) by (pose proof (Z.mod_pos_bound n 10); lia).
    destruct (n / 10 =? 0)%Z eqn:E.
    + apply Z.eqb_eq in E. exists [digit_char (n mod 10)].
      assert (n = n mod 10)%Z by (pose proof (Z.div_mod n 10); lia).
      repeat split.
      * cbn. rewrite digit_char_is_digit by lia. reflexivity.
      * unfold digits_val. cbn. rewrite digit_val_char by lia. lia.
      * cbn. lia.
      * cbn. lia.
      * intros k Hk _. cbn. lia.
    + apply Z.eqb_neq in E.
      assert (Hd : (0 <= n / 10 < 10 ^ Z.of_nat fuel)%Z).
      { rewrite Nat2Z.inj_succ, Z.pow_succ_r in Hn by lia.
        split; [apply Z.div_pos; lia | apply Z.div_lt_upper_bound; lia]. }
      assert (Hf : (0 < fuel)%nat).
      { destruct fuel; [| lia]. cbn in Hd. exfalso. lia. }
      destruct (IH (n / 10)%Z (digit_char (n mod 10) :: acc) Hf Hd)
        as (ds & E1 & E2 & E3 & E4 & E5).
      exists (ds ++ [digit_char (n mod 10)]). repeat split.
      * rewrite E1, <- app_assoc. reflexivity.
      * rewrite all_digits_app, E2. cbn. rewrite digit_char_is_digit by lia. reflexivity.
      * rewrite digits_val_app, E3. unfold digits_val at 1. cbn.
        rewrite digit_val_char by lia. pose proof (Z.div_mod n 10). lia.
      * rewrite length_app. cbn. lia.
      * rewrite length_app. cbn. lia.
      * intros k Hk Hlt. rewrite length_app. cbn.
        destruct k as [| k]; [lia |].
        assert (length ds <= k)%nat; [| lia].
        destruct k as [| k].
        { exfalso. cbn in Hlt. apply E. apply Z.div_small. lia. }
        apply E5; [lia |].
        rewrite Nat2Z.inj_succ, Z.pow_succ_r in Hlt by lia.
        apply Z.div_lt_upper_bound; lia. }
Qed.

Lemma log2_fuel n : (0 <= n)%Z -> (n < 10 ^ Z.of_nat (S (Z.to_nat (Z.log2 n))))%Z.
Proof.
  intros H. destruct (Z.eq_dec n 0%Z) as [-> | N]; [cbn; lia |].
  pose proof (Z.log2_spec n ltac:(lia)) as [_ H2].
  pose proof (Z.log2_nonneg n) as H3.
  rewrite Nat2Z.inj_succ, Z2Nat.id by lia.
  eapply Z.lt_le_trans; [exact H2 |].
  apply Z.pow_le_mono_l. lia.
Qed.

Lemma str_of_nonneg_spec n :
  (0 <= n)%Z ->
  all_digits (str_of_nonneg n) = true /\ digits_val (str_of_nonneg n) = n
  /\ (1 <= length (str_of_nonneg n))%nat
  /\ (forall k, (0 < k)%nat -> (n < 10 ^ Z.of_nat k)%Z -> (length (str_of_nonneg n) <= k)%nat).
Proof.
  intros H. unfold str_of_nonneg.
  destruct (dec_digits_spec _ n [] (Nat.lt_0_succ _) (conj H (log2_fuel n H)))
    as (ds & E1 & E2 & E3 & E4 & E5).
  rewrite E1, app_nil_r. repeat split; try assumption; lia.
Qed.


Lemma repeat_zero_digits k : all_digits (repeat "0"%char k) = true.
Proof. induction k; [reflexivity | exact IHk]. Qed.

Lemma repeat_zero_val k : digits_val (repeat "0"%char k) = 0%Z.
Proof.
  induction k as [| k IH]; [reflexivity |].
  cbn [repeat]. rewrite digits_val_cons, IH. reflexivity.
Qed.

Lemma zfill_digits w s : all_digits s = true -> all_digits (zfill w s) = true.
Proof. intros H. unfold zfill. rewrite all_digits_app, repeat_zero_digits, H. reflexivity. Qed.

Lemma zfill_val w s : digits_val (zfill w s) = digits_val s.
Proof. unfold zfill. rewrite digits_val_app, repeat_zero_val. lia. Qed.

Lemma zfill_length w s : length (zfill w s) = Nat.max w (length s).
Proof. unfold zfill. rewrite length_app, repeat_length. lia. Qed.

Lemma format_02_spec n :
  (0 <= n)%Z ->
  all_digits (format_02 n) = true /\ digits_val (format_02 n) = n
  /\ (2 <= length (format_02 n))%nat
  /\ ((n < 100)%Z -> length (format_02 n) = 2%nat).
Proof.
  intros H. unfold format_02.
  destruct (n <? 0)%Z eqn:E; [apply Z.ltb_lt in E; lia |].
  destruct (str_of_nonneg_spec n H) as (H1 & H2 & H3 & H4).
  repeat split.
  - apply zfill_digits, H1.
  - rewrite zfill_val. exact H2.
  - rewrite zfill_length. lia.
  - intros Hn. rewrite zfill_length. specialize (H4 2%nat ltac:(lia) Hn). lia.
Qed.

Lemma int_of_str_digits s :
  s <> [] -> all_digits s = true -> int_of_str s = Ok (digits_val s).
Proof. intros N H. destruct s; [contradiction |]. unfold int_of_str. rewrite H. reflexivity. Qed.

(** *** [strip] *)

Lemma lstrip_id s : (forall c, head s = Some c -> is_space c = false) -> lstrip s = s.
Proof. destruct s as [| c s]; [reflexivity |]. intros H. cbn. rewrite (H c eq_refl). reflexivity. Qed.

Lemma strip_id s : Forall (fun c => is_space c = false) s -> strip s = s.
Proof.
  intros H. unfold strip, rstrip.
  rewrite (lstrip_id s).
  - rewrite lstrip_id; [apply rev_involutive |].
    intros c Hc. apply Forall_rev in H. destruct (rev s); [discriminate |].
    cbn in Hc. inversion Hc; subst. inversion H; assumption.
  - intros c Hc. destruct s; [discriminate |]. cbn in Hc. inversion Hc; subst.
    inversion H; assumption.
Qed.

Lemma digit_not_space c : is_digit c = true -> is_space c = false.
Proof.
  unfold is_digit, is_space. intros H. apply andb_prop in H as [H1 H2].
  apply N.leb_le in H1, H2.
  repeat match goal with
         | |- context [(?a <=? ?b)%N] => destruct (N.leb_spec a b); try lia
         | |- context [(?a =? ?b)%N] => destruct (N.eqb_spec a b); try lia
         end; reflexivity.
Qed.

Lemma all_digits_Forall s : all_digits s = true <-> Forall (fun c => is_digit c = true) s.
Proof. unfold all_digits. rewrite forallb_forall, List.Forall_forall. reflexivity. Qed.

Lemma digits_no_space s : all_digits s = true -> Forall (fun c => is_space c = false) s.
Proof.
  intros H. apply all_digits_Forall in H.
  eapply List.Forall_impl; [| exact H]. intros c. apply digit_not_space.
Qed.

(** *** [float] on the text of a seconds field *)

Lemma split_at_digits w rest :
  all_digits w = true ->
  split_at "." (w ++ rest)
  = match rest with
    | [] => (w, None)
    | c :: rest' => if Ascii.eqb c "." then (w, Some rest')
                    else let '(l, r) := split_at "." rest in (w ++ l, r)
    end.
Proof.
  induction w as [| a w IH]; intros H.
  - cbn. destruct rest as [| c rest']; [reflexivity |]. cbn.
    destruct (Ascii.eqb c "."); [reflexivity |]. destruct (split_at "." rest'); reflexivity.
  - cbn in H. apply andb_prop in H as [H1 H2].
    cbn [app split_at].
    assert (E : Ascii.eqb a "." = false).
    { destruct (Ascii.eqb_spec a "."); [subst; discriminate | reflexivity]. }
    rewrite E, (IH H2). destruct rest as [| c rest']; [reflexivity |].
    destruct (Ascii.eqb c "."); [reflexivity |].
    destruct (split_at "." (c :: rest')); reflexivity.
Qed.

Lemma float_of_str_int w :
  w <> [] -> all_digits w = true ->
  float_of_str w = Ok (round_result (inject_Z (digits_val w) / inject_Z 1)).
Proof.
  intros N H. unfold float_of_str.
  rewrite <- (app_nil_r w) at 1. rewrite (split_at_digits w [] H).
  cbn [default from_option id length]. rewrite app_nil_r.
  destruct w; [contradiction |]. rewrite H. reflexivity.
Qed.

Lemma float_of_str_frac w d :
  w <> [] -> all_digits w = true -> all_digits d = true ->
  float_of_str (w ++ "."%char :: d)
  = Ok (round_result (inject_Z (digits_val (w ++ d)) / inject_Z (10 ^ Z.of_nat (length d)))).
Proof.
  intros N Hw Hd. unfold float_of_str.
  rewrite (split_at_digits w _ Hw). cbn [Ascii.eqb Bool.eqb default].
  change (Ascii.eqb "." ".") with true. cbn [default from_option id].
  destruct (w ++ d) eqn:E.
  - destruct w; [contradiction | discriminate].
  - rewrite <- E, all_digits_app, Hw, Hd. reflexivity.
Qed.

End TextFacts.

Section ReFacts.

Implicit Types (r : re) (i n : nat) (s w rest : str) (g : list str).

Lemma iter_sem_app P a b i w1 w2 rest g1 g2 :
  iter_sem P a i w1 (w2 ++ rest) g1 ->
  iter_sem P b (i + length w1) w2 rest g2 ->
  iter_sem P (a + b) i (w1 ++ w2) rest (g1 ++ g2).
Proof.
  revert i w1 g1. induction a as [| a IH]; intros i w1 g1 H1 H2.
  - destruct H1 as [-> ->]. cbn in *. rewrite Nat.add_0_r in H2. exact H2.
  - destruct H1 as (u1 & u2 & h1 & h2 & -> & -> & Hu & Hrest).
    cbn [Nat.add iter_sem].
    exists u1, (u2 ++ w2), h1, (h2 ++ g2).
    rewrite <- !app_assoc. repeat split; [exact Hu |].
    apply IH; [exact Hrest |].
    rewrite length_app, Nat.add_assoc in H2. exact H2.
Qed.

Lemma iter_sem_split P a b i w rest g :
  iter_sem P (a + b) i w rest g ->
  exists w1 w2 g1 g2,
    w = w1 ++ w2 /\ g = g1 ++ g2
    /\ iter_sem P a i w1 (w2 ++ rest) g1 /\ iter_sem P b (i + length w1) w2 rest g2.
Proof.
  revert i w g. induction a as [| a IH]; intros i w g H.
  - exists [], w, [], g. cbn. rewrite Nat.add_0_r. auto.
  - cbn [Nat.add iter_sem] in H.
    destruct H as (u1 & u2 & h1 & h2 & -> & -> & Hu & Hrest).
    destruct (IH _ _ _ Hrest) as (v1 & v2 & k1 & k2 & -> & -> & Hv1 & Hv2).
    exists (u1 ++ v1), v2, (h1 ++ k1), k2.
    rewrite <- app_assoc in Hu.
    rewrite <- !app_assoc. repeat split.
    + cbn [iter_sem]. exists u1, v1, h1, k1. auto.
    + rewrite length_app, Nat.add_assoc. exact Hv2.
Qed.

Lemma iter_exact_sound m P n : sound m P -> sound (iter_exact m n) (iter_sem P n).
Proof.
  intros Hm. induction n as [| n IH]; intros i s g i' s' H.
  - cbn in H. apply list_elem_of_singleton in H. injection H as -> -> ->.
    exists []. cbn. auto with arith.
  - cbn [iter_exact] in H.
    apply list_elem_of_bind in H as ([[g1 i1] s1] & H & H1).
    apply list_elem_of_bind in H as ([[g2 i2] s2] & H & H2).
    apply list_elem_of_singleton in H. injection H as -> -> ->.
    destruct (Hm _ _ _ _ _ H1) as (w1 & -> & -> & P1).
    destruct (IH _ _ _ _ _ H2) as (w2 & -> & -> & P2).
    exists (w1 ++ w2). rewrite <- app_assoc, length_app, Nat.add_assoc.
    repeat split. cbn [iter_sem]. exists w1, w2, g1, g2. auto.
Qed.

Lemma iter_upto_sound m P n : sound m P ->
  sound (iter_upto m n) (fun i w rest g => exists k, (k <= n)%nat /\ iter_sem P k i w rest g).
Proof.
  intros Hm. induction n as [| n IH]; intros i s g i' s' H.
  - cbn in H. apply list_elem_of_singleton in H. injection H as -> -> ->.
    exists []. repeat split; [cbn; auto with arith |]. exists 0%nat. cbn. auto.
  - cbn [iter_upto] in H. apply elem_of_app in H as [H | H].
    + apply list_elem_of_bind in H as ([[g1 i1] s1] & H & H1).
      apply list_elem_of_bind in H as ([[g2 i2] s2] & H & H2).
      apply list_elem_of_singleton in H. injection H as -> -> ->.
      destruct (Hm _ _ _ _ _ H1) as (w1 & -> & -> & P1).
      destruct (IH _ _ _ _ _ H2) as (w2 & -> & -> & k & Hk & P2).
      exists (w1 ++ w2). rewrite <- app_assoc, length_app, Nat.add_assoc.
      repeat split. exists (S k). split; [lia |].
      cbn [iter_sem]. exists w1, w2, g1, g2. auto.
    + apply list_elem_of_singleton in H. injection H as -> -> ->.
      exists []. repeat split; [cbn; auto with arith |]. exists 0%nat. cbn. split; [lia | auto].
Qed.

Lemma iter_exact_complete m P n : complete m P -> complete (iter_exact m n) (iter_sem P n).
Proof.
  intros Hm. induction n as [| n IH]; intros i w s' g H.
  - destruct H as [-> ->]. cbn. rewrite Nat.add_0_r. apply list_elem_of_singleton. reflexivity.
  - destruct H as (w1 & w2 & g1 & g2 & -> & -> & P1 & P2).
    cbn [iter_exact]. apply list_elem_of_bind.
    exists (g1, (i + length w1)%nat, w2 ++ s'). split.
    + apply list_elem_of_bind. exists (g2, (i + length w1 + length w2)%nat, s'). split.
      * apply list_elem_of_singleton. rewrite length_app, Nat.add_assoc. reflexivity.
      * apply IH. exact P2.
    + rewrite <- app_assoc. apply Hm. exact P1.
Qed.

Lemma iter_upto_complete m P n k : complete m P -> (k <= n)%nat ->
  complete (iter_upto m n) (iter_sem P k).
Proof.
  intros Hm. revert k. induction n as [| n IH]; intros k Hk i w s' g H.
  - assert (k = 0)%nat as -> by lia. destruct H as [-> ->]. cbn. rewrite Nat.add_0_r.
    apply list_elem_of_singleton. reflexivity.
  - cbn [iter_upto]. apply elem_of_app. destruct k as [| k].
    + right. destruct H as [-> ->]. cbn. rewrite Nat.add_0_r.
      apply list_elem_of_singleton. reflexivity.
    + left. destruct H as (w1 & w2 & g1 & g2 & -> & -> & P1 & P2).
      apply list_elem_of_bind.
      exists (g1, (i + length w1)%nat, w2 ++ s'). split.
      * apply list_elem_of_bind. exists (g2, (i + length w1 + length w2)%nat, s'). split.
        -- apply list_elem_of_singleton. rewrite length_app, Nat.add_assoc. reflexivity.
        -- apply (IH k); [lia | exact P2].
      * rewrite <- app_assoc. apply Hm. exact P1.
Qed.

Theorem run_sound r : sound (run r) (sem r).
Proof.
  induction r as [| | | a | r1 IH1 r2 IH2 | r IH | lo hi r IH | r IH];
    intros i s g i' s' H; cbn [run] in H.
  - destruct (Nat.eqb_spec i 0); [| inversion H].
    apply list_elem_of_singleton in H. injection H as -> -> ->.
    exists []. cbn. auto with arith.
  - destruct s as [| c [| c' s]]; [| | inversion H].
    + apply list_elem_of_singleton in H. injection H as -> -> ->.
      exists []. cbn. repeat split; auto with arith.
    + destruct (Ascii.eqb_spec c "010"); [| inversion H].
      apply list_elem_of_singleton in H. injection H as -> -> ->.
      exists []. subst c. cbn. repeat split; auto with arith.
  - destruct s as [| c s]; [inversion H |].
    destruct (is_digit c) eqn:E; [| inversion H].
    apply list_elem_of_singleton in H. injection H as -> -> ->.
    exists [c]. cbn. repeat split; [lia | eauto].
  - destruct s as [| c s]; [inversion H |].
    destruct (Ascii.eqb_spec c a); [| inversion H].
    apply list_elem_of_singleton in H. injection H as -> -> ->.
    exists [c]. subst. cbn. repeat split; lia.
  - apply list_elem_of_bind in H as ([[g1 i1] s1] & H & H1).
    apply list_elem_of_bind in H as ([[g2 i2] s2] & H & H2).
    apply list_elem_of_singleton in H. injection H as -> -> ->.
    destruct (IH1 _ _ _ _ _ H1) as (w1 & -> & -> & P1).
    destruct (IH2 _ _ _ _ _ H2) as (w2 & -> & -> & P2).
    exists (w1 ++ w2). rewrite <- app_assoc, length_app, Nat.add_assoc.
    repeat split. cbn [sem]. exists w1, w2, g1, g2. auto.
  - apply elem_of_app in H as [H | H].
    + destruct (IH _ _ _ _ _ H) as (w & -> & -> & P). exists w. cbn [sem]. auto.
    + apply list_elem_of_singleton in H. injection H as -> -> ->.
      exists []. cbn. auto with arith.
  - apply list_elem_of_bind in H as ([[g1 i1] s1] & H & H1).
    apply list_elem_of_bind in H as ([[g2 i2] s2] & H & H2).
    apply list_elem_of_singleton in H. injection H as -> -> ->.
    destruct (iter_exact_sound _ _ lo IH _ _ _ _ _ H1) as (w1 & -> & -> & P1).
    destruct (iter_upto_sound _ _ _ IH _ _ _ _ _ H2) as (w2 & E & -> & k & Hk & P2).
    subst s1. exists (w1 ++ w2). rewrite <- app_assoc, length_app, Nat.add_assoc.
    repeat split. cbn [sem]. exists (lo + k)%nat. repeat split; [lia | |].
    + destruct hi; [lia | exact I].
    + apply iter_sem_app; assumption.
  - apply list_elem_of_bind in H as ([[g1 i1] s1] & H & H1).
    apply list_elem_of_singleton in H. injection H as -> -> ->.
    destruct (IH _ _ _ _ _ H1) as (w & -> & -> & P).
    exists w. repeat split. cbn [sem]. exists g1. split; [exact P |].
    replace (i + length w - i)%nat with (length w) by lia.
    rewrite take_app_length. reflexivity.
Qed.

Lemma consuming_nonempty r i w rest g : consuming r = true -> sem r i w rest g -> w <> [].
Proof.
  revert i w rest g.
  induction r as [| | | a | r1 IH1 r2 IH2 | r IH | lo hi r IH | r IH];
    intros i w rest g C H; cbn in C; try discriminate; cbn [sem] in H.
  - destruct H as (c & -> & _). discriminate.
  - destruct H as (-> & _). discriminate.
  - destruct H as (w1 & w2 & g1 & g2 & -> & -> & P1 & P2).
    apply orb_prop in C as [C | C].
    + specialize (IH1 _ _ _ _ C P1). destruct w1; [contradiction | discriminate].
    + specialize (IH2 _ _ _ _ C P2). destruct w1, w2; try contradiction; discriminate.
  - apply andb_prop in C as [C1 C2].
    destruct H as (n & Hn & _ & P).
    destruct n as [| n]; [destruct lo; [discriminate | lia] |].
    destruct P as (w1 & w2 & g1 & g2 & -> & -> & P1 & P2).
    specialize (IH _ _ _ _ C2 P1). destruct w1; [contradiction | discriminate].
  - destruct H as (g' & P & _). eauto.
Qed.

Lemma iter_sem_length P n i w rest g :
  (forall i w rest g, P i w rest g -> w <> []) ->
  iter_sem P n i w rest g -> (n <= length w)%nat.
Proof.
  intros HP. revert i w g. induction n as [| n IH]; intros i w g H; [lia |].
  destruct H as (w1 & w2 & g1 & g2 & -> & -> & P1 & P2).
  specialize (IH _ _ _ P2). specialize (HP _ _ _ _ P1).
  rewrite length_app. destruct w1; [contradiction | cbn; lia].
Qed.

Theorem run_complete r : wf r = true -> complete (run r) (sem r).
Proof.
  induction r as [| | | a | r1 IH1 r2 IH2 | r IH | lo hi r IH | r IH];
    intros W i w s' g H; cbn [sem] in H; cbn [run]; cbn [wf] in W.
  - destruct H as (-> & -> & ->). cbn. apply list_elem_of_singleton. reflexivity.
  - destruct H as (-> & -> & [-> | ->]); cbn; rewrite Nat.add_0_r;
      apply list_elem_of_singleton; reflexivity.
  - destruct H as (c & -> & E & ->). cbn. rewrite E.
    apply list_elem_of_singleton. f_equal. f_equal. lia.
  - destruct H as (-> & ->). cbn. rewrite Ascii.eqb_refl.
    apply list_elem_of_singleton. f_equal. f_equal. lia.
  - apply andb_prop in W as [W1 W2].
    destruct H as (w1 & w2 & g1 & g2 & -> & -> & P1 & P2).
    apply list_elem_of_bind.
    exists (g1, (i + length w1)%nat, w2 ++ s'). split.
    + apply list_elem_of_bind. exists (g2, (i + length w1 + length w2)%nat, s'). split.
      * apply list_elem_of_singleton. rewrite length_app, Nat.add_assoc. reflexivity.
      * apply (IH2 W2). exact P2.
    + rewrite <- app_assoc. apply (IH1 W1). exact P1.
  - apply elem_of_app. destruct H as [H | [-> ->]].
    + left. apply (IH W). exact H.
    + right. cbn. rewrite Nat.add_0_r. apply list_elem_of_singleton. reflexivity.
  - apply andb_prop in W as [W1 W2].
    destruct H as (n & Hlo & Hhi & P).
    replace n with (lo + (n - lo))%nat in P by lia.
    apply iter_sem_split in P as (w1 & w2 & g1 & g2 & -> & -> & P1 & P2).
    apply list_elem_of_bind.
    exists (g1, (i + length w1)%nat, w2 ++ s'). split.
    + apply list_elem_of_bind. exists (g2, (i + length w1 + length w2)%nat, s'). split.
      * apply list_elem_of_singleton. rewrite length_app, Nat.add_assoc. reflexivity.
      * apply (iter_upto_complete _ _ _ (n - lo) (IH W2)); [| exact P2].
        destruct hi as [h |]; [lia |].
        rewrite length_app.
        assert (n - lo <= length w2)%nat; [| lia].
        eapply iter_sem_length; [| exact P2].
        intros. eapply consuming_nonempty; eassumption.
    + rewrite <- app_assoc. apply (iter_exact_complete _ _ lo (IH W2)). exact P1.
  - destruct H as (g' & P & ->).
    apply list_elem_of_bind. exists (g', (i + length w)%nat, s'). split.
    + apply list_elem_of_singleton.
      replace (i + length w - i)%nat with (length w) by lia.
      rewrite take_app_length. reflexivity.
    + apply (IH W). exact P.
Qed.


Lemma fullmatch_sound r s g : fullmatch r s = Some g -> sem r 0 s [] g.
Proof.
  unfold fullmatch. intros H.
  destruct (find _ (run r 0 s)) as [[[g0 i0] s0] |] eqn:E; [| discriminate].
  injection H as <-. apply find_some in E as [E1 E2]. cbn in E2.
  destruct s0; [| discriminate].
  apply list_elem_of_In in E1.
  destruct (run_sound r _ _ _ _ _ E1) as (w & -> & _ & P).
  rewrite app_nil_r. exact P.
Qed.

Lemma fullmatch_complete r s g :
  wf r = true -> sem r 0 s [] g -> exists g', fullmatch r s = Some g'.
Proof.
  intros W P. unfold fullmatch.
  destruct (find _ (run r 0 s)) as [st |] eqn:E; [eauto |].
  exfalso. pose proof (run_complete r W _ _ _ _ P) as H.
  rewrite app_nil_r in H. apply list_elem_of_In in H.
  apply (find_none _ _ E) in H. discriminate.
Qed.

Lemma iter_sem_digit n i w rest g :
  iter_sem (sem Digit) n i w rest g <-> length w = n /\ all_digits w = true /\ g = [].
Proof.
  revert i w g. induction n as [| n IH]; intros i w g; cbn [iter_sem].
  - split.
    + intros [-> ->]. auto.
    + intros (H & _ & ->). destruct w; [auto | discriminate].
  - split.
    + intros (w1 & w2 & g1 & g2 & -> & -> & (c & -> & E & ->) & P).
      apply IH in P as (<- & H & ->). repeat split.
      unfold all_digits in *. cbn. rewrite E. exact H.
    + intros (H & D & ->). destruct w as [| c w]; [discriminate |].
      cbn in D. apply andb_prop in D as [D1 D2]. injection H as H.
      exists [c], w, [], []. repeat split; [exists c; auto |].
      apply IH. auto.
Qed.

Lemma sem_digits lo hi i w rest g :
  sem (Rep lo (Some hi) Digit) i w rest g
  <-> all_digits w = true /\ (lo <= length w <= lo + (hi - lo))%nat /\ g = [].
Proof.
  cbn [sem]. split.
  - intros (n & H1 & H2 & P). apply iter_sem_digit in P as (<- & D & ->). auto.
  - intros (D & [H1 H2] & ->). exists (length w). repeat split; [exact H1 | exact H2 |].
    apply iter_sem_digit. auto.
Qed.

Lemma sem_digits_plus lo i w rest g :
  sem (Rep lo None Digit) i w rest g <-> all_digits w = true /\ (lo <= length w)%nat /\ g = [].
Proof.
  cbn [sem]. split.
  - intros (n & H1 & _ & P). apply iter_sem_digit in P as (<- & D & ->). auto.
  - intros (D & H1 & ->). exists (length w). repeat split; [exact H1 |].
    apply iter_sem_digit. auto.
Qed.

Lemma sem_seconds i w rest g :
  sem (Rep 2 (Some 2) Digit $> Opt (Chr "." $> Rep 1 (Some 3) Digit)) i w rest g
  <-> seconds_field w /\ g = [].
Proof.
  cbn [sem]. split.
  - intros (w1 & w2 & g1 & g2 & -> & -> & P1 & P2).
    apply (sem_digits 2 2) in P1 as (D1 & L1 & ->).
    destruct P2 as [(u1 & u2 & h1 & h2 & -> & -> & (-> & ->) & P3) | [-> ->]].
    + apply (sem_digits 1 3) in P3 as (D3 & L3 & ->).
      split; [| reflexivity]. apply seconds_frac; split; (assumption || cbn in *; lia).
    + rewrite app_nil_r. split; [| reflexivity]. apply seconds_whole. split; [assumption | lia].
  - intros [F ->]. destruct F as [ss [D L] | ss d [D L] [D' L']].
    + exists ss, [], [], []. rewrite app_nil_r. repeat split.
      * apply (sem_digits 2 2). auto with lia.
      * right. auto.
    + exists ss, ("."%char :: d), [], []. repeat split.
      * apply (sem_digits 2 2). auto with lia.
      * left. exists ["."%char], d, [], []. repeat split.
        apply (sem_digits 1 3). repeat split; [assumption | lia | cbn; lia].
Qed.

Lemma sem_TIME_PATTERN s g :
  sem TIME_PATTERN 0 s [] g <-> exists h m sec, g = [h; m; sec] /\ timecode_fields s h m sec.
Proof.
  unfold TIME_PATTERN. split.
  - cbn [sem].
    intros (w0 & w1 & g0 & g1 & -> & -> & (-> & -> & _) & H).
    destruct H as (h & w2 & gh & g2 & -> & -> & (gh' & Ph & ->) & H).
    destruct H as (c1 & w3 & gc1 & g3 & -> & -> & (-> & ->) & H).
    destruct H as (m & w4 & gm & g4 & -> & -> & (gm' & Pm & ->) & H).
    destruct H as (c2 & w5 & gc2 & g5 & -> & -> & (-> & ->) & H).
    destruct H as (sec & w6 & gs & g6 & -> & -> & (gs' & Ps & ->) & (-> & -> & _)).
    apply sem_digits_plus in Ph as (Dh & Lh & ->).
    apply (sem_digits 2 2) in Pm as (Dm & Lm & ->).
    apply sem_seconds in Ps as (Fs & ->).
    exists h, m, sec. cbn. rewrite app_nil_r. repeat split; try assumption; lia.
  - intros (h & m & sec & -> & -> & [Dh Lh] & [Dm Lm] & Fs).
    cbn [sem].
    exists [], (h ++ ":"%char :: m ++ ":"%char :: sec), [], [h; m; sec].
    repeat split.
    exists h, (":"%char :: m ++ ":"%char :: sec), [h], [m; sec]. repeat split.
    { exists []. split; [| reflexivity]. apply sem_digits_plus. auto. }
    exists [":"%char], (m ++ ":"%char :: sec), [], [m; sec]. repeat split.
    exists m, (":"%char :: sec), [m], [sec]. repeat split.
    { exists []. split; [| reflexivity]. apply (sem_digits 2 2). auto with lia. }
    exists [":"%char], sec, [], [sec]. repeat split.
    exists sec, [], [sec], []. rewrite app_nil_r. repeat split; [| left; reflexivity].
    exists []. split; [| reflexivity].
    apply (sem_seconds _ sec [] []). auto.
Qed.


Lemma digits_prefix_unique (a b t t' : str) :
  all_digits a = true -> all_digits b = true ->
  a ++ ":"%char :: t = b ++ ":"%char :: t' -> a = b /\ t = t'.
Proof.
  revert b. induction a as [| c a IH]; intros b Ha Hb E.
  - destruct b as [| d b]; [injection E; auto |].
    cbn in E, Hb. injection E as <- _. discriminate.
  - destruct b as [| d b].
    + cbn in E, Ha. injection E as -> _. discriminate.
    + cbn in E, Ha, Hb. injection E as -> E.
      apply andb_prop in Ha as [_ Ha]. apply andb_prop in Hb as [_ Hb].
      destruct (IH b Ha Hb E) as [-> ->]. auto.
Qed.

Lemma timecode_fields_unique s h m sec h' m' sec' :
  timecode_fields s h m sec -> timecode_fields s h' m' sec' ->
  h = h' /\ m = m' /\ sec = sec'.
Proof.
  intros (-> & [Dh _] & [Dm _] & _) (E & [Dh' _] & [Dm' _] & _).
  destruct (digits_prefix_unique _ _ _ _ Dh Dh' E) as [-> E'].
  destruct (digits_prefix_unique _ _ _ _ Dm Dm' E') as [-> ->]. auto.
Qed.

Theorem fullmatch_timecode s h m sec :
  timecode_fields s h m sec -> fullmatch TIME_PATTERN s = Some [h; m; sec].
Proof.
  intros F.
  assert (P : sem TIME_PATTERN 0 s [] [h; m; sec]) by (apply sem_TIME_PATTERN; eauto).
  destruct (fullmatch_complete TIME_PATTERN s _ eq_refl P) as [g' E].
  rewrite E. apply fullmatch_sound, sem_TIME_PATTERN in E as (h' & m' & sec' & -> & F').
  destruct (timecode_fields_unique _ _ _ _ _ _ _ F F') as (-> & -> & ->). reflexivity.
Qed.

Theorem fullmatch_timecode_inv s g :
  fullmatch TIME_PATTERN s = Some g ->
  exists h m sec, g = [h; m; sec] /\ timecode_fields s h m sec.
Proof. intros E. apply sem_TIME_PATTERN, fullmatch_sound, E. Qed.

Theorem fullmatch_timecode_none s : fullmatch TIME_PATTERN s = None <-> ~ is_timecode s.
Proof.
  split.
  - intros E (h & m & sec & F). rewrite (fullmatch_timecode _ _ _ _ F) in E. discriminate.
  - intros N. destruct (fullmatch TIME_PATTERN s) as [g |] eqn:E; [| reflexivity].
    exfalso. apply N. apply fullmatch_timecode_inv in E as (h & m & sec & _ & F).
    exists h, m, sec. exact F.
Qed.

End ReFacts.

Section DivModFacts.
Local Open Scope Q_scope.

Lemma Qltb_true a b : Qltb a b = true <-> a < b.
Proof.
  unfold Qltb. rewrite negb_true_iff. split.
  - intros H. apply Qnot_le_lt. intros C. apply Qle_bool_iff in C. congruence.
  - intros H. destruct (Qle_bool b a) eqn:E; [| reflexivity].
    apply Qle_bool_iff in E. lra.
Qed.

Lemma Qltb_false a b : Qltb a b = false <-> b <= a.
Proof.
  unfold Qltb. rewrite negb_false_iff. apply Qle_bool_iff.
Qed.

Lemma Qeq_bool_false a b : Qeq_bool a b = false <-> ~ a == b.
Proof.
  split.
  - intros H C. apply Qeq_bool_iff in C. congruence.
  - intros H. destruct (Qeq_bool a b) eqn:E; [| reflexivity].
    apply Qeq_bool_iff in E. contradiction.
Qed.

Lemma Qtrunc_nonneg q : 0 <= q -> Qtrunc q = Qfloor q.
Proof. intros H. unfold Qtrunc. apply Qltb_false in H. rewrite H. reflexivity. Qed.

Lemma Qtrunc_Z z : (0 <= z)%Z -> Qtrunc (inject_Z z) = z.
Proof.
  intros H. rewrite Qtrunc_nonneg, Qfloor_Z; [reflexivity |].
  change 0 with (inject_Z 0). rewrite <- Zle_Qle. exact H.
Qed.

Lemma Qtrunc_proper q q' : 0 <= q -> q == q' -> Qtrunc q = Qtrunc q'.
Proof.
  intros H E. rewrite !Qtrunc_nonneg by (rewrite <- ?E; exact H).
  apply Qfloor_comp, E.
Qed.

Lemma Qfloor_nonneg q : 0 <= q -> (0 <= Qfloor q)%Z.
Proof. intros H. change 0%Z with (Qfloor 0). apply Qfloor_resp_le, H. Qed.


Lemma quo_spec x y :
  0 <= x -> (0 < y)%Z ->
  (0 <= quo x y)%Z /\ inject_Z y * inject_Z (quo x y) <= x
  /\ x < inject_Z y * inject_Z (quo x y) + inject_Z y.
Proof.
  intros Hx Hy. unfold quo.
  assert (Hy' : 0 < inject_Z y) by (change 0 with (inject_Z 0); rewrite <- Zlt_Qlt; exact Hy).
  assert (Hd : 0 <= x / inject_Z y) by (apply Qle_shift_div_l; [exact Hy' | lra]).
  pose proof (Qfloor_le (x / inject_Z y)) as H1.
  pose proof (Qlt_floor (x / inject_Z y)) as H2.
  rewrite inject_Z_plus in H2. change (inject_Z 1) with 1 in H2.
  assert (E : x / inject_Z y * inject_Z y == x) by (field; lra).
  set (f := inject_Z (Qfloor (x / inject_Z y))) in *.
  split; [apply Qfloor_nonneg, Hd |].
  clearbody f. set (d := x / inject_Z y) in *. clearbody d.
  set (yy := inject_Z y) in *. clearbody yy.
  split; nra.
Qed.

Lemma fmod_nonneg x y :
  0 <= x -> (0 < y)%Z -> fmod x (inject_Z y) == x - inject_Z y * inject_Z (quo x y).
Proof.
  intros Hx Hy. unfold fmod. rewrite Qred_correct.
  assert (Hy' : 0 < inject_Z y) by (change 0 with (inject_Z 0); rewrite <- Zlt_Qlt; exact Hy).
  rewrite Qtrunc_nonneg by (apply Qle_shift_div_l; [exact Hy' | lra]).
  reflexivity.
Qed.

Lemma fmod_bounds x y :
  0 <= x -> (0 < y)%Z ->
  0 <= fmod x (inject_Z y) /\ fmod x (inject_Z y) <= x /\ fmod x (inject_Z y) < inject_Z y.
Proof.
  intros Hx Hy. rewrite (fmod_nonneg x y Hx Hy).
  destruct (quo_spec x y Hx Hy) as (Hq & H1 & H2).
  assert (0 <= inject_Z (y * quo x y))
    by (change 0 with (inject_Z 0); rewrite <- Zle_Qle; nia).
  rewrite inject_Z_mult in H. repeat split; lra.
Qed.

Lemma rem_nonneg x y :
  0 <= x -> (0 < y)%Z -> rem x (inject_Z y) == x - inject_Z y * inject_Z (quo x y).
Proof.
  intros Hx Hy. pose proof (fmod_nonneg x y Hx Hy) as E.
  destruct (quo_spec x y Hx Hy) as (_ & H1 & H2).
  unfold rem. destruct (Qeq_bool (fmod x (inject_Z y)) 0) eqn:E0.
  - apply Qeq_bool_iff in E0. rewrite <- E, E0. reflexivity.
  - assert (S1 : Qltb (inject_Z y) 0 = false).
    { apply Qltb_false. change 0 with (inject_Z 0). rewrite <- Zle_Qle. lia. }
    assert (S2 : Qltb (fmod x (inject_Z y)) 0 = false) by (apply Qltb_false; lra).
    rewrite S1, S2. cbn. exact E.
Qed.

Lemma rem_bounds x y :
  0 <= x -> (0 < y)%Z -> 0 <= rem x (inject_Z y) /\ rem x (inject_Z y) < inject_Z y.
Proof.
  intros Hx Hy. rewrite (rem_nonneg x y Hx Hy).
  destruct (quo_spec x y Hx Hy) as (_ & H1 & H2). split; lra.
Qed.

Lemma floordiv_exact x y :
  0 <= x -> (0 < y)%Z -> (y * quo x y <= 2 ^ 53)%Z ->
  floordiv x (inject_Z y) == inject_Z (quo x y).
Proof.
  intros Hx Hy Hb.
  pose proof (fmod_nonneg x y Hx Hy) as E.
  destruct (quo_spec x y Hx Hy) as (Hq & H1 & H2).
  assert (Hy' : 0 < inject_Z y) by (change 0 with (inject_Z 0); rewrite <- Zlt_Qlt; exact Hy).
  assert (Hqb : (0 <= quo x y <= 2 ^ 53)%Z).
  { split; [lia |]. apply Z.le_trans with (y * quo x y)%Z; [nia | exact Hb]. }
  assert (E1 : x - fmod x (inject_Z y) == inject_Z (y * quo x y)).
  { rewrite E, inject_Z_mult. ring. }
  assert (R1 : rnd (x - fmod x (inject_Z y)) == inject_Z (y * quo x y)).
  { assert (P0 : 0 <= x - fmod x (inject_Z y)).
    { rewrite E. rewrite <- inject_Z_mult.
      assert (0 <= inject_Z (y * quo x y))
        by (change 0 with (inject_Z 0); rewrite <- Zle_Qle; nia).
      lra. }
    rewrite (rnd_proper _ _ P0 E1). apply rnd_Z. split; [nia | exact Hb]. }
  assert (E2 : rnd (x - fmod x (inject_Z y)) / inject_Z y == inject_Z (quo x y)).
  { rewrite R1, inject_Z_mult. field. lra. }
  assert (Hq' : 0 <= inject_Z (quo x y))
    by (change 0 with (inject_Z 0); rewrite <- Zle_Qle; lia).
  assert (R2 : rnd (rnd (x - fmod x (inject_Z y)) / inject_Z y) == inject_Z (quo x y)).
  { rewrite (rnd_proper _ (inject_Z (quo x y))); [apply rnd_Z; exact Hqb | | exact E2].
    rewrite E2. exact Hq'. }
  unfold floordiv.
  set (dv0 := rnd (rnd (x - fmod x (inject_Z y)) / inject_Z y)) in *.
  assert (S1 : Qltb (inject_Z y) 0 = false) by (apply Qltb_false; lra).
  assert (S2 : Qltb (fmod x (inject_Z y)) 0 = false) by (apply Qltb_false; lra).
  rewrite S1, S2. cbn [Bool.eqb negb].
  assert (D : (if Qeq_bool (fmod x (inject_Z y)) 0 then dv0 else dv0) = dv0)
    by (destruct (Qeq_bool _ 0); reflexivity).
  rewrite D. clear D.
  destruct (Qeq_bool dv0 0) eqn:Z0.
  - apply Qeq_bool_iff in Z0. rewrite <- R2, Z0. reflexivity.
  - rewrite (Qfloor_comp _ _ R2), Qfloor_Z.
    assert (S3 : Qltb (1 # 2) (dv0 - inject_Z (quo x y)) = false) by (apply Qltb_false; lra).
    rewrite S3. reflexivity.
Qed.

Lemma floordiv_nonneg x y : 0 <= x -> (0 < y)%Z -> 0 <= floordiv x (inject_Z y).
Proof.
  intros Hx Hy.
  pose proof (fmod_nonneg x y Hx Hy) as E.
  destruct (quo_spec x y Hx Hy) as (Hq & H1 & H2).
  assert (Hy' : 0 < inject_Z y) by (change 0 with (inject_Z 0); rewrite <- Zlt_Qlt; exact Hy).
  unfold floordiv.
  set (dv0 := rnd (rnd (x - fmod x (inject_Z y)) / inject_Z y)).
  destruct (fmod_bounds x y Hx Hy) as (B1 & B2 & B3).
  assert (H0 : 0 <= dv0).
  { apply rnd_nonneg. apply Qle_shift_div_l; [exact Hy' |].
    rewrite Qmult_0_l. apply rnd_nonneg. lra. }
  assert (S1 : Qltb (inject_Z y) 0 = false) by (apply Qltb_false; lra).
  assert (S2 : Qltb (fmod x (inject_Z y)) 0 = false) by (apply Qltb_false; lra).
  rewrite S1, S2. cbn [Bool.eqb negb].
  assert (D : (if Qeq_bool (fmod x (inject_Z y)) 0 then dv0 else dv0) = dv0)
    by (destruct (Qeq_bool _ 0); reflexivity).
  rewrite D. clear D.
  destruct (Qeq_bool dv0 0); [lra |].
  assert (F0 : 0 <= inject_Z (Qfloor dv0)).
  { change 0 with (inject_Z 0). rewrite <- Zle_Qle. apply Qfloor_nonneg, H0. }
  destruct (Qltb (1 # 2) (dv0 - inject_Z (Qfloor dv0))); [| exact F0].
  apply rnd_nonneg. lra.
Qed.


Lemma Qfloor_unique q z : inject_Z z <= q -> q < inject_Z z + 1 -> Qfloor q = z.
Proof.
  intros H1 H2.
  pose proof (Qfloor_le q) as F1. pose proof (Qlt_floor q) as F2.
  rewrite inject_Z_plus in F2. change (inject_Z 1) with 1 in F2.
  assert (A : inject_Z (Qfloor q) < inject_Z z + 1) by lra.
  assert (B : inject_Z z < inject_Z (Qfloor q) + 1) by lra.
  change 1 with (inject_Z 1) in A, B. rewrite <- inject_Z_plus in A, B.
  rewrite <- Zlt_Qlt in A, B. lia.
Qed.

Lemma quo_unique x y z :
  (0 < y)%Z -> inject_Z y * inject_Z z <= x -> x < inject_Z y * inject_Z z + inject_Z y ->
  quo x y = z.
Proof.
  intros Hy H1 H2. unfold quo.
  assert (Hy' : 0 < inject_Z y) by (change 0 with (inject_Z 0); rewrite <- Zlt_Qlt; exact Hy).
  apply Qfloor_unique.
  - apply Qle_shift_div_l; [exact Hy' | lra].
  - apply Qlt_shift_div_r; [exact Hy' | lra].
Qed.

Lemma quo_proper x x' y : x == x' -> quo x y = quo x' y.
Proof. intros E. unfold quo. apply Qfloor_comp. rewrite E. reflexivity. Qed.

(** **** The three components computed by [seconds_to_timecode] *)


Lemma hours_of_nonneg x : 0 <= x -> (0 <= hours_of x)%Z.
Proof.
  intros Hx. unfold hours_of. rewrite Qtrunc_nonneg.
  - apply Qfloor_nonneg. apply (floordiv_nonneg x 3600 Hx). lia.
  - apply (floordiv_nonneg x 3600 Hx). lia.
Qed.

Lemma hours_of_exact x : 0 <= x -> x <= inject_Z (2 ^ 53) -> hours_of x = quo x 3600.
Proof.
  intros Hx Hb. unfold hours_of.
  destruct (quo_spec x 3600 Hx ltac:(lia)) as (Hq & H1 & H2).
  assert (B : (3600 * quo x 3600 <= 2 ^ 53)%Z).
  { rewrite <- inject_Z_mult in H1. rewrite Zle_Qle. lra. }
  rewrite (Qtrunc_proper _ (inject_Z (quo x 3600))).
  - apply Qtrunc_Z, Hq.
  - apply (floordiv_nonneg x 3600 Hx). lia.
  - apply (floordiv_exact x 3600 Hx); [lia | exact B].
Qed.

Lemma minutes_of_exact x :
  0 <= x -> minutes_of x = quo (rem x 3600) 60 /\ (0 <= minutes_of x <= 59)%Z.
Proof.
  intros Hx. unfold minutes_of.
  destruct (rem_bounds x 3600 Hx ltac:(lia)) as [R1 R2].
  change (inject_Z 3600) with 3600 in *.
  destruct (quo_spec (rem x 3600) 60 R1 ltac:(lia)) as (Hq & H1 & H2).
  change (inject_Z 60) with 60 in *.
  assert (B : (quo (rem x 3600) 60 <= 59)%Z).
  { assert (A : inject_Z (quo (rem x 3600) 60) < inject_Z 60) by (change (inject_Z 60) with 60; lra).
    rewrite <- Zlt_Qlt in A. lia. }
  assert (E : Qtrunc (floordiv (rem x 3600) 60) = quo (rem x 3600) 60).
  { rewrite (Qtrunc_proper _ (inject_Z (quo (rem x 3600) 60))).
    - apply Qtrunc_Z, Hq.
    - apply (floordiv_nonneg _ 60 R1). lia.
    - apply (floordiv_exact _ 60 R1); [lia |]. lia. }
  rewrite E. split; [reflexivity | lia].
Qed.

Lemma seconds_of_bounds x : 0 <= x -> 0 <= seconds_of x /\ seconds_of x < 60.
Proof. intros Hx. apply (rem_bounds x 60 Hx). lia. Qed.

(** Hours, minutes and seconds add up to the argument. *)
Lemma components_sum x :
  0 <= x -> x <= inject_Z (2 ^ 53) ->
  x == inject_Z (hours_of x * 3600 + minutes_of x * 60) + seconds_of x.
Proof.
  intros Hx Hb.
  rewrite (hours_of_exact x Hx Hb).
  destruct (minutes_of_exact x Hx) as [-> _].
  unfold seconds_of.
  pose proof (rem_nonneg x 3600 Hx ltac:(lia)) as E1.
  pose proof (rem_nonneg x 60 Hx ltac:(lia)) as E2.
  change (inject_Z 3600) with 3600 in *. change (inject_Z 60) with 60 in *.
  destruct (quo_spec x 3600 Hx ltac:(lia)) as (Hq & H1 & H2).
  change (inject_Z 3600) with 3600 in *.
  destruct (rem_bounds x 3600 Hx ltac:(lia)) as [R1 R2].
  change (inject_Z 3600) with 3600 in *.
  destruct (quo_spec (rem x 3600) 60 R1 ltac:(lia)) as (Hq' & H1' & H2').
  change (inject_Z 60) with 60 in *.
  set (h := quo x 3600) in *. set (m := quo (rem x 3600) 60) in *.
  assert (Q60 : quo x 60 = (60 * h + m)%Z).
  { apply quo_unique; [lia | |]; change (inject_Z 60) with 60;
      rewrite inject_Z_plus, inject_Z_mult; change (inject_Z 60) with 60; lra. }
  rewrite E2, Q60. rewrite !inject_Z_plus, !inject_Z_mult.
  change (inject_Z 60) with 60. change (inject_Z 3600) with 3600. ring.
Qed.

End DivModFacts.

Section FormatFacts.
Local Open Scope Q_scope.

Lemma millis_bounds s : 0 <= s -> s < 60 -> (0 <= millis s <= 60000)%Z.
Proof.
  intros H0 H1. unfold millis. split.
  - apply rhe_nonneg. lra.
  - apply rhe_le_Z. change (inject_Z 60000) with 60000. lra.
Qed.

Lemma zfill_app w n (a b : str) :
  length b = n -> zfill (w + n) (a ++ b) = zfill w a ++ b.
Proof.
  intros H. unfold zfill. rewrite length_app, H, <- app_assoc.
  replace (w + n - (length a + n))%nat with (w - length a)%nat by lia. reflexivity.
Qed.

Lemma format_06_3f_shape s :
  0 <= s -> s < 60 ->
  format_06_3f s
  = format_02 (millis s / 1000) ++ "."%char :: zfill 3 (str_of_nonneg (millis s mod 1000)).
Proof.
  intros H0 H1. unfold format_06_3f.
  assert (E : Qabs s * 1000 == s * 1000) by (rewrite Qabs_pos by exact H0; reflexivity).
  rewrite (rhe_proper _ _ E). fold (millis s).
  pose proof (millis_bounds s H0 H1) as [K0 K1].
  set (k := millis s) in *. clearbody k.
  assert (S0 : Qltb s 0 = false) by (apply Qltb_false; exact H0).
  rewrite S0.
  assert (Hw : (0 <= k / 1000 < 100)%Z).
  { split; [apply Z.div_pos; lia | apply Z.div_lt_upper_bound; lia]. }
  assert (Hf : (0 <= k mod 1000 < 1000)%Z) by (apply Z.mod_pos_bound; lia).
  destruct (str_of_nonneg_spec (k / 1000) ltac:(lia)) as (_ & _ & W1 & W2).
  specialize (W2 2%nat ltac:(lia) ltac:(cbn; lia)).
  destruct (str_of_nonneg_spec (k mod 1000) ltac:(lia)) as (_ & _ & F1 & F2).
  specialize (F2 3%nat ltac:(lia) ltac:(cbn; lia)).
  unfold format_02.
  destruct (k / 1000 <? 0)%Z eqn:N; [apply Z.ltb_lt in N; lia |].
  apply (zfill_app 2 4). cbn [length]. rewrite (zfill_length 3). lia.
Qed.

Lemma fraction_digits k :
  (0 <= k < 1000)%Z ->
  let d := zfill 3 (str_of_nonneg k) in
  all_digits d = true /\ length d = 3%nat /\ digits_val d = k.
Proof.
  intros H d. subst d.
  destruct (str_of_nonneg_spec k ltac:(lia)) as (D & V & L1 & L2).
  specialize (L2 3%nat ltac:(lia) ltac:(cbn; lia)).
  repeat split.
  - apply zfill_digits, D.
  - rewrite zfill_length. lia.
  - rewrite zfill_val. exact V.
Qed.

Lemma has_fraction_false x :
  0 <= x -> has_fraction x = false -> seconds_of x == inject_Z (Qfloor (seconds_of x)).
Proof.
  intros Hx H. unfold has_fraction in H. apply negb_false_iff, Qeq_bool_iff in H.
  destruct (seconds_of_bounds x Hx) as [S0 S1].
  rewrite (rem_nonneg _ 1 S0 ltac:(lia)) in H. unfold quo in H.
  change (inject_Z 1) with 1 in H.
  assert (E : seconds_of x / 1 == seconds_of x) by (field).
  rewrite (Qfloor_comp _ _ E) in H. lra.
Qed.

(** What [seconds_to_timecode] returns on a non-negative finite float. *)
Lemma seconds_to_timecode_nonneg x :
  0 <= x ->
  seconds_to_timecode (Fin x)
  = Ok (format_02 (hours_of x) ++ ":"%char :: format_02 (minutes_of x) ++ ":"%char ::
        (if has_fraction x
         then format_02 (millis (seconds_of x) / 1000)
              ++ "."%char :: zfill 3 (str_of_nonneg (millis (seconds_of x) mod 1000))
         else format_02 (Qfloor (seconds_of x)))).
Proof.
  intros Hx. destruct (seconds_of_bounds x Hx) as [S0 S1].
  unfold seconds_to_timecode, has_fraction, hours_of, minutes_of, seconds_of in *.
  destruct (negb (Qeq_bool (rem (rem x 60) 1) 0)).
  - rewrite (format_06_3f_shape _ S0 S1). reflexivity.
  - rewrite (Qtrunc_nonneg _ S0). reflexivity.
Qed.

End FormatFacts.

Section ParseFacts.
Local Open Scope Q_scope.

Lemma bind_Ok {A B} (a : A) (k : A -> result B) : (x ← Ok a; k x) = k a.
Proof. reflexivity. Qed.

Lemma round_result_fin q z :
  0 <= q -> (0 <= z <= 2 ^ 53)%Z -> q <= inject_Z z -> round_result q = Fin (rnd q).
Proof.
  intros H0 Hz H. unfold round_result. rewrite (no_overflow q z H0 Hz H). reflexivity.
Qed.

Lemma pow10_pos n : 0 < inject_Z (10 ^ Z.of_nat n).
Proof.
  change 0 with (inject_Z 0). rewrite <- Zlt_Qlt. apply Z.pow_pos_nonneg; lia.
Qed.

Lemma seconds_value_whole ss :
  all_digits ss = true -> seconds_value ss = inject_Z (digits_val ss) / inject_Z 1.
Proof.
  intros D. unfold seconds_value.
  rewrite <- (app_nil_r ss) at 1. rewrite (split_at_digits ss [] D).
  cbn [default from_option id length]. rewrite app_nil_r. reflexivity.
Qed.

Lemma seconds_value_frac ss d :
  all_digits ss = true ->
  seconds_value (ss ++ "."%char :: d)
  = inject_Z (digits_val (ss ++ d)) / inject_Z (10 ^ Z.of_nat (length d)).
Proof.
  intros D. unfold seconds_value. rewrite (split_at_digits ss _ D).
  change (Ascii.eqb "." ".") with true. reflexivity.
Qed.

Lemma seconds_value_bounds sec :
  seconds_field sec ->
  float_of_str sec = Ok (round_result (seconds_value sec))
  /\ 0 <= seconds_value sec /\ seconds_value sec <= 100.
Proof.
  intros F. destruct F as [ss [D L] | ss d [D L] [D' L']].
  - rewrite (seconds_value_whole ss D).
    assert (N : ss <> []) by (destruct ss; [cbn in L; lia | discriminate]).
    rewrite (float_of_str_int ss N D). split; [reflexivity |].
    pose proof (digits_val_nonneg _ D) as V0. pose proof (digits_val_bound _ D) as V1.
    replace (length ss) with 2%nat in V1 by lia.
    change (10 ^ Z.of_nat 2)%Z with 100%Z in V1.
    assert (E : inject_Z (digits_val ss) / inject_Z 1 == inject_Z (digits_val ss))
      by (change (inject_Z 1) with 1; field).
    rewrite E. change 0 with (inject_Z 0). change 100 with (inject_Z 100).
    rewrite <- !Zle_Qle. lia.
  - rewrite (seconds_value_frac ss d D).
    assert (N : ss <> []) by (destruct ss; [cbn in L; lia | discriminate]).
    rewrite (float_of_str_frac ss d N D D'). split; [reflexivity |].
    assert (Dd : all_digits (ss ++ d) = true) by (rewrite all_digits_app, D, D'; reflexivity).
    pose proof (digits_val_nonneg _ Dd) as V0. pose proof (digits_val_bound _ Dd) as V1.
    rewrite length_app in V1. replace (length ss) with 2%nat in V1 by lia.
    pose proof (pow10_pos (length d)) as P.
    split.
    + apply Qle_shift_div_l; [exact P |]. rewrite Qmult_0_l.
      change 0 with (inject_Z 0). rewrite <- Zle_Qle. exact V0.
    + apply Qle_shift_div_r; [exact P |].
      change 100 with (inject_Z 100). rewrite <- inject_Z_mult, <- Zle_Qle.
      rewrite Nat2Z.inj_add, Z.pow_add_r in V1 by lia.
      change (10 ^ Z.of_nat 2)%Z with 100%Z in V1. lia.
Qed.

(** [to_seconds] on a text whose stripped form has the three fields. *)
Lemma to_seconds_fields t h m sec :
  timecode_fields (strip t) h m sec ->
  to_seconds t
  = (n ← of_int (digits_val h * 3600 + digits_val m * 60);
     Ok (fadd n (round_result (seconds_value sec)))).
Proof.
  intros F. unfold to_seconds. rewrite (fullmatch_timecode _ _ _ _ F).
  destruct F as (_ & [Dh Lh] & [Dm Lm] & Fs).
  cbn [nth].
  rewrite (int_of_str_digits h)
    by first [assumption | destruct h; [cbn in Lh; lia | discriminate]].
  rewrite bind_Ok.
  rewrite (int_of_str_digits m)
    by first [assumption | destruct m; [cbn in Lm; lia | discriminate]].
  rewrite bind_Ok.
  destruct (seconds_value_bounds sec Fs) as (-> & _). rewrite bind_Ok. reflexivity.
Qed.

End ParseFacts.

Section RoundTrip.
Local Open Scope Q_scope.

Lemma pow2_m53 : pow2 (-53) == 1 # 9007199254740992.
Proof. reflexivity. Qed.

Lemma tiny_le : pow2 (-1022) <= 1 # 1000000.
Proof.
  apply Qle_trans with (pow2 (-20)); [apply pow2_le; lia |].
  apply Qle_bool_iff. vm_compute. reflexivity.
Qed.

(** Relative error of one rounding, for the magnitudes the codec meets. *)
Lemma rnd_close q :
  q == 0 \/ 1 # 1000000 <= q ->
  q - q * (1 # 9007199254740992) <= rnd q /\ rnd q <= q + q * (1 # 9007199254740992).
Proof.
  intros [E | H].
  - rewrite (rnd_zero q E), E. split; lra.
  - pose proof tiny_le as T.
    destruct (rnd_rel_error q ltac:(lra)) as [H1 H2].
    rewrite pow2_m53 in H1, H2. split; lra.
Qed.

Lemma is_space_colon : is_space ":" = false. Proof. reflexivity. Qed.
Lemma is_space_dot : is_space "." = false. Proof. reflexivity. Qed.

(** The fields of the text [seconds_to_timecode] builds. *)
Lemma formatted_fields x :
  0 <= x ->
  exists s sec,
    seconds_to_timecode (Fin x) = Ok s
    /\ strip s = s
    /\ timecode_fields s (format_02 (hours_of x)) (format_02 (minutes_of x)) sec
    /\ digits_val (format_02 (hours_of x)) = hours_of x
    /\ digits_val (format_02 (minutes_of x)) = minutes_of x
    /\ (if has_fraction x
        then seconds_value sec == inject_Z (millis (seconds_of x)) / 1000
        else seconds_value sec == seconds_of x).
Proof.
  intros Hx.
  pose proof (hours_of_nonneg x Hx) as Hh.
  destruct (minutes_of_exact x Hx) as [_ Hm].
  destruct (seconds_of_bounds x Hx) as [S0 S1].
  destruct (format_02_spec (hours_of x) Hh) as (Dh & Vh & Lh & _).
  destruct (format_02_spec (minutes_of x) ltac:(lia)) as (Dm & Vm & _ & Lm).
  specialize (Lm ltac:(lia)).
  rewrite (seconds_to_timecode_nonneg x Hx).
  set (hs := format_02 (hours_of x)) in *. set (ms := format_02 (minutes_of x)) in *.
  assert (Main : forall sec, seconds_field sec -> Forall (fun c => is_space c = false) sec ->
            strip (hs ++ ":"%char :: ms ++ ":"%char :: sec) = hs ++ ":"%char :: ms ++ ":"%char :: sec
            /\ timecode_fields (hs ++ ":"%char :: ms ++ ":"%char :: sec) hs ms sec).
  { intros sec Fs Ns. split.
    - apply strip_id. apply Forall_app. split; [apply digits_no_space, Dh |].
      constructor; [reflexivity |]. apply Forall_app. split; [apply digits_no_space, Dm |].
      constructor; [reflexivity | exact Ns].
    - repeat split; try assumption; lia. }
  destruct (has_fraction x) eqn:Fr.
  - pose proof (millis_bounds _ S0 S1) as [K0 K1].
    set (k := millis (seconds_of x)) in *.
    assert (Hw : (0 <= k / 1000 < 100)%Z).
    { split; [apply Z.div_pos; lia | apply Z.div_lt_upper_bound; lia]. }
    assert (Hf : (0 <= k mod 1000 < 1000)%Z) by (apply Z.mod_pos_bound; lia).
    destruct (format_02_spec (k / 1000) ltac:(lia)) as (Dw & Vw & _ & Lw).
    specialize (Lw ltac:(lia)).
    destruct (fraction_digits (k mod 1000) Hf) as (Dd & Ld & Vd).
    set (W := format_02 (k / 1000)) in *.
    set (D := zfill 3 (str_of_nonneg (k mod 1000))) in *.
    assert (Fs : seconds_field (W ++ "."%char :: D)).
    { apply seconds_frac; split; try assumption; lia. }
    assert (Ns : Forall (fun c => is_space c = false) (W ++ "."%char :: D)).
    { apply Forall_app. split; [apply digits_no_space, Dw |].
      constructor; [reflexivity | apply digits_no_space, Dd]. }
    destruct (Main _ Fs Ns) as [M1 M2].
    exists (hs ++ ":"%char :: ms ++ ":"%char :: W ++ "."%char :: D), (W ++ "."%char :: D).
    split; [reflexivity |]. split; [exact M1 |]. split; [exact M2 |].
    split; [exact Vh |]. split; [exact Vm |].
    rewrite (seconds_value_frac W D Dw), digits_val_app, Vw, Vd, Ld.
    change (10 ^ Z.of_nat 3)%Z with 1000%Z.
    replace (k / 1000 * 1000 + k mod 1000)%Z with k
      by (pose proof (Z.div_mod k 1000); lia).
    reflexivity.
  - pose proof (has_fraction_false x Hx Fr) as Ei.
    assert (Hi : (0 <= Qfloor (seconds_of x) <= 59)%Z).
    { split; [apply Qfloor_nonneg, S0 |].
      assert (A : inject_Z (Qfloor (seconds_of x)) < inject_Z 60)
        by (change (inject_Z 60) with 60; lra).
      rewrite <- Zlt_Qlt in A. lia. }
    destruct (format_02_spec (Qfloor (seconds_of x)) ltac:(lia)) as (Di & Vi & _ & Li).
    specialize (Li ltac:(lia)).
    set (I := format_02 (Qfloor (seconds_of x))) in *.
    assert (Fs : seconds_field I) by (apply seconds_whole; split; [assumption | lia]).
    destruct (Main _ Fs (digits_no_space _ Di)) as [M1 M2].
    exists (hs ++ ":"%char :: ms ++ ":"%char :: I), I.
    split; [reflexivity |]. split; [exact M1 |]. split; [exact M2 |].
    split; [exact Vh |]. split; [exact Vm |].
    rewrite (seconds_value_whole I Di), Vi. rewrite Ei at 2.
    change (inject_Z 1) with 1. field.
Qed.


Lemma formatted_seconds_close x sec :
  0 <= x ->
  (if has_fraction x
   then seconds_value sec == inject_Z (millis (seconds_of x)) / 1000
   else seconds_value sec == seconds_of x) ->
  seconds_of x - (1 # 2000) <= seconds_value sec
  /\ seconds_value sec <= seconds_of x + (1 # 2000)
  /\ (seconds_value sec == 0 \/ 1 # 1000 <= seconds_value sec).
Proof.
  intros Hx H.
  destruct (seconds_of_bounds x Hx) as [S0 S1].
  destruct (has_fraction x) eqn:Fr.
  - pose proof (millis_bounds _ S0 S1) as [K0 K1].
    destruct (rhe_bounds (seconds_of x * 1000)) as [B1 B2]. fold (millis (seconds_of x)) in B1, B2.
    set (k := millis (seconds_of x)) in *.
    assert (E : seconds_value sec * 1000 == inject_Z k) by (rewrite H; field).
    repeat split; try lra.
    destruct (Z.eq_dec k 0%Z) as [K | K].
    + left. rewrite K in E. change (inject_Z 0) with 0 in E. lra.
    + right. assert (1 <= inject_Z k) by (change 1 with (inject_Z 1); rewrite <- Zle_Qle; lia).
      lra.
  - pose proof (has_fraction_false x Hx Fr) as Ei.
    repeat split; try lra.
    set (i := Qfloor (seconds_of x)) in *.
    assert (Hi : (0 <= i)%Z) by (apply Qfloor_nonneg, S0).
    destruct (Z.eq_dec i 0%Z) as [K | K].
    + left. rewrite H, Ei, K. reflexivity.
    + right. assert (1 <= inject_Z i) by (change 1 with (inject_Z 1); rewrite <- Zle_Qle; lia).
      lra.
Qed.

(** Formatting a value below [2^40] seconds and parsing the text again
    gives the value back to within a millisecond. *)
Lemma format_parse x :
  0 <= x -> x <= inject_Z (2 ^ 40) ->
  exists s y,
    seconds_to_timecode (Fin x) = Ok s /\ to_seconds s = Ok (Fin y)
    /\ x - (1 # 1000) < y /\ y < x + (1 # 1000).
Proof.
  intros Hx Hb.
  destruct (formatted_fields x Hx) as (s & sec & E1 & Es & F & Vh & Vm & Vs).
  destruct (formatted_seconds_close x sec Hx Vs) as (C1 & C2 & C3).
  destruct (seconds_of_bounds x Hx) as [S0 S1].
  pose proof (hours_of_nonneg x Hx) as Hh.
  destruct (minutes_of_exact x Hx) as [_ Hm].
  assert (Hb53 : x <= inject_Z (2 ^ 53)).
  { eapply Qle_trans; [exact Hb |]. rewrite <- Zle_Qle. lia. }
  pose proof (components_sum x Hx Hb53) as Sum.
  set (N := (hours_of x * 3600 + minutes_of x * 60)%Z) in *.
  change (inject_Z (2 ^ 40)) with 1099511627776 in Hb.
  assert (HNq : 0 <= inject_Z N /\ inject_Z N <= 1099511627776).
  { split; [| lra]. change 0 with (inject_Z 0). rewrite <- Zle_Qle. lia. }
  assert (HN : (0 <= N <= 1099511627776)%Z).
  { destruct HNq as [Q1 Q2]. change 1099511627776 with (inject_Z 1099511627776) in Q2.
    rewrite <- Zle_Qle in Q2. lia. }
  destruct F as (Fe & Fh & Fm & Fs).
  destruct (seconds_value_bounds sec Fs) as (_ & V0 & V1).
  set (v := seconds_value sec) in *.
  assert (Tf : timecode_fields (strip s) (format_02 (hours_of x)) (format_02 (minutes_of x)) sec).
  { rewrite Es. repeat split; solve [assumption | apply Fh | apply Fm]. }
  exists s, (rnd (rnd (inject_Z N) + rnd v)).
  split; [exact E1 |].
  assert (RN : rnd (inject_Z N) == inject_Z N) by (apply rnd_Z; lia).
  assert (C3' : v == 0 \/ 1 # 1000000 <= v) by (destruct C3; [left | right]; lra).
  destruct (rnd_close v C3') as [A1 A2].
  split.
  - rewrite (to_seconds_fields s _ _ _ Tf), Vh, Vm. fold N.
    unfold of_int. rewrite (no_overflow (inject_Z N) N) by (lra || lia).
    rewrite bind_Ok. fold v. unfold fadd.
    rewrite (round_result_fin v 100)
      by first [lra | lia | change (inject_Z 100) with 100; lra].
    rewrite (round_result_fin _ (N + 101)); [reflexivity | | lia |].
    + apply Qplus_le_compat with (x := 0) (z := 0); apply rnd_nonneg; lra.
    + rewrite inject_Z_plus. change (inject_Z 101) with 101. lra.
  - set (a := rnd v) in *. clearbody a.
    set (z := rnd (inject_Z N) + a).
    assert (Z3 : z == 0 \/ 1 # 1000000 <= z).
    { unfold z. destruct C3 as [C3 | C3].
      - destruct (Z.eq_dec N 0%Z) as [K | K].
        + left. rewrite RN, K. change (inject_Z 0) with 0. lra.
        + right. assert (1 <= inject_Z N)
            by (change 1 with (inject_Z 1); rewrite <- Zle_Qle; lia). lra.
      - right. lra. }
    destruct (rnd_close z Z3) as [Y1 Y2].
    unfold z in Y1, Y2. fold z in Y1, Y2.
    assert (Zv : z == inject_Z N + a) by (unfold z; rewrite RN; reflexivity).
    set (y := rnd z) in *. clearbody y. clearbody z.
    set (sx := seconds_of x) in *. clearbody sx. clearbody v.
    set (n := inject_Z N) in *. clearbody n.
    split; lra.
Qed.

End RoundTrip.

Section Values.
Local Open Scope Q_scope.

Lemma Qfloor_sub_Z q z : Qfloor (q - inject_Z z) = (Qfloor q - z)%Z.
Proof.
  pose proof (Qfloor_le q) as F1. pose proof (Qlt_floor q) as F2.
  rewrite inject_Z_plus in F2. change (inject_Z 1) with 1 in F2.
  apply Qfloor_unique; unfold Z.sub; rewrite inject_Z_plus, inject_Z_opp; lra.
Qed.

Lemma quo_60 x : 0 <= x -> quo x 60 = (60 * quo x 3600 + minutes_of x)%Z.
Proof.
  intros Hx.
  destruct (minutes_of_exact x Hx) as [-> _].
  pose proof (rem_nonneg x 3600 Hx ltac:(lia)) as E1.
  change (inject_Z 3600) with 3600 in *.
  destruct (rem_bounds x 3600 Hx ltac:(lia)) as [R1 R2].
  change (inject_Z 3600) with 3600 in *.
  destruct (quo_spec (rem x 3600) 60 R1 ltac:(lia)) as (Hq' & H1' & H2').
  change (inject_Z 60) with 60 in *.
  apply quo_unique; [lia | |]; change (inject_Z 60) with 60;
    rewrite inject_Z_plus, inject_Z_mult; change (inject_Z 60) with 60; lra.
Qed.

Lemma minutes_of_value x : 0 <= x -> minutes_of x = (Qfloor (x / 60) mod 60)%Z.
Proof.
  intros Hx. destruct (minutes_of_exact x Hx) as [_ Hm].
  change (Qfloor (x / 60)) with (quo x 60). rewrite (quo_60 x Hx).
  rewrite Z.add_comm, Z.mul_comm, Z.mod_add by lia. symmetry. apply Z.mod_small. lia.
Qed.

Lemma hours_of_value x : 0 <= x -> x <= inject_Z (2 ^ 53) -> hours_of x = Qfloor (x / 3600).
Proof. intros Hx Hb. apply (hours_of_exact x Hx Hb). Qed.

Lemma seconds_of_value x : 0 <= x -> seconds_of x == x - 60 * inject_Z (Qfloor (x / 60)).
Proof. intros Hx. apply (rem_nonneg x 60 Hx). lia. Qed.

Lemma seconds_floor x : 0 <= x -> Qfloor (seconds_of x) = (Qfloor x mod 60)%Z.
Proof.
  intros Hx. pose proof (seconds_of_value x Hx) as E.
  destruct (seconds_of_bounds x Hx) as [S0 S1].
  assert (E' : seconds_of x == x - inject_Z (60 * Qfloor (x / 60)))
    by (rewrite E, inject_Z_mult; reflexivity).
  rewrite (Qfloor_comp _ _ E'), Qfloor_sub_Z.
  assert (B : (0 <= Qfloor x - 60 * Qfloor (x / 60) < 60)%Z).
  { rewrite <- Qfloor_sub_Z, <- (Qfloor_comp _ _ E'). split.
    - apply Qfloor_nonneg, S0.
    - assert (A : inject_Z (Qfloor (seconds_of x)) < inject_Z 60).
      { pose proof (Qfloor_le (seconds_of x)). change (inject_Z 60) with 60. lra. }
      rewrite <- Zlt_Qlt in A. exact A. }
  apply Z.mod_unique with (q := Qfloor (x / 60)); lia.
Qed.

Lemma has_fraction_spec x : 0 <= x -> (has_fraction x = false <-> x == inject_Z (Qfloor x)).
Proof.
  intros Hx. pose proof (seconds_of_value x Hx) as E.
  destruct (seconds_of_bounds x Hx) as [S0 S1].
  assert (E' : seconds_of x == x - inject_Z (60 * Qfloor (x / 60)))
    by (rewrite E, inject_Z_mult; reflexivity).
  pose proof (Qfloor_sub_Z x (60 * Qfloor (x / 60))) as F.
  rewrite <- (Qfloor_comp _ _ E') in F.
  split.
  - intros H. pose proof (has_fraction_false x Hx H) as Ei.
    rewrite F in Ei. unfold Z.sub in Ei. rewrite inject_Z_plus, inject_Z_opp in Ei. lra.
  - intros Hi. unfold has_fraction. apply negb_false_iff, Qeq_bool_iff.
    rewrite (rem_nonneg _ 1 S0 ltac:(lia)). unfold quo. change (inject_Z 1) with 1.
    assert (E1 : seconds_of x / 1 == seconds_of x) by field.
    rewrite (Qfloor_comp _ _ E1), F.
    unfold Z.sub. rewrite inject_Z_plus, inject_Z_opp. lra.
Qed.

End Values.

Section QtLoggerFacts.
Import QtLogger.

Lemma total_or_index_zero b : total b = Some 0%Z -> total_or_index b = index b.
Proof. unfold total_or_index. intros ->. reflexivity. Qed.

Lemma total_or_index_none b : total b = None -> total_or_index b = index b.
Proof. unfold total_or_index. intros ->. reflexivity. Qed.

Lemma total_or_index_pos b t : total b = Some t -> t <> 0%Z -> total_or_index b = t.
Proof.
  unfold total_or_index. intros -> N. destruct (Z.eqb_spec t 0); [contradiction | reflexivity].
Qed.

Lemma nonneg_bar_term b :
  nonneg_bar b -> (0 <= Z.min (index b) (total_or_index b) <= total_or_index b)%Z.
Proof.
  intros [Hi Ht]. unfold total_or_index.
  destruct (total b) as [t |]; [destruct (Z.eqb_spec t 0) |]; lia.
Qed.

Lemma sums_bounds (bars : gmap string Bar) :
  map_Forall (fun _ => nonneg_bar) bars -> (0 <= completed bars <= sum_totals bars)%Z.
Proof.
  unfold completed, sum_totals. rewrite !map_fold_foldr.
  intros H. apply map_Forall_to_list in H.
  induction (map_to_list bars) as [| [k b] l IH]; [cbn; lia |].
  inversion H as [| ? ? Hb Hl]; subst. specialize (IH Hl).
  cbn [foldr uncurry]. cbn in Hb. pose proof (nonneg_bar_term b Hb). cbn. lia.
Qed.

Lemma completed_insert (bars : gmap string Bar) n b :
  bars !! n = None ->
  completed (<[n := b]> bars) = (completed bars + Z.min (index b) (total_or_index b))%Z.
Proof. intros H. unfold completed. rewrite map_fold_insert_L; [reflexivity | intros; lia | exact H]. Qed.

Lemma sum_totals_insert (bars : gmap string Bar) n b :
  bars !! n = None -> sum_totals (<[n := b]> bars) = (sum_totals bars + total_or_index b)%Z.
Proof. intros H. unfold sum_totals. rewrite map_fold_insert_L; [reflexivity | intros; lia | exact H]. Qed.

Lemma grand_total_pos (bars : gmap string Bar) :
  map_Forall (fun _ => nonneg_bar) bars ->
  (0 <= completed bars <= grand_total bars)%Z /\ (1 <= grand_total bars)%Z.
Proof.
  intros H. pose proof (sums_bounds bars H). unfold grand_total.
  destruct (Z.eqb_spec (sum_totals bars) 0); lia.
Qed.



Local Open Scope Q_scope.

Lemma pow2_m44 : pow2 (-44) == 1 # 17592186044416.
Proof. reflexivity. Qed.

(** The value of [int(c / g * 100)] for [0 <= c <= g]. *)
Lemma percent_of_ratio c g :
  (0 <= c <= g)%Z -> (1 <= g <= 2 ^ 44)%Z ->
  exists p, (r ← int_truediv c g; to_int (fmul r (Fin 100))) = Ok p
            /\ (0 <= p <= 100)%Z /\ (100 * c / g - 1 <= p <= 100 * c / g)%Z.
Proof.
  intros Hc Hg.
  assert (G0 : 0 < inject_Z g) by (change 0 with (inject_Z 0); rewrite <- Zlt_Qlt; lia).
  assert (C0 : 0 <= inject_Z c) by (change 0 with (inject_Z 0); rewrite <- Zle_Qle; lia).
  assert (CG : inject_Z c <= inject_Z g) by (rewrite <- Zle_Qle; lia).
  set (v := inject_Z c / inject_Z g).
  assert (V0 : 0 <= v) by (apply Qle_shift_div_l; [exact G0 | lra]).
  assert (V1 : v <= 1) by (apply Qle_shift_div_r; [exact G0 | lra]).
  assert (R0 : 0 <= rnd v) by (apply rnd_nonneg, V0).
  assert (R1 : rnd v <= 1) by (apply (rnd_le_Z v 1 V0); [lia | exact V1]).
  assert (F0 : 0 <= rnd (rnd v * 100)) by (apply rnd_nonneg; lra).
  assert (F1 : rnd (rnd v * 100) <= 100).
  { apply (rnd_le_Z _ 100); [lra | lia | change (inject_Z 100) with 100; lra]. }
  exists (Qfloor (rnd (rnd v * 100))).
  split.
  { unfold int_truediv. destruct (Z.eqb_spec g 0); [lia |].
    fold v. rewrite (no_overflow v 1 V0) by (lia || exact V1).
    rewrite bind_Ok. unfold fmul.
    rewrite (round_result_fin _ 100); [| lra | lia | change (inject_Z 100) with 100; lra].
    unfold to_int. rewrite (Qtrunc_nonneg _ F0). reflexivity. }
  split.
  { split; [apply Qfloor_nonneg, F0 |].
    rewrite <- (Qfloor_Z 100). apply Qfloor_resp_le. exact F1. }
  set (K := (100 * c / g)%Z).
  (* the exact percentage lies in [K, K + 1 - 1/g] *)
  assert (KB : (g * K <= 100 * c /\ 100 * c <= g * K + g - 1)%Z).
  { unfold K. pose proof (Z.mul_div_le (100 * c) g ltac:(lia)).
    pose proof (Z.mod_pos_bound (100 * c) g ltac:(lia)).
    pose proof (Z.div_mod (100 * c) g ltac:(lia)). lia. }
  destruct KB as [KB1 KB2].
  assert (K0 : (0 <= K)%Z) by (unfold K; apply Z.div_pos; lia).
  rewrite Zle_Qle, inject_Z_mult, inject_Z_mult in KB1.
  rewrite Zle_Qle in KB2. unfold Z.sub in KB2.
  rewrite !inject_Z_plus, !inject_Z_mult in KB2.
  change (inject_Z 100) with 100 in *. change (inject_Z (- (1))) with (-1) in KB2.
  assert (D : inject_Z g * (1 # 17592186044416) <= 1).
  { assert (A : inject_Z g <= 17592186044416).
    { change 17592186044416 with (inject_Z (2 ^ 44)). rewrite <- Zle_Qle. lia. }
    lra. }
  assert (E : v * inject_Z g == inject_Z c) by (unfold v; field; lra).
  assert (L : inject_Z K <= 100 * v).
  { apply Qmult_le_r with (z := inject_Z g); [exact G0 |]. nra. }
  assert (U : 100 * v <= inject_Z K + 1 - (1 # 17592186044416)).
  { apply Qmult_le_r with (z := inject_Z g); [exact G0 |]. nra. }
  destruct (Z.eq_dec c 0%Z) as [Cz | Cnz].
  - (* nothing completed: every step is exact *)
    assert (Vz : v == 0) by (unfold v; rewrite Cz; reflexivity).
    assert (Rz : rnd v = 0) by (apply rnd_zero, Vz).
    rewrite Rz. assert (Fz : rnd (0 * 100) = 0) by (apply rnd_zero; reflexivity).
    rewrite Fz. change (Qfloor 0) with 0%Z.
    assert (K = 0)%Z by (unfold K; rewrite Cz; reflexivity). lia.
  - assert (Vlo : 1 # 17592186044416 <= v).
    { apply Qmult_le_r with (z := inject_Z g); [exact G0 |].
      assert (1 <= inject_Z c)
        by (change 1 with (inject_Z 1); rewrite <- Zle_Qle; lia).
      nra. }
    assert (T : pow2 (-1022) <= 1 # 35184372088832).
    { apply Qle_trans with (pow2 (-45)); [apply pow2_le; lia |].
      apply Qle_bool_iff. vm_compute. reflexivity. }
    destruct (rnd_rel_error v ltac:(lra)) as [A1 A2].
    rewrite pow2_m53 in A1, A2.
    destruct (rnd_rel_error (rnd v * 100) ltac:(lra)) as [B1 B2].
    rewrite pow2_m53 in B1, B2.
    set (r := rnd v) in *. set (f := rnd (r * 100)) in *.
    clearbody f r.
    assert (Flt : f < inject_Z (K + 1)).
    { rewrite inject_Z_plus. change (inject_Z 1) with 1. lra. }
    assert (Fgt : inject_Z (K - 1) <= f).
    { unfold Z.sub. rewrite inject_Z_plus. change (inject_Z (- (1))) with (-1). lra. }
    split.
    + rewrite <- (Qfloor_Z (K - 1)). apply Qfloor_resp_le. exact Fgt.
    + pose proof (Qfloor_le f) as Fl.
      assert (A : inject_Z (Qfloor f) < inject_Z (K + 1)) by lra.
      rewrite <- Zlt_Qlt in A. lia.
Qed.

End QtLoggerFacts.

Section Monotone.
Import QtLogger.
Local Open Scope Q_scope.

(** [int(c / g * 100)] grows with the ratio. *)
Lemma percent_of_ratio_mono c g c' g' p p' :
  (0 <= c <= g)%Z -> (1 <= g)%Z -> (0 <= c' <= g')%Z -> (1 <= g')%Z ->
  (c * g' <= c' * g)%Z ->
  (r ← int_truediv c g; to_int (fmul r (Fin 100))) = Ok p ->
  (r ← int_truediv c' g'; to_int (fmul r (Fin 100))) = Ok p' ->
  (p <= p')%Z.
Proof.
  intros Hc Hg Hc' Hg' Hr.
  assert (F : forall a b, (0 <= a <= b)%Z -> (1 <= b)%Z ->
            0 <= inject_Z a / inject_Z b /\ inject_Z a / inject_Z b <= 1
            /\ (r ← int_truediv a b; to_int (fmul r (Fin 100)))
               = Ok (Qfloor (rnd (rnd (inject_Z a / inject_Z b) * 100)))).
  { intros a b Ha Hb.
    assert (G0 : 0 < inject_Z b) by (change 0 with (inject_Z 0); rewrite <- Zlt_Qlt; lia).
    assert (C0 : 0 <= inject_Z a) by (change 0 with (inject_Z 0); rewrite <- Zle_Qle; lia).
    assert (CG : inject_Z a <= inject_Z b) by (rewrite <- Zle_Qle; lia).
    set (v := inject_Z a / inject_Z b).
    assert (V0 : 0 <= v) by (apply Qle_shift_div_l; [exact G0 | lra]).
    assert (V1 : v <= 1) by (apply Qle_shift_div_r; [exact G0 | lra]).
    assert (R0 : 0 <= rnd v) by (apply rnd_nonneg, V0).
    assert (R1 : rnd v <= 1) by (apply (rnd_le_Z v 1 V0); [lia | exact V1]).
    assert (F0 : 0 <= rnd (rnd v * 100)) by (apply rnd_nonneg; lra).
    repeat split; try assumption.
    unfold int_truediv. destruct (Z.eqb_spec b 0); [lia |].
    fold v. rewrite (no_overflow v 1 V0) by (lia || exact V1).
    rewrite bind_Ok. unfold fmul.
    rewrite (round_result_fin _ 100); [| lra | lia | change (inject_Z 100) with 100; lra].
    unfold to_int. rewrite (Qtrunc_nonneg _ F0). reflexivity. }
  destruct (F c g Hc Hg) as (V0 & V1 & ->). destruct (F c' g' Hc' Hg') as (V0' & V1' & ->).
  intros [= <-] [= <-].
  apply Qfloor_resp_le. apply rnd_mono; [| apply Qmult_le_compat_r; [| lra]].
  - assert (0 <= rnd (inject_Z c / inject_Z g)) by (apply rnd_nonneg, V0). lra.
  - apply rnd_mono; [exact V0 |].
    assert (G0 : 0 < inject_Z g) by (change 0 with (inject_Z 0); rewrite <- Zlt_Qlt; lia).
    assert (G0' : 0 < inject_Z g') by (change 0 with (inject_Z 0); rewrite <- Zlt_Qlt; lia).
    apply Qle_shift_div_l; [exact G0' |].
    assert (E : inject_Z c / inject_Z g * inject_Z g' == inject_Z c * inject_Z g' / inject_Z g)
      by (field; lra).
    rewrite E. apply Qle_shift_div_r; [exact G0 |].
    rewrite <- !inject_Z_mult, <- Zle_Qle. exact Hr.
Qed.


Local Close Scope Q_scope.

Lemma bar_sums_delete (bars : gmap string Bar) n b :
  bars !! n = Some b ->
  completed bars = (completed (delete n bars) + Z.min (index b) (total_or_index b))%Z
  /\ sum_totals bars = (sum_totals (delete n bars) + total_or_index b)%Z.
Proof.
  intros H. rewrite <- (insert_delete_id bars n b H) at 1 3.
  rewrite completed_insert, sum_totals_insert by apply lookup_delete_eq. auto.
Qed.

(** Raising the index of a recorded bar, its total unchanged, does not
    lower the percent. *)
Lemma percent_bar_raise (bars : gmap string Bar) n i i' t p p' :
  map_Forall (fun _ => nonneg_bar) bars ->
  bars !! n = Some (mkBar i t) -> (i <= i')%Z ->
  percent bars = Ok p -> percent (<[n := mkBar i' t]> bars) = Ok p' ->
  (p <= p')%Z.
Proof.
  intros Hn Hl Hi. unfold percent.
  assert (Hb : nonneg_bar (mkBar i t)) by (apply (map_Forall_lookup_1 _ _ _ _ Hn Hl)).
  assert (Hb' : nonneg_bar (mkBar i' t)).
  { destruct Hb as [B1 B2]. split; cbn in *; [lia | exact B2]. }
  assert (Hn' : map_Forall (fun _ => nonneg_bar) (<[n := mkBar i' t]> bars)).
  { apply map_Forall_insert_2; assumption. }
  destruct (grand_total_pos bars Hn) as [G1 G2].
  destruct (grand_total_pos _ Hn') as [G1' G2'].
  apply percent_of_ratio_mono; try assumption.
  (* the two ratios *)
  destruct (bar_sums_delete bars n _ Hl) as [Ec Es].
  assert (Hl' : <[n := mkBar i' t]> bars !! n = Some (mkBar i' t)) by apply lookup_insert_eq.
  destruct (bar_sums_delete _ n _ Hl') as [Ec' Es'].
  rewrite delete_insert_eq in Ec', Es'.
  pose proof (sums_bounds _ (map_Forall_delete _ _ n Hn)) as R.
  set (C := completed (delete n bars)) in *. set (S := sum_totals (delete n bars)) in *.
  unfold grand_total in *. rewrite Ec, Ec', Es, Es' in *.
  destruct Hb as [B1 B2]. cbn [index total] in *.
  unfold total_or_index in *. cbn [index total] in *.
  destruct t as [t0 |]; [destruct (Z.eqb_spec t0 0) |];
    repeat match goal with
           | |- context [(?a =? 0)%Z] => destruct (Z.eqb_spec a 0)
           | H : context [(?a =? 0)%Z] |- _ => destruct (Z.eqb_spec a 0)
           end; nia.
Qed.

Section Emissions.
Context {Changes : Type} (super_callback : Changes -> gmap string Bar -> gmap string Bar).

(** A further call on a table that is not empty sends the recomputed
    percent, whatever was sent before. *)
Lemma emissions_snoc calls c bars ps p :
  emissions super_callback calls bars = (ps, None) ->
  super_callback c (final_table super_callback calls bars) <> ∅ ->
  percent (super_callback c (final_table super_callback calls bars)) = Ok p ->
  emissions super_callback (calls ++ [c]) bars = (ps ++ [p], None).
Proof.
  revert bars ps. induction calls as [| c0 calls IH]; intros bars ps He Hne Hp.
  - cbn in He. injection He as <-. cbn in Hne, Hp. cbn [app emissions].
    unfold callback. rewrite bool_decide_eq_false_2 by exact Hne.
    rewrite Hp. reflexivity.
  - cbn [app emissions final_table fold_left] in *.
    unfold callback in *.
    set (b1 := super_callback c0 bars) in *.
    destruct (bool_decide (b1 = ∅)).
    + cbn in He |- *. fold (final_table super_callback calls b1) in Hne, Hp.
      destruct (emissions super_callback calls b1) as [ps1 e1] eqn:E1.
      injection He as <- ->.
      rewrite (IH b1 ps1 E1 Hne Hp). reflexivity.
    + destruct (percent b1) as [p1 | e1]; [| cbn in He; discriminate].
      cbn in He |- *. fold (final_table super_callback calls b1) in Hne, Hp.
      destruct (emissions super_callback calls b1) as [ps1 e'] eqn:E1.
      injection He as <- ->.
      rewrite (IH b1 ps1 E1 Hne Hp). reflexivity.
Qed.

End Emissions.

End Monotone.

Section TrimWorkerFacts.
Import TrimWorker.
Context {Changes : Type}.

Lemma log_calls_spec (c : Collaborator Changes) calls bars (world : World) :
  log_calls c calls bars world
  = (match (QtLogger.emissions (bookkeeping c) calls bars).2 with
     | Some e => Raise e
     | None => Ok tt
     end,
     mkWorld (self world)
             (events world ++ map Progress (QtLogger.emissions (bookkeeping c) calls bars).1)).
Proof.
  revert bars world. induction calls as [| x calls IH]; intros bars [w evs].
  - cbn. rewrite app_nil_r. reflexivity.
  - cbn [log_calls QtLogger.emissions].
    unfold mbind, prog_bind, lift.
    destruct (QtLogger.callback (bookkeeping c) x bars) as [[bars' out] | e].
    + destruct out as [p |].
      * unfold emit, update_state. cbn [self events]. rewrite IH. cbn [self events].
        destruct (QtLogger.emissions (bookkeeping c) calls bars') as [ps e'].
        cbn. rewrite <- app_assoc. reflexivity.
      * unfold mret, prog_ret. rewrite IH.
        destruct (QtLogger.emissions (bookkeeping c) calls bars') as [ps e'].
        reflexivity.
    + cbn. rewrite app_nil_r. reflexivity.
Qed.

(** What [run] does with any collaborator, case by case. *)
Lemma run_any_spec (c : Collaborator Changes) (w : TrimWorker.t) :
  run c (mkWorld w [])
  = match open_clip c (src w) with
    | Raises e => (Returns tt, mkWorld w [Finished false (exn_str e)])
    | Escapes b => (Escapes b, mkWorld w [])
    | Returns clip =>
        let w1 := if fgt (end_time w) (duration clip)
                  then set_end_time (duration clip) w else w in
        let head := [Opened clip; SubclipCall clip (start_time w1) (end_time w1)] in
        match cut c clip (start_time w1) (end_time w1) with
        | Raises e => (Returns tt, mkWorld w1 (head ++ [Finished false (exn_str e)]))
        | Escapes b => (Escapes b, mkWorld w1 head)
        | Returns sub =>
            let '(calls, outcome) := encode c sub (dst w1) in
            let '(ps, e) := QtLogger.emissions (bookkeeping c) calls ∅ in
            let trace := head ++ WriteCall sub (dst w1) :: map Progress ps in
            match e, outcome with
            | Some e, _ | None, Raises e =>
                (Returns tt, mkWorld w1 (trace ++ [Finished false (exn_str e)]))
            | None, Returns _ => (Returns tt, mkWorld w1 (trace ++ [Finished true "Done!"]))
            | None, Escapes b => (Escapes b, mkWorld w1 trace)
            end
        end
    end.
Proof.
  unfold run, try_except_Exception, of_prog, call, mbind, task_bind, read_state, emit,
    update_state, mret, prog_ret.
  cbn [self events ended].
  destruct (open_clip c (src w)) as [clip | e | b]; [| reflexivity | reflexivity].
  cbn [app ended].
  destruct (fgt (end_time w) (duration clip)); cbn [self events ended];
    match goal with
    | |- context [cut c clip ?t0 ?t1] =>
        destruct (cut c clip t0 t1) as [sub | e | b]; [| reflexivity | reflexivity]
    end;
    cbn [self events app ended];
    match goal with
    | |- context [encode c ?s ?d] => destruct (encode c s d) as [calls outcome]
    end;
    rewrite log_calls_spec; cbn [self events];
    destruct (QtLogger.emissions (bookkeeping c) calls ∅) as [ps [e |]];
    cbn [fst snd ended]; try reflexivity;
    destruct outcome as [[] | e | b]; cbn [self events ended]; reflexivity.
Qed.

(** What [run] does with a collaborator that raises instances of
    [Exception] only. *)
Lemma run_spec (env : MoviePy Changes) (w : TrimWorker.t) :
  run env (mkWorld w [])
  = match VideoFileClip env (src w) with
    | Raise e => (Returns tt, mkWorld w [Finished false (exn_str e)])
    | Ok clip =>
        let w1 := if fgt (end_time w) (duration clip)
                  then set_end_time (duration clip) w else w in
        let head := [Opened clip; SubclipCall clip (start_time w1) (end_time w1)] in
        match subclipped env clip (start_time w1) (end_time w1) with
        | Raise e => (Returns tt, mkWorld w1 (head ++ [Finished false (exn_str e)]))
        | Ok sub =>
            let '(calls, outcome) := write_videofile env sub (dst w1) in
            let '(ps, e) := QtLogger.emissions (super_callback env) calls ∅ in
            (Returns tt,
             mkWorld w1 (head ++ WriteCall sub (dst w1) :: map Progress ps
                         ++ [match e, outcome with
                             | Some e, _ | None, Some e => Finished false (exn_str e)
                             | None, None => Finished true "Done!"
                             end]))
        end
    end.
Proof.
  rewrite run_any_spec. cbn [of_MoviePy open_clip cut encode bookkeeping].
  destruct (VideoFileClip env (src w)) as [clip | e]; [| reflexivity].
  cbn [ended]. cbv zeta.
  set (w1 := if fgt (end_time w) (duration clip)
             then set_end_time (duration clip) w else w).
  destruct (subclipped env clip (start_time w1) (end_time w1)) as [sub | e]; [| reflexivity].
  cbn [ended].
  destruct (write_videofile env sub (dst w1)) as [calls outcome].
  destruct (QtLogger.emissions (super_callback env) calls ∅) as [ps [e |]];
    [| destruct outcome as [e |]];
    cbn [app]; rewrite <- ?app_assoc; reflexivity.
Qed.

End TrimWorkerFacts.

Section MainWindowFacts.
Import MainWindow.
Context (exists_ : Path -> bool).

(** [start_trim] either changes nothing but showing one error box (or lets
    an exception that is not a [ValueError] escape), or starts one worker
    and disables the button. *)
Lemma start_trim_cases (win : MainWindow.t) :
  (exists message, start_trim exists_ (win, []) = (Ok tt, (win, [ErrorBox message])))
  \/ (exists e, start_trim exists_ (win, []) = (Raise e, (win, [])))
  \/ (exists video start_sec end_sec,
        video_path win = Some video /\ exists_ video = true
        /\ to_seconds (start_edit win) = Ok start_sec
        /\ to_seconds (end_edit win) = Ok end_sec
        /\ fle end_sec start_sec = false
        /\ let w := TrimWorker.mkWorker video (mkPath (strip (out_edit win))) start_sec end_sec in
           start_trim exists_ (win, [])
           = (Ok tt,
              (mkWindow (video_path win) (start_edit win) (end_edit win) (out_edit win)
                        false 0%Z (Some w),
               [Started w]))).
Proof.
  unfold start_trim, mbind, prog_bind, read_state, error, prepare, update_state.
  cbn [Path_bool negb orb].
  destruct (video_path win) as [video |] eqn:Ev; [| left; eauto].
  destruct (exists_ video) eqn:Ex; cbn [negb]; [| left; eauto].
  destruct (to_seconds (start_edit win)) as [start_sec | e] eqn:Es.
  - destruct (to_seconds (end_edit win)) as [end_sec | e] eqn:Ee.
    + destruct (fle end_sec start_sec) eqn:Ef; [left; eauto |].
      right. right. exists video, start_sec, end_sec.
      repeat (split; [solve [auto] |]). cbn. rewrite Ev. reflexivity.
    + destruct e; [left; eauto | right; left; eauto ..].
  - destruct e; [left; eauto | right; left; eauto ..].
Qed.

Lemma dispatch_one_job ev app : one_job app -> one_job (dispatch exists_ ev app).
Proof.
  intros H. destruct app as [win al]. unfold one_job in *. cbn [window alive] in *.
  destruct ev; cbn [dispatch window alive]; try exact H.
  - (* the user presses Trim *)
    destruct H as [[Hb ->] | [Hb Hw]].
    + rewrite Hb.
      destruct (start_trim_cases win)
        as [[m E] | [[e E] | (v & s & e & _ & _ & _ & _ & _ & E)]];
        cbv zeta in E; rewrite E; cbn; eauto.
    + rewrite Hb. cbn. auto.
  - (* the worker's terminal notification arrives *)
    destruct H as [[Hb ->] | [Hb [w ->]]]; [cbn; auto |].
    unfold on_finished, update_state. destruct ok; cbn; auto.
Qed.

Lemma run_events_one_job evs app : one_job app -> one_job (run_events exists_ evs app).
Proof.
  unfold run_events. revert app. induction evs as [| ev evs IH]; intros app H; [exact H |].
  cbn [fold_left]. apply IH, dispatch_one_job, H.
Qed.

End MainWindowFacts.

Section TextMore.

Lemma digit_char_nonzero d : (1 <= d <= 9)%Z -> digit_char d <> "0"%char.
Proof.
  intros H. assert (C : In d [1; 2; 3; 4; 5; 6; 7; 8; 9]%Z) by (cbn; lia).
  cbn in C. intuition (subst; discriminate).
Qed.

Lemma dec_digits_head fuel : forall n acc,
  (0 < fuel)%nat -> (0 < n < 10 ^ Z.of_nat fuel)%Z ->
  exists c ds, dec_digits fuel n acc = c :: ds /\ c <> "0"%char.
Proof.
  induction fuel as [| fuel IH]; intros n acc Hf Hn; [lia |].
  cbn [dec_digits].
  assert (Hm : (0 <= n mod 10 <= 9)%Z) by (pose proof (Z.mod_pos_bound n 10); lia).
  destruct (n / 10 =? 0)%Z eqn:E.
  - apply Z.eqb_eq in E.
    assert (n = n mod 10)%Z by (pose proof (Z.div_mod n 10); lia).
    eexists _, _. split; [reflexivity |]. apply digit_char_nonzero. lia.
  - apply Z.eqb_neq in E.
    assert (Hd : (0 < n / 10 < 10 ^ Z.of_nat fuel)%Z).
    { rewrite Nat2Z.inj_succ, Z.pow_succ_r in Hn by lia.
      split; [| apply Z.div_lt_upper_bound; lia].
      pose proof (Z.div_pos n 10 ltac:(lia) ltac:(lia)). lia. }
    assert (Hf' : (0 < fuel)%nat).
    { destruct fuel; [| lia]. cbn in Hd. lia. }
    apply (IH _ _ Hf' Hd).
Qed.

(** From ten on, [format_02] adds no zero. *)
Lemma format_02_canonical n :
  (10 <= n)%Z -> exists c ds, format_02 n = c :: ds /\ c <> "0"%char.
Proof.
  intros H. unfold format_02.
  destruct (n <? 0)%Z eqn:E; [apply Z.ltb_lt in E; lia |].
  destruct (str_of_nonneg_spec n ltac:(lia)) as (D & V & L1 & _).
  pose proof (digits_val_bound _ D) as B. rewrite V in B.
  assert (L : (2 <= length (str_of_nonneg n))%nat).
  { destruct (length (str_of_nonneg n)) as [| [| k]]; [lia | cbn in B; lia | lia]. }
  unfold zfill. replace (2 - length (str_of_nonneg n))%nat with 0%nat by lia.
  cbn [repeat app]. unfold str_of_nonneg.
  apply dec_digits_head; [lia |]. split; [lia | apply log2_fuel; lia].
Qed.

End TextMore.

Section CodecFacts.
Local Open Scope Q_scope.

Lemma ilog2_pow2 e : ilog2 (pow2 e) = e.
Proof. apply ilog2_unique; [lra | apply pow2_lt; lia]. Qed.

Lemma rnd_pow2 e : (-1074 <= e)%Z -> rnd (pow2 e) == pow2 e.
Proof.
  intros H. apply (rnd_exact _ 1 e); [apply pow2_pos | | ring].
  rewrite fexp_pos by apply pow2_pos. rewrite ilog2_pow2. lia.
Qed.

Lemma rnd_le_pow2 q e : 0 <= q -> (-1074 <= e)%Z -> q <= pow2 e -> rnd q <= pow2 e.
Proof. intros H0 He H. rewrite <- (rnd_pow2 e He). apply rnd_mono; assumption. Qed.

Lemma no_overflow_pow2 q e :
  0 <= q -> (-1074 <= e < 1024)%Z -> q <= pow2 e -> overflows q = false.
Proof.
  intros H0 He H. unfold overflows.
  destruct (Qle_bool (pow2 1024) (Qabs (rnd q))) eqn:E; [exfalso | reflexivity].
  apply Qle_bool_iff in E.
  rewrite Qabs_pos in E by (apply rnd_nonneg; exact H0).
  pose proof (rnd_le_pow2 q e H0 ltac:(lia) H) as H1.
  assert (pow2 e < pow2 1024) by (apply pow2_lt; lia). plra.
Qed.

Lemma fields_seconds_total t h m sec :
  timecode_fields (strip t) h m sec ->
  let N := (digits_val h * 3600 + digits_val m * 60)%Z in
  (0 <= N)%Z /\ (N < 3600 * 10 ^ Z.of_nat (length h) + 6000)%Z
  /\ 0 <= seconds_value sec /\ seconds_value sec <= 100
  /\ to_seconds t = (n ← of_int N; Ok (fadd n (Fin (rnd (seconds_value sec))))).
Proof.
  intros F N. pose proof (to_seconds_fields t h m sec F) as E.
  destruct F as (_ & [Dh Lh] & [Dm Lm] & Fs).
  destruct (seconds_value_bounds sec Fs) as (_ & V0 & V1).
  pose proof (digits_val_nonneg _ Dh). pose proof (digits_val_bound _ Dh).
  pose proof (digits_val_nonneg _ Dm). pose proof (digits_val_bound _ Dm) as Bm.
  replace (length m) with 2%nat in Bm by lia. change (10 ^ Z.of_nat 2)%Z with 100%Z in Bm.
  rewrite (round_result_fin _ 100) in E
    by first [exact V0 | lia | change (inject_Z 100) with 100; exact V1].
  subst N. repeat split; try assumption; try lia.
Qed.

(** [to_seconds] on a text with at most eight hour digits. *)
Lemma to_seconds_small t h m sec :
  timecode_fields (strip t) h m sec -> (length h <= 8)%nat ->
  exists x, to_seconds t = Ok (Fin x) /\ 0 <= x /\ x <= inject_Z (2 ^ 40).
Proof.
  intros F L. destruct (fields_seconds_total t h m sec F) as (N0 & N1 & V0 & V1 & E).
  set (N := (digits_val h * 3600 + digits_val m * 60)%Z) in *.
  set (v := seconds_value sec) in *.
  assert (P : (10 ^ Z.of_nat (length h) <= 10 ^ 8)%Z) by (apply Z.pow_le_mono_r; lia).
  change (10 ^ 8)%Z with 100000000%Z in P.
  assert (NB : (N + 100 <= 2 ^ 40)%Z) by (change (2 ^ 40)%Z with 1099511627776%Z; lia).
  assert (Nq : 0 <= inject_Z N) by (change 0 with (inject_Z 0); rewrite <- Zle_Qle; lia).
  assert (R0 : 0 <= rnd (inject_Z N)) by (apply rnd_nonneg, Nq).
  assert (R1 : rnd (inject_Z N) <= inject_Z N).
  { rewrite (rnd_Z N); [lra |]. split; [lia |].
    apply Z.le_trans with (2 ^ 40)%Z; [lia | apply Z.pow_le_mono_r; lia]. }
  assert (A0 : 0 <= rnd v) by (apply rnd_nonneg, V0).
  assert (A1 : rnd v <= 100).
  { apply (rnd_le_Z v 100); [exact V0 | lia | change (inject_Z 100) with 100; exact V1]. }
  assert (S1 : rnd (inject_Z N) + rnd v <= inject_Z (N + 100)).
  { rewrite inject_Z_plus. change (inject_Z 100) with 100. lra. }
  assert (Hz : (0 <= N + 100 <= 2 ^ 53)%Z).
  { split; [lia |]. apply Z.le_trans with (2 ^ 40)%Z; [lia | apply Z.pow_le_mono_r; lia]. }
  exists (rnd (rnd (inject_Z N) + rnd v)). split; [| split].
  - rewrite E. unfold of_int.
    rewrite (no_overflow (inject_Z N) (N + 100)); [| exact Nq | exact Hz |].
    + rewrite bind_Ok. unfold fadd.
      rewrite (round_result_fin _ (N + 100)); [reflexivity | lra | exact Hz | exact S1].
    + rewrite <- Zle_Qle. lia.
  - apply rnd_nonneg. lra.
  - apply Qle_trans with (inject_Z (N + 100)).
    + apply rnd_le_Z; [lra | exact Hz | exact S1].
    + rewrite <- Zle_Qle. exact NB.
Qed.

(** [to_seconds] on a text with at most 300 hour digits. *)
Lemma to_seconds_ok t h m sec :
  timecode_fields (strip t) h m sec -> (length h <= 300)%nat ->
  exists x, to_seconds t = Ok (Fin x) /\ 0 <= x.
Proof.
  intros F L. destruct (fields_seconds_total t h m sec F) as (N0 & N1 & V0 & V1 & E).
  set (N := (digits_val h * 3600 + digits_val m * 60)%Z) in *.
  set (v := seconds_value sec) in *.
  assert (P : (10 ^ Z.of_nat (length h) <= 10 ^ 300)%Z) by (apply Z.pow_le_mono_r; lia).
  assert (B : (3600 * 10 ^ 300 + 6000 <= 2 ^ 1010)%Z).
  { apply Z.leb_le. vm_compute. reflexivity. }
  assert (NB : inject_Z N <= pow2 1010).
  { rewrite pow2_inject by lia. rewrite <- Zle_Qle. lia. }
  assert (Nq : 0 <= inject_Z N) by (change 0 with (inject_Z 0); rewrite <- Zle_Qle; lia).
  assert (R0 : 0 <= rnd (inject_Z N)) by (apply rnd_nonneg, Nq).
  assert (R1 : rnd (inject_Z N) <= pow2 1010) by (apply rnd_le_pow2; [exact Nq | lia | exact NB]).
  assert (A0 : 0 <= rnd v) by (apply rnd_nonneg, V0).
  assert (A1 : rnd v <= 100).
  { apply (rnd_le_Z v 100); [exact V0 | lia | change (inject_Z 100) with 100; exact V1]. }
  assert (H7 : 128 <= pow2 1010).
  { change 128 with (pow2 7). apply pow2_le. lia. }
  pose proof (pow2_succ 1010) as H11. change (1010 + 1)%Z with 1011%Z in H11.
  exists (rnd (rnd (inject_Z N) + rnd v)). split.
  - rewrite E. unfold of_int.
    rewrite (no_overflow_pow2 (inject_Z N) 1010) by (assumption || lia).
    rewrite bind_Ok. unfold fadd, round_result.
    rewrite (no_overflow_pow2 _ 1011); [reflexivity | lra | lia | plra].
  - apply rnd_nonneg. lra.
Qed.

(** [to_seconds] on any text with the three fields returns a float unless
    the hour count is too large for one. *)
Lemma to_seconds_matching t h m sec :
  timecode_fields (strip t) h m sec ->
  (exists y, to_seconds t = Ok y)
  \/ to_seconds t = Raise (OverflowError "int too large to convert to float").
Proof.
  intros F. destruct (fields_seconds_total t h m sec F) as (_ & _ & _ & _ & E).
  rewrite E. unfold of_int.
  destruct (overflows _); [right; reflexivity | left; rewrite bind_Ok; eauto].
Qed.

End CodecFacts.

Section TrimWorkerMore.
Import TrimWorker.

Lemma progress_not_terminal ps : Forall (fun ev => terminal ev = false) (map Progress ps).
Proof. induction ps; cbn; constructor; auto. Qed.

Lemma set_end_time_clamp w d :
  end_time (if fgt (end_time w) d then set_end_time d w else w) = clamp_end (end_time w) d
  /\ start_time (if fgt (end_time w) d then set_end_time d w else w) = start_time w
  /\ src (if fgt (end_time w) d then set_end_time d w else w) = src w
  /\ dst (if fgt (end_time w) d then set_end_time d w else w) = dst w.
Proof. unfold clamp_end. destruct (fgt (end_time w) d); cbn; auto. Qed.

Lemma open_handles_quiet evs acc :
  Forall (fun ev => match ev with Opened _ | Closed _ => False | _ => True end) evs ->
  open_handles evs acc = acc.
Proof.
  induction 1 as [| ev evs H _ IH]; [reflexivity |].
  destruct ev; cbn; try contradiction; exact IH.
Qed.

Lemma progress_quiet ps :
  Forall (fun ev => match ev with Opened _ | Closed _ => False | _ => True end)
         (map Progress ps).
Proof. induction ps; cbn; constructor; auto. Qed.

Lemma filter_terminal_last pre (ev : Event) :
  Forall (fun ev => terminal ev = false) pre ->
  List.filter terminal (pre ++ [ev]) = List.filter terminal [ev].
Proof.
  intros H. rewrite List.filter_app. induction H as [| x pre Hx _ IH]; [reflexivity |].
  cbn [List.filter]. rewrite Hx. exact IH.
Qed.

End TrimWorkerMore.

(** ** The model against the machine's arithmetic *)

(** The steps of [int(29 / 100 * 100)] on hardware floats. *)
Example machine_29_percent :
  of_prim (PrimFloat.div (prim_of_Z 29) (prim_of_Z 100)) = Some (rnd (29 # 100))
  /\ of_prim (PrimFloat.mul (PrimFloat.div (prim_of_Z 29) (prim_of_Z 100)) (prim_of_Z 100))
     = Some (rnd (rnd (29 # 100) * 100)).
Proof. split; vm_compute; reflexivity. Qed.

(** The conversions and the sum behind the lost 64 seconds. *)
Example machine_round_trip :
  of_prim (prim_of_Z 288230376151712220) = Some (rnd 288230376151712220)
  /\ of_prim (prim_of_Z 288230376151712160) = Some (rnd 288230376151712160)
  /\ of_prim (PrimFloat.add (prim_of_Z 288230376151712160) (prim_of_Z 32))
     = Some (rnd (rnd 288230376151712160 + 32)).
Proof. repeat split; vm_compute; reflexivity. Qed.

(** A decimal fraction, a subnormal quotient and the largest finite float. *)
Example machine_more :
  of_prim (PrimFloat.div (prim_of_Z 59999) (prim_of_Z 1000)) = Some (rnd (59999 # 1000))
  /\ of_prim (PrimFloat.div (PrimFloat.div (prim_of_Z 1) (prim_of_Z (10 ^ 308)))
                            (prim_of_Z (10 ^ 10)))
     = Some (rnd (rnd (1 / inject_Z (10 ^ 308)) / inject_Z (10 ^ 10)))
  /\ overflows (inject_Z (2 ^ 1024 - 2 ^ 970 - 1)) = false
  /\ overflows (inject_Z (2 ^ 1024 - 2 ^ 970)) = true.
Proof. repeat split; vm_compute; reflexivity. Qed.

(* ===================================================================== *)
(** * Part IV: the claims                                                 *)
(* ===================================================================== *)

Import QtLogger TrimWorker MainWindow.

(** ** C1: the emitted percents *)

(** C1 (counterexample): a repeated snapshot and then a stale one of the
    same phase: both are sent on, 50 again and then 40. *)
Lemma emissions_repeat_and_drop :
  (emissions record_snapshot [snap "t" 50 100; snap "t" 50 100; snap "t" 40 100] ∅).1
  = [50; 50; 40]%Z
  /\ ~ non_decreasing
       (emissions record_snapshot [snap "t" 50 100; snap "t" 50 100; snap "t" 40 100] ∅).1.
Proof.
  assert (E : (emissions record_snapshot
                 [snap "t" 50 100; snap "t" 50 100; snap "t" 40 100] ∅).1 = [50; 50; 40]%Z)
    by (vm_compute; reflexivity).
  split; [exact E |]. rewrite E. cbn. lia.
Qed.

(** C1 (amended): every call that leaves a non-empty bar table sends the
    percent recomputed from that table, whatever was sent before; nothing is
    held back or raised to the last value.  The percent does not go down
    when a snapshot raises or repeats the index of a phase already recorded,
    with the same total, no counter being negative. *)
Theorem emissions_follow_table :
  (forall (Changes : Type) (super_callback : Changes -> gmap string Bar -> gmap string Bar)
          (calls : list Changes) (c : Changes) (bars : gmap string Bar) (ps : list Z) (p : Z),
      emissions super_callback calls bars = (ps, None) ->
      super_callback c (final_table super_callback calls bars) <> ∅ ->
      percent (super_callback c (final_table super_callback calls bars)) = Ok p ->
      emissions super_callback (calls ++ [c]) bars = (ps ++ [p], None))
  /\ (forall (bars : gmap string Bar) (n : string) (i i' : Z) (t : option Z) (p p' : Z),
         map_Forall (fun _ => nonneg_bar) bars ->
         bars !! n = Some (mkBar i t) -> (i <= i')%Z ->
         percent bars = Ok p ->
         percent (record_snapshot (mkSnapshot n i' t) bars) = Ok p' ->
         (p <= p')%Z).
Proof.
  split.
  - intros Changes super_callback calls c bars ps p. apply emissions_snoc.
  - intros bars n i i' t p p' Hn Hl Hi Hp Hp'.
    exact (percent_bar_raise bars n i i' t p p' Hn Hl Hi Hp Hp').
Qed.

(** C1, witness: after 50 percent, the stale snapshot sends 40. *)
Lemma emissions_follow_table_witness :
  emissions record_snapshot [snap "t" 50 100] ∅ = ([50%Z], None)
  /\ record_snapshot (snap "t" 40 100) (final_table record_snapshot [snap "t" 50 100] ∅) <> ∅
  /\ percent (record_snapshot (snap "t" 40 100)
                (final_table record_snapshot [snap "t" 50 100] ∅)) = Ok 40%Z
  /\ emissions record_snapshot ([snap "t" 50 100] ++ [snap "t" 40 100]) ∅
     = ([50%Z] ++ [40%Z], None).
Proof.
  assert (H1 : emissions record_snapshot [snap "t" 50 100] ∅ = ([50%Z], None))
    by (vm_compute; reflexivity).
  assert (H2 : record_snapshot (snap "t" 40 100)
                 (final_table record_snapshot [snap "t" 50 100] ∅) <> ∅).
  { unfold record_snapshot. apply insert_non_empty. }
  assert (H3 : percent (record_snapshot (snap "t" 40 100)
                          (final_table record_snapshot [snap "t" 50 100] ∅)) = Ok 40%Z)
    by (vm_compute; reflexivity).
  repeat (split; [assumption |]).
  destruct emissions_follow_table as [H _].
  exact (H _ record_snapshot _ _ _ _ _ H1 H2 H3).
Defined.

(** ** C2: the value of the percent *)

(** C2 (counterexample): one phase at 29 of 100.  The formula gives 29, the
    code gives 28. *)
Lemma percent_29_of_100 :
  percent {["t" := mkBar 29 (Some 100%Z)]} = Ok 28%Z
  /\ (100 * completed {["t" := mkBar 29 (Some 100%Z)]}
      / grand_total {["t" := mkBar 29 (Some 100%Z)]} = 29)%Z.
Proof. split; vm_compute; reflexivity. Qed.

(** C2 (amended): the percent is [int(completed / grand_total * 100)]
    computed on binary64 floats.  [completed] sums [min(index, total or
    index)] and [grand_total] sums [total or index] over the recorded phases,
    a phase whose total is 0 or absent counting its index in both, and
    [grand_total] is 1 when that sum is 0.  When no counter is negative and
    [grand_total] is at most [2^44], the percent is an integer in [0,100]
    equal to [floor(100 * completed / grand_total)] or to one less. *)
Theorem percent_value :
  (forall bars : gmap string Bar,
      map_Forall (fun _ => nonneg_bar) bars -> (grand_total bars <= 2 ^ 44)%Z ->
      exists p, percent bars = Ok p /\ (0 <= p <= 100)%Z
                /\ (100 * completed bars / grand_total bars - 1 <= p
                    <= 100 * completed bars / grand_total bars)%Z)
  /\ (completed ∅ = 0%Z /\ sum_totals ∅ = 0%Z /\ grand_total ∅ = 1%Z)
  /\ (forall (bars : gmap string Bar) (n : string) (b : Bar),
         bars !! n = None ->
         completed (<[n := b]> bars)
         = (completed bars + Z.min (index b) (total_or_index b))%Z
         /\ sum_totals (<[n := b]> bars) = (sum_totals bars + total_or_index b)%Z)
  /\ (forall b : Bar,
         total b = Some 0%Z \/ total b = None ->
         total_or_index b = index b /\ Z.min (index b) (total_or_index b) = index b)
  /\ (forall bars : gmap string Bar,
         grand_total bars = (if (sum_totals bars =? 0)%Z then 1 else sum_totals bars)%Z).
Proof.
  split; [| split; [| split; [| split]]].
  - intros bars Hn Hg. destruct (grand_total_pos bars Hn) as [G1 G2].
    unfold percent. apply percent_of_ratio; [exact G1 | lia].
  - repeat split; reflexivity.
  - intros bars n b H. split; [apply completed_insert | apply sum_totals_insert]; exact H.
  - intros b [H | H].
    + rewrite (total_or_index_zero b H). split; [reflexivity | lia].
    + rewrite (total_or_index_none b H). split; [reflexivity | lia].
  - reflexivity.
Qed.

Lemma nonneg_two_phases :
  map_Forall (fun _ => nonneg_bar)
    (<["audio" := mkBar 7 (Some 0%Z)]> {["video" := mkBar 50 (Some 100%Z)]} : gmap string Bar).
Proof.
  apply map_Forall_insert_2; [split; cbn; lia |].
  apply map_Forall_singleton. split; cbn; lia.
Defined.

(** C2, witness: a video phase at 50 of 100 and an audio phase of unknown
    total at index 7. *)
Lemma percent_value_witness :
  map_Forall (fun _ => nonneg_bar)
    (<["audio" := mkBar 7 (Some 0%Z)]> {["video" := mkBar 50 (Some 100%Z)]} : gmap string Bar)
  /\ (grand_total (<["audio" := mkBar 7 (Some 0%Z)]> {["video" := mkBar 50 (Some 100%Z)]})
      <= 2 ^ 44)%Z
  /\ exists p,
       percent (<["audio" := mkBar 7 (Some 0%Z)]> {["video" := mkBar 50 (Some 100%Z)]}) = Ok p
       /\ (0 <= p <= 100)%Z.
Proof.
  split; [exact nonneg_two_phases |].
  assert (G : (grand_total (<["audio" := mkBar 7 (Some 0%Z)]>
                              {["video" := mkBar 50 (Some 100%Z)]}) <= 2 ^ 44)%Z).
  { apply Z.leb_le. vm_compute. reflexivity. }
  split; [exact G |].
  destruct percent_value as [H _].
  destruct (H _ nonneg_two_phases G) as (p & E & B & _).
  exists p. auto.
Defined.

(** ** C3: one terminal notification *)

(** C3 (counterexample): the encoder ends with [SystemExit] after two
    progress reports.  [except Exception] does not catch it: the exception
    leaves [run] and no terminal notification is emitted. *)
Lemma run_exit_no_terminal :
  run moviepy_exits (mkWorld worker_10_300 [])
  = (Escapes SystemExit,
     mkWorld (set_end_time (Fin 120) worker_10_300)
             [Opened clip120; SubclipCall clip120 (Fin 10) (Fin 120);
              WriteCall clip120 (mkPath (lit "out.mp4")); Progress 50; Progress 100])
  /\ List.filter terminal (run moviepy_exits (mkWorld worker_10_300 [])).2.(events) = [].
Proof. split; vm_compute; reflexivity. Qed.

(** C3 (amended): with a collaborator that returns or raises instances of
    [Exception], every started job emits exactly one terminal notification,
    and it is the last event: [Finished false (str e)] with the description
    of the first exception raised (opening the source, cutting, a logger
    call or the encoder), [Finished true "Done!"] when nothing is raised;
    when opening the source fails, nothing at all precedes it.  With any
    collaborator: [run] ends with an exception exactly when a call ends
    with one outside of [Exception], which [run] does not catch, and then
    no terminal notification is emitted; otherwise [run] returns and has
    emitted exactly one, last. *)
Theorem run_one_terminal {Changes : Type} :
  (forall (env : MoviePy Changes) (w : TrimWorker.t),
      exists w' pre,
        run env (mkWorld w [])
        = (Returns tt,
           mkWorld w' (pre ++ [match first_failure env w with
                               | Some e => Finished false (exn_str e)
                               | None => Finished true "Done!"
                               end]))
        /\ Forall (fun ev => terminal ev = false) pre
        /\ (forall e, VideoFileClip env (src w) = Raise e ->
            pre = [] /\ first_failure env w = Some e)
        /\ (forall clip sub calls ps e,
            VideoFileClip env (src w) = Ok clip ->
            subclipped env clip (start_time w) (clamp_end (end_time w) (duration clip)) = Ok sub ->
            write_videofile env sub (dst w) = (calls, Some e) ->
            QtLogger.emissions (super_callback env) calls ∅ = (ps, None) ->
            first_failure env w = Some e)
        /\ (forall clip sub calls ps,
            VideoFileClip env (src w) = Ok clip ->
            subclipped env clip (start_time w) (clamp_end (end_time w) (duration clip)) = Ok sub ->
            write_videofile env sub (dst w) = (calls, None) ->
            QtLogger.emissions (super_callback env) calls ∅ = (ps, None) ->
            first_failure env w = None))
  /\ (forall (c : Collaborator Changes) (w : TrimWorker.t),
         exists w' evs,
           match first_escape c w with
           | Some b =>
               run c (mkWorld w []) = (Escapes b, mkWorld w' evs)
               /\ Forall (fun ev => terminal ev = false) evs
           | None =>
               run c (mkWorld w []) = (Returns tt, mkWorld w' evs)
               /\ exists pre ev,
                    evs = pre ++ [ev] /\ terminal ev = true
                    /\ Forall (fun ev => terminal ev = false) pre
           end).
Proof.
  split.
  - intros env w. rewrite run_spec. unfold first_failure.
    destruct (VideoFileClip env (src w)) as [clip | e] eqn:Eo.
    + cbv zeta.
      destruct (set_end_time_clamp w (duration clip)) as (E1 & E2 & E3 & E4).
      set (w1 := if fgt (end_time w) (duration clip)
                 then set_end_time (duration clip) w else w) in *.
      rewrite E1, E2, E4.
      destruct (subclipped env clip (start_time w) (clamp_end (end_time w) (duration clip)))
        as [sub | e] eqn:Es.
      * destruct (write_videofile env sub (dst w)) as [calls outcome] eqn:Ew.
        destruct (QtLogger.emissions (super_callback env) calls ∅) as [ps e] eqn:Ee.
        eexists w1, (_ :: _ :: _ :: map Progress ps). split.
        -- cbn [app]. f_equal. f_equal. f_equal. f_equal. f_equal. f_equal.
           destruct e, outcome; reflexivity.
        -- split; [repeat constructor; apply progress_not_terminal |].
           split; [intros e0 H; discriminate |].
           split.
           ++ intros clip0 sub0 calls0 ps0 e0 H1 H2 H3 H4.
              injection H1 as <-. rewrite Es in H2. injection H2 as <-.
              rewrite Ew in H3. simplify_eq. rewrite Ee in H4. simplify_eq. reflexivity.
           ++ intros clip0 sub0 calls0 ps0 H1 H2 H3 H4.
              injection H1 as <-. rewrite Es in H2. injection H2 as <-.
              rewrite Ew in H3. simplify_eq. rewrite Ee in H4. simplify_eq. reflexivity.
      * eexists w1, [_; _]. split; [reflexivity |].
        split; [repeat constructor |].
        split; [intros e0 H; discriminate |].
        split; intros clip0 sub0 calls0 ps0; intros;
          match goal with
          | H1 : Ok _ = Ok _, H2 : subclipped _ _ _ _ = Ok _ |- _ =>
              injection H1 as <-; rewrite Es in H2; discriminate
          end.
    + exists w, []. split; [reflexivity |]. split; [constructor |].
      split; [intros e0 H; injection H as <-; auto |].
      split; intros; discriminate.
  - intros c w. rewrite run_any_spec. unfold first_escape.
    destruct (open_clip c (src w)) as [clip | e | b].
    + cbv zeta.
      destruct (set_end_time_clamp w (duration clip)) as (E1 & E2 & E3 & E4).
      set (w1 := if fgt (end_time w) (duration clip)
                 then set_end_time (duration clip) w else w) in *.
      rewrite E1, E2, E4.
      destruct (cut c clip (start_time w) (clamp_end (end_time w) (duration clip)))
        as [sub | e | b].
      * destruct (encode c sub (dst w)) as [calls outcome].
        destruct (QtLogger.emissions (bookkeeping c) calls ∅) as [ps [e |]];
          [| destruct outcome as [[] | e | b]].
        -- eexists w1, _. split; [reflexivity |]. eexists _, _. split; [reflexivity |].
           split; [reflexivity |]. repeat constructor. apply progress_not_terminal.
        -- eexists w1, _. split; [reflexivity |]. eexists _, _. split; [reflexivity |].
           split; [reflexivity |]. repeat constructor. apply progress_not_terminal.
        -- eexists w1, _. split; [reflexivity |]. eexists _, _. split; [reflexivity |].
           split; [reflexivity |]. repeat constructor. apply progress_not_terminal.
        -- eexists w1, _. split; [reflexivity |].
           repeat constructor. apply progress_not_terminal.
      * eexists w1, _. split; [reflexivity |].
        eexists [_; _], _. split; [reflexivity |]. split; [reflexivity |]. repeat constructor.
      * eexists w1, _. split; [reflexivity |]. repeat constructor.
    + eexists w, _. split; [reflexivity |]. eexists [], _. split; [reflexivity |].
      split; [reflexivity | constructor].
    + eexists w, _. split; [reflexivity | constructor].
Qed.

(** C3, witness: the three scenarios on concrete collaborators: the source
    cannot be opened, the encoder fails after two progress reports, and a
    clean run; then the encoder that ends with [SystemExit]. *)
Lemma run_one_terminal_witness :
  (run (moviepy_unreadable (RuntimeError "no such file")) (mkWorld worker_10_300 [])).2.(events)
  = [Finished false "no such file"]
  /\ List.filter terminal
       (run (moviepy120 (Some (RuntimeError "disk full"))) (mkWorld worker_10_300 [])).2.(events)
     = [Finished false "disk full"]
  /\ List.filter terminal
       (run (moviepy120 None) (mkWorld worker_10_300 [])).2.(events)
     = [Finished true "Done!"]
  /\ first_escape moviepy_exits worker_10_300 = Some SystemExit
  /\ exists w' evs,
       run moviepy_exits (mkWorld worker_10_300 []) = (Escapes SystemExit, mkWorld w' evs)
       /\ Forall (fun ev => terminal ev = false) evs.
Proof.
  destruct (@run_one_terminal QtLogger.Snapshot) as [HA HB].
  split; [| split; [| split; [| split]]].
  - destruct (HA (moviepy_unreadable (RuntimeError "no such file")) worker_10_300)
      as (w' & pre & E & _ & H & _).
    destruct (H _ eq_refl) as [-> F]. rewrite E, F. reflexivity.
  - destruct (HA (moviepy120 (Some (RuntimeError "disk full"))) worker_10_300)
      as (w' & pre & E & H & _).
    rewrite E. cbn [snd events]. rewrite (filter_terminal_last pre _ H). reflexivity.
  - vm_compute. reflexivity.
  - reflexivity.
  - destruct (HB moviepy_exits worker_10_300) as (w' & evs & H).
    change (first_escape moviepy_exits worker_10_300) with (Some SystemExit) in H.
    exists w', evs. exact H.
Defined.

(** ** C4: the end time is clamped *)

(** C4: with any collaborator, once the source is open [run] always asks
    for a sub-clip, from the unchanged start time to an end time [t1] that
    is the requested end time when that does not exceed the duration of the
    source and the duration when it does (the requested end when one of the
    two is NaN), and keeps [t1] as the end time of the job.  Nothing is
    rejected.  The encoder is then called on the sub-clip that was cut,
    with the destination of the job; when the cut raises an instance of
    [Exception] the failure is reported at once, and when it ends with
    another exception [run] ends with it. *)
Theorem run_clamps_end {Changes : Type} (c : Collaborator Changes)
    (w : TrimWorker.t) (clip : Clip) :
  open_clip c (src w) = Returns clip ->
  exists r w' t1 rest,
    run c (mkWorld w [])
    = (r, mkWorld w' (Opened clip :: SubclipCall clip (start_time w) t1 :: rest))
    /\ (forall e, r <> Raises e)
    /\ start_time w' = start_time w
    /\ end_time w' = t1
    /\ (forall e d : Q,
           end_time w = Fin e -> duration clip = Fin d ->
           ((e <= d)%Q -> t1 = Fin e) /\ ((d < e)%Q -> t1 = Fin d))
    /\ (forall d : Q, end_time w = Inf false -> duration clip = Fin d -> t1 = Fin d)
    /\ (end_time w = NaN \/ duration clip = NaN -> t1 = end_time w)
    /\ (forall sub, cut c clip (start_time w) t1 = Returns sub ->
                    exists rest', rest = WriteCall sub (dst w) :: rest')
    /\ (forall x, cut c clip (start_time w) t1 = Raises x ->
                  r = Returns tt /\ rest = [Finished false (exn_str x)])
    /\ (forall b, cut c clip (start_time w) t1 = Escapes b ->
                  r = Escapes b /\ rest = []).
Proof.
  intros Eo. rewrite run_any_spec, Eo. cbv zeta.
  destruct (set_end_time_clamp w (duration clip)) as (E1 & E2 & E3 & E4).
  set (w1 := if fgt (end_time w) (duration clip)
             then set_end_time (duration clip) w else w) in *.
  rewrite E1, E2, E4.
  assert (Order : (forall e d : Q,
                      end_time w = Fin e -> duration clip = Fin d ->
                      ((e <= d)%Q -> clamp_end (end_time w) (duration clip) = Fin e)
                      /\ ((d < e)%Q -> clamp_end (end_time w) (duration clip) = Fin d))
                  /\ (forall d : Q, end_time w = Inf false -> duration clip = Fin d ->
                                    clamp_end (end_time w) (duration clip) = Fin d)
                  /\ (end_time w = NaN \/ duration clip = NaN ->
                      clamp_end (end_time w) (duration clip) = end_time w)).
  { split; [| split].
    - intros e d -> ->. unfold clamp_end, fgt.
      destruct (Qltb d e) eqn:G.
      + apply Qltb_true in G. split; [intros H; exfalso; lra | reflexivity].
      + apply Qltb_false in G. split; [reflexivity | intros H; exfalso; lra].
    - intros d -> ->. reflexivity.
    - intros [-> | ->]; unfold clamp_end, fgt; [reflexivity |].
      destruct (end_time w); reflexivity. }
  destruct Order as (O1 & O2 & O3).
  destruct (cut c clip (start_time w) (clamp_end (end_time w) (duration clip)))
    as [sub | x | b] eqn:Es.
  - destruct (encode c sub (dst w)) as [calls outcome].
    destruct (QtLogger.emissions (bookkeeping c) calls ∅) as [ps [e |]];
      [| destruct outcome as [[] | e | b]];
      (eexists _, w1, _, _; split; [reflexivity |];
       split; [intros e0; discriminate |];
       split; [exact E2 |]; split; [exact E1 |]; split; [exact O1 |];
       split; [exact O2 |]; split; [exact O3 |];
       split; [intros sub0 H; rewrite Es in H; injection H as <-; eexists; reflexivity |];
       split; intros ? H; rewrite Es in H; discriminate).
  - eexists _, w1, _, _. split; [reflexivity |].
    split; [intros e0; discriminate |].
    split; [exact E2 |]. split; [exact E1 |]. split; [exact O1 |].
    split; [exact O2 |]. split; [exact O3 |].
    split; [intros sub0 H; rewrite Es in H; discriminate |].
    split; intros ? H; rewrite Es in H; [| discriminate].
    injection H as <-. split; reflexivity.
  - eexists _, w1, _, _. split; [reflexivity |].
    split; [intros e0; discriminate |].
    split; [exact E2 |]. split; [exact E1 |]. split; [exact O1 |].
    split; [exact O2 |]. split; [exact O3 |].
    split; [intros sub0 H; rewrite Es in H; discriminate |].
    split; intros ? H; rewrite Es in H; [discriminate |].
    injection H as <-. split; reflexivity.
Qed.

(** The worker that [start_trim] builds in the end-to-end example. *)
Lemma start_trim_example :
  start_trim (fun _ => true) (window_10_300, [])
  = (Ok tt,
     (mkWindow (Some video_in) (lit "00:00:10") (lit "00:05:00") (lit "out.mp4")
               false 0%Z (Some worker_10_300),
      [Started worker_10_300])).
Proof. vm_compute. reflexivity. Qed.

(** C4, witness: the example of the specification, a source of 120 s with
    start 00:00:10 and end 00:05:00, where the sub-clip asked for is
    [10, 120] and the encoder gets it; and the same source with an end of
    60 s, which is kept. *)
Lemma run_clamps_end_witness :
  open_clip (moviepy120 None) (src worker_10_300) = Returns clip120
  /\ (exists r w' rest',
         run (moviepy120 None) (mkWorld worker_10_300 [])
         = (r,
            mkWorld w' (Opened clip120 :: SubclipCall clip120 (Fin 10) (Fin 120)
                        :: WriteCall clip120 (mkPath (lit "out.mp4")) :: rest'))
         /\ start_time w' = Fin 10 /\ end_time w' = Fin 120)
  /\ (exists r w' rest,
         run (moviepy120 None) (mkWorld worker_10_60 [])
         = (r,
            mkWorld w' (Opened clip120 :: SubclipCall clip120 (Fin 10) (Fin 60) :: rest))
         /\ end_time w' = Fin 60).
Proof.
  split; [reflexivity |]. split.
  - destruct (run_clamps_end (moviepy120 None) worker_10_300 clip120 eq_refl)
      as (r & w' & t1 & rest & E & _ & E1 & E2 & O & _ & _ & Hs & _).
    assert (T : t1 = Fin 120) by (apply (O 300%Q 120%Q eq_refl eq_refl); reflexivity).
    rewrite T in E, E2, Hs.
    destruct (Hs clip120 eq_refl) as [rest' R]. rewrite R in E.
    exists r, w', rest'. split; [exact E |]. split; [exact E1 | exact E2].
  - destruct (run_clamps_end (moviepy120 None) worker_10_60 clip120 eq_refl)
      as (r & w' & t1 & rest & E & _ & _ & E2 & O & _).
    assert (T : t1 = Fin 60) by (apply (O 60%Q 120%Q eq_refl eq_refl); discriminate).
    rewrite T in E, E2.
    exists r, w', rest. split; [exact E | exact E2].
Defined.

(** ** C5: what [to_seconds] accepts *)

(** C5 (counterexample): a text of the grammar, with 311 hour digits, on
    which [to_seconds] fails, and not with the timecode error. *)
Lemma to_seconds_huge_hours :
  is_timecode (strip huge_hours)
  /\ to_seconds huge_hours = Raise (OverflowError "int too large to convert to float").
Proof.
  split.
  - exists ("1"%char :: repeat "0"%char 310), (lit "00"), (lit "00").
    split; [vm_compute; reflexivity |].
    split; [split; [vm_compute; reflexivity | cbn; lia] |].
    split; [split; [reflexivity | cbn; lia] |].
    apply seconds_whole. split; [reflexivity | cbn; lia].
  - vm_compute. reflexivity.
Qed.

(** C5 (amended): for every text whose characters are all below code point
    256, where the digits are [0] to [9]: [to_seconds] raises the timecode
    error exactly when the stripped text is not of the grammar H+:MM:SS or
    H+:MM:SS.mmm, and on a text of the grammar whose hour field has at most
    300 digits it returns a non-negative float.  It rejects the empty text,
    [1:2:3] and [-1:00:00] and accepts [12:60:00], as 46800 seconds. *)
Theorem to_seconds_grammar :
  (forall t,
      (to_seconds t = Raise (ValueError TIMECODE_MSG) <-> ~ is_timecode (strip t))
      /\ (forall h m sec,
             timecode_fields (strip t) h m sec -> (length h <= 300)%nat ->
             exists x, to_seconds t = Ok (Fin x) /\ (0 <= x)%Q))
  /\ to_seconds [] = Raise (ValueError TIMECODE_MSG)
  /\ to_seconds (lit "1:2:3") = Raise (ValueError TIMECODE_MSG)
  /\ to_seconds (lit "-1:00:00") = Raise (ValueError TIMECODE_MSG)
  /\ to_seconds (lit "12:60:00") = Ok (Fin 46800).
Proof.
  split; [| repeat split; vm_compute; reflexivity].
  intros t. split.
  - split.
    + intros E (h & m & sec & F).
      destruct (to_seconds_matching t h m sec F) as [[y Ey] | Eo]; congruence.
    + intros N. unfold to_seconds.
      apply fullmatch_timecode_none in N. rewrite N. reflexivity.
  - intros h m sec F L. exact (to_seconds_ok t h m sec F L).
Qed.

Lemma fields_12_60_00 :
  timecode_fields (strip (lit " 12:60:00 ")) (lit "12") (lit "60") (lit "00").
Proof.
  split; [vm_compute; reflexivity |].
  split; [split; [reflexivity | cbn; lia] |].
  split; [split; [reflexivity | cbn; lia] |].
  apply seconds_whole. split; [reflexivity | cbn; lia].
Defined.

(** C5, witness: a text of the grammar with blanks around it. *)
Lemma to_seconds_grammar_witness :
  timecode_fields (strip (lit " 12:60:00 ")) (lit "12") (lit "60") (lit "00")
  /\ (length (lit "12") <= 300)%nat
  /\ exists x, to_seconds (lit " 12:60:00 ") = Ok (Fin x) /\ (0 <= x)%Q.
Proof.
  split; [exact fields_12_60_00 |]. split; [cbn; lia |].
  destruct to_seconds_grammar as [H _].
  destruct (H (lit " 12:60:00 ")) as (_ & H2).
  apply (H2 _ _ _ fields_12_60_00). cbn. lia.
Defined.

(** ** C6: validation before a job starts *)

(** C6 (the failing input): the source exists, both timecodes are valid, the
    output field is empty.  No error is shown and a worker is started, with
    the empty path as its destination. *)
Theorem start_trim_without_output_starts_job :
  start_trim (fun _ => true) (window_no_output, [])
  = (Ok tt,
     (mkWindow (Some video_in) (lit "00:00:00") (lit "00:00:10") [] false 0%Z
               (Some (TrimWorker.mkWorker video_in (mkPath []) (Fin 0) (Fin 10))),
      [Started (TrimWorker.mkWorker video_in (mkPath []) (Fin 0) (Fin 10))])).
Proof. vm_compute. reflexivity. Qed.

(** ** C7: parse, format, parse *)

(** C7 (counterexample): a valid timecode whose value comes back 64 seconds
    lower after formatting and parsing again. *)
Lemma roundtrip_off_by_64_seconds :
  exists x s y,
    to_seconds (lit "80063993375475:37:00") = Ok (Fin x)
    /\ seconds_to_timecode (Fin x) = Ok s
    /\ to_seconds s = Ok (Fin y)
    /\ (x - y == 64)%Q.
Proof.
  exists 288230376151712192%Q, (lit "80063993375475:36:32"), 288230376151712128%Q.
  repeat split; vm_compute; reflexivity.
Qed.

(** C7 (amended): for every valid timecode with at most eight hour digits,
    parsing, formatting and parsing again gives the first value back to
    within one millisecond. *)
Theorem roundtrip_within_ms (t h m sec : str) :
  timecode_fields (strip t) h m sec -> (length h <= 8)%nat ->
  exists x s y,
    to_seconds t = Ok (Fin x)
    /\ seconds_to_timecode (Fin x) = Ok s
    /\ to_seconds s = Ok (Fin y)
    /\ (Qabs (y - x) < 1 # 1000)%Q.
Proof.
  intros F L.
  destruct (to_seconds_small t h m sec F L) as (x & E & X0 & X1).
  destruct (format_parse x X0 X1) as (s & y & E1 & E2 & Y1 & Y2).
  exists x, s, y. repeat split; try assumption.
  apply Qabs_Qlt_condition. split; lra.
Qed.

Lemma fields_01_01_01_500 :
  timecode_fields (strip (lit "01:01:01.500")) (lit "01") (lit "01") (lit "01.500").
Proof.
  split; [vm_compute; reflexivity |].
  split; [split; [reflexivity | cbn; lia] |].
  split; [split; [reflexivity | cbn; lia] |].
  apply (seconds_frac (lit "01") (lit "500")); split; (reflexivity || (cbn; lia)).
Defined.

(** C7, witness. *)
Lemma roundtrip_within_ms_witness :
  timecode_fields (strip (lit "01:01:01.500")) (lit "01") (lit "01") (lit "01.500")
  /\ (length (lit "01") <= 8)%nat
  /\ exists x s y,
       to_seconds (lit "01:01:01.500") = Ok (Fin x)
       /\ seconds_to_timecode (Fin x) = Ok s
       /\ to_seconds s = Ok (Fin y)
       /\ (Qabs (y - x) < 1 # 1000)%Q.
Proof.
  split; [exact fields_01_01_01_500 |]. split; [cbn; lia |].
  apply (roundtrip_within_ms _ _ _ _ fields_01_01_01_500). cbn. lia.
Defined.

(** ** C8: the source handle *)

(** C8 (counterexample): a clean run; the terminal notification is out and
    the handle of the source is still open. *)
Lemma clean_run_leaves_source_open :
  let evs := (run (moviepy120 None) (mkWorld worker_10_300 [])).2.(events) in
  last evs = Some (Finished true "Done!")
  /\ open_handles evs [] = [handle clip120]
  /\ open_handles evs [] <> [].
Proof. vm_compute. repeat split; discriminate. Qed.

(** C8 (amended): [run] never closes the source.  On every path that
    opened it, the handle is still open when [run] returns, after the
    terminal notification, and no event of the run is a [close]. *)
Theorem run_leaves_source_open {Changes : Type} (env : MoviePy Changes)
    (w : TrimWorker.t) (clip : Clip) :
  VideoFileClip env (src w) = Ok clip ->
  let world := (run env (mkWorld w [])).2 in
  open_handles (events world) [] = [handle clip]
  /\ Forall (fun ev => forall c, ev <> Closed c) (events world).
Proof.
  intros Eo. rewrite run_spec, Eo. cbv zeta.
  set (w1 := if fgt (end_time w) (duration clip)
             then set_end_time (duration clip) w else w).
  destruct (subclipped env clip (start_time w1) (end_time w1)) as [sub | e].
  - destruct (write_videofile env sub (dst w1)) as [calls outcome].
    destruct (QtLogger.emissions (super_callback env) calls ∅) as [ps e].
    cbn [snd events app open_handles]. split.
    + apply open_handles_quiet. apply Forall_app. split; [apply progress_quiet |].
      constructor; [| constructor]. destruct e, outcome; exact I.
    + repeat (constructor; [intros c; discriminate |]).
      apply Forall_app. split.
      * induction ps; cbn; constructor; [intros c; discriminate | assumption].
      * constructor; [| constructor]. intros c. destruct e, outcome; discriminate.
  - cbn. split; [reflexivity |].
    repeat (constructor; [intros c; discriminate |]). constructor.
Qed.

(** C8, witness. *)
Lemma run_leaves_source_open_witness :
  VideoFileClip (moviepy120 (Some (RuntimeError "disk full"))) (src worker_10_300) = Ok clip120
  /\ open_handles
       (run (moviepy120 (Some (RuntimeError "disk full"))) (mkWorld worker_10_300 [])).2.(events)
       [] = [handle clip120].
Proof.
  split; [reflexivity |].
  apply (run_leaves_source_open (moviepy120 (Some (RuntimeError "disk full")))
                                worker_10_300 clip120 eq_refl).
Defined.

(** ** C9: one job at a time *)

(** C9 (counterexample): [start_trim] called while a job is running.  It
    raises nothing, shows no error and starts a second worker. *)
Lemma start_trim_while_running :
  start_trim (fun _ => true) (window_busy, [])
  = (Ok tt,
     (mkWindow (Some video_in) (lit "00:00:10") (lit "00:05:00") (lit "out.mp4")
               false 0%Z (Some worker_10_300),
      [Started worker_10_300])).
Proof. vm_compute. reflexivity. Qed.

(** C9 (amended): [start_trim] has no check of its own for a running job.
    What keeps the jobs apart is the button: a start disables it, only
    [on_finished] enables it again, and a disabled button sends no click.
    So, whatever the user and the workers do, at most one worker is alive
    and the button is enabled exactly when none is.  [on_finished] leaves
    [self.worker] as it was. *)
Theorem one_job_at_a_time :
  (forall (exists_ : Path -> bool) (evs : list UiEvent),
      let app := run_events exists_ evs (mkApp init []) in
      (length (alive app) <= 1)%nat
      /\ (trim_btn_enabled (window app) = true <-> alive app = []))
  /\ (forall (ok : bool) (msg : string) (win : MainWindow.t),
         let win' := (on_finished ok msg (win, [])).2.1 in
         trim_btn_enabled win' = true /\ worker win' = worker win)
  /\ (forall (exists_ : Path -> bool) (win : MainWindow.t),
         trim_btn_enabled (window (dispatch exists_ ClickTrim (mkApp win []))) = false ->
         trim_btn_enabled win = true ->
         exists w, alive (dispatch exists_ ClickTrim (mkApp win [])) = [w]).
Proof.
  split; [| split].
  - intros exists_ evs app.
    assert (H : one_job app).
    { apply run_events_one_job. left. split; reflexivity. }
    destruct H as [[Hb Ha] | [Hb [w Ha]]]; rewrite Hb, Ha; cbn; split; try lia.
    + tauto.
    + split; discriminate.
  - intros ok msg win. unfold on_finished, update_state. destruct ok; cbn; auto.
  - intros exists_ win Hd He.
    assert (H : one_job (dispatch exists_ ClickTrim (mkApp win []))).
    { apply dispatch_one_job. left. split; [exact He | reflexivity]. }
    destruct H as [[Hb _] | [_ Hw]]; [congruence | exact Hw].
Qed.

(** C9, witness: a click, a second click while the job runs, the end of the
    job, a third click. *)
Lemma one_job_at_a_time_witness :
  let app := run_events (fun _ => true)
               [ChooseVideo video_in; EditStart (lit "00:00:10"); EditEnd (lit "00:05:00");
                EditOutput (lit "out.mp4"); ClickTrim; ClickTrim]
               (mkApp init []) in
  alive app = [worker_10_300]
  /\ (length (alive app) <= 1)%nat
  /\ (trim_btn_enabled (window app) = true <-> alive app = []).
Proof.
  intros app. split; [vm_compute; reflexivity |].
  destruct one_job_at_a_time as [H _].
  exact (H (fun _ => true)
           [ChooseVideo video_in; EditStart (lit "00:00:10"); EditEnd (lit "00:05:00");
            EditOutput (lit "out.mp4"); ClickTrim; ClickTrim]).
Defined.

(** ** C10: the format of a timecode *)

(** C10 (counterexample): positive infinity is a float that is not
    negative, and [seconds_to_timecode] raises on it: [inf // 3600] is NaN,
    which [int] refuses. *)
Lemma seconds_to_timecode_infinity :
  fle (Fin 0) (Inf false) = true
  /\ seconds_to_timecode (Inf false)
     = Raise (ValueError "cannot convert float NaN to integer").
Proof. split; reflexivity. Qed.

(** C10 (amended): on a non-negative finite float, [seconds_to_timecode]
    returns [HH:MM:SS] or [HH:MM:SS.mmm]: the hours in decimal, on two
    digits when below 100 and without a leading zero from 10 on; the
    minutes on two digits; the whole seconds on two digits; then a point
    and three digits exactly when the argument is not a whole number of
    seconds.  [0.0] gives [00:00:00] and [3661.5] gives [01:01:01.500]. *)
Theorem seconds_to_timecode_format :
  (forall x : Q,
      (0 <= x)%Q ->
      exists hh mm ss,
        seconds_to_timecode (Fin x) = Ok (hh ++ ":"%char :: mm ++ ":"%char :: ss)
        /\ (all_digits hh = true /\ (2 <= length hh)%nat /\ digits_val hh = hours_of x
            /\ ((hours_of x < 100)%Z -> length hh = 2%nat)
            /\ ((10 <= hours_of x)%Z -> head hh <> Some "0"%char)
            /\ ((x <= inject_Z (2 ^ 53))%Q -> hours_of x = Qfloor (x / 3600)))
        /\ (digit_field 2 2 mm /\ digits_val mm = (Qfloor (x / 60) mod 60)%Z)
        /\ ((x == inject_Z (Qfloor x))%Q ->
            digit_field 2 2 ss /\ digits_val ss = (Qfloor x mod 60)%Z)
        /\ (~ (x == inject_Z (Qfloor x))%Q ->
            exists w d,
              ss = w ++ "."%char :: d /\ digit_field 2 2 w /\ digit_field 3 3 d
              /\ digits_val (w ++ d)
                 = round_half_even ((x - 60 * inject_Z (Qfloor (x / 60))) * 1000)))
  /\ seconds_to_timecode (Fin 0) = Ok (lit "00:00:00")
  /\ seconds_to_timecode (Fin (7323 # 2)) = Ok (lit "01:01:01.500").
Proof.
  split; [| split; vm_compute; reflexivity].
  intros x Hx.
  pose proof (hours_of_nonneg x Hx) as Hh.
  destruct (minutes_of_exact x Hx) as [_ Hm].
  destruct (seconds_of_bounds x Hx) as [S0 S1].
  destruct (format_02_spec (hours_of x) Hh) as (Dh & Vh & Lh & Lh2).
  destruct (format_02_spec (minutes_of x) ltac:(lia)) as (Dm & Vm & _ & Lm).
  specialize (Lm ltac:(lia)).
  eexists _, _, _. split; [apply (seconds_to_timecode_nonneg x Hx) |].
  split.
  { repeat split; try assumption.
    - intros H10 E. destruct (format_02_canonical _ H10) as (c & ds & Ec & Nc).
      rewrite Ec in E. cbn in E. congruence.
    - intros Hb. apply (hours_of_value x Hx Hb). }
  split.
  { repeat split; try assumption; try lia.
    rewrite Vm. apply (minutes_of_value x Hx). }
  pose proof (has_fraction_spec x Hx) as Fr.
  split.
  - intros Hi. apply Fr in Hi. rewrite Hi.
    assert (Hs : (0 <= Qfloor (seconds_of x) <= 59)%Z).
    { split; [apply Qfloor_nonneg, S0 |].
      assert (A : (inject_Z (Qfloor (seconds_of x)) < inject_Z 60)%Q).
      { pose proof (Qfloor_le (seconds_of x)). change (inject_Z 60) with 60%Q. lra. }
      rewrite <- Zlt_Qlt in A. lia. }
    destruct (format_02_spec (Qfloor (seconds_of x)) ltac:(lia)) as (Ds & Vs & _ & Ls).
    specialize (Ls ltac:(lia)).
    repeat split; try assumption; try lia.
    rewrite Vs. apply (seconds_floor x Hx).
  - intros Hn. destruct (has_fraction x) eqn:E.
    2:{ exfalso. apply Hn, Fr. reflexivity. }
    pose proof (millis_bounds _ S0 S1) as [K0 K1].
    set (k := millis (seconds_of x)) in *.
    assert (Hw : (0 <= k / 1000 < 100)%Z).
    { split; [apply Z.div_pos; lia | apply Z.div_lt_upper_bound; lia]. }
    assert (Hf : (0 <= k mod 1000 < 1000)%Z) by (apply Z.mod_pos_bound; lia).
    destruct (format_02_spec (k / 1000) ltac:(lia)) as (Dw & Vw & _ & Lw).
    specialize (Lw ltac:(lia)).
    destruct (fraction_digits (k mod 1000) Hf) as (Dd & Ld & Vd).
    eexists _, _. split; [reflexivity |].
    split; [split; [assumption | lia] |].
    split; [split; [assumption | lia] |].
    rewrite digits_val_app, Vw, Vd, Ld. change (10 ^ Z.of_nat 3)%Z with 1000%Z.
    replace (k / 1000 * 1000 + k mod 1000)%Z with k
      by (pose proof (Z.div_mod k 1000); lia).
    unfold k, millis. apply rhe_proper.
    rewrite (seconds_of_value x Hx). reflexivity.
Qed.

(** C10, witness: 3661.5 seconds. *)
Lemma seconds_to_timecode_format_witness :
  (0 <= 7323 # 2)%Q
  /\ exists hh mm ss,
       seconds_to_timecode (Fin (7323 # 2)) = Ok (hh ++ ":"%char :: mm ++ ":"%char :: ss)
       /\ digits_val hh = hours_of (7323 # 2)
       /\ digits_val mm = (Qfloor ((7323 # 2) / 60) mod 60)%Z.
Proof.
  split; [discriminate |].
  destruct seconds_to_timecode_format as [H _].
  destruct (H (7323 # 2)%Q ltac:(discriminate))
    as (hh & mm & ss & E & (_ & _ & Vh & _) & (_ & Vm) & _).
  exists hh, mm, ss. auto.
Defined.

(* ===================================================================== *)
(** * Part V: further properties of the program                            *)
(* ===================================================================== *)

Import Slots.

(** ** Facts *)

Section StripFacts.

Lemma lstrip_spaces a s :
  Forall (fun c => is_space c = true) a -> lstrip (a ++ s) = lstrip s.
Proof. induction 1 as [| c a Hc _ IH]; [reflexivity |]. cbn. rewrite Hc. exact IH. Qed.

Lemma lstrip_all_spaces a :
  Forall (fun c => is_space c = true) a -> lstrip a = [].
Proof. intros H. rewrite <- (app_nil_r a). rewrite lstrip_spaces by exact H. reflexivity. Qed.

Lemma rstrip_spaces s b :
  Forall (fun c => is_space c = true) b -> rstrip (s ++ b) = rstrip s.
Proof.
  intros H. unfold rstrip. rewrite rev_app_distr, lstrip_spaces; [reflexivity |].
  apply List.Forall_forall. intros c Hc. apply in_rev in Hc.
  rewrite List.Forall_forall in H. auto.
Qed.

Lemma lstrip_app t b :
  lstrip t <> [] -> lstrip (t ++ b) = lstrip t ++ b.
Proof.
  induction t as [| c t IH]; cbn; [congruence |].
  destruct (is_space c); [exact IH | reflexivity].
Qed.

Lemma lstrip_nil_spaces t : lstrip t = [] -> Forall (fun c => is_space c = true) t.
Proof.
  induction t as [| c t IH]; cbn; [constructor |].
  destruct (is_space c) eqn:E; [| discriminate]. intros H. constructor; auto.
Qed.

Lemma strip_spaces a t b :
  Forall (fun c => is_space c = true) a -> Forall (fun c => is_space c = true) b ->
  strip (a ++ t ++ b) = strip t.
Proof.
  intros Ha Hb. unfold strip. rewrite lstrip_spaces by exact Ha.
  destruct (lstrip t) as [| c r] eqn:E.
  - apply lstrip_nil_spaces in E.
    rewrite lstrip_all_spaces by (apply Forall_app; auto). reflexivity.
  - rewrite lstrip_app by congruence. rewrite E. apply rstrip_spaces, Hb.
Qed.

Lemma timecode_chars s h m sec c :
  timecode_fields s h m sec -> In c s -> is_space c = false.
Proof.
  intros (-> & [Dh _] & [Dm _] & Fs) Hc.
  assert (Hs : Forall (fun c => is_space c = false) sec).
  { destruct Fs as [ss [D _] | ss d [D _] [D' _]].
    - apply digits_no_space, D.
    - apply Forall_app. split; [apply digits_no_space, D |].
      constructor; [reflexivity | apply digits_no_space, D']. }
  pose proof (digits_no_space _ Dh) as Hh. pose proof (digits_no_space _ Dm) as Hm.
  rewrite List.Forall_forall in Hs, Hh, Hm.
  apply in_app_or in Hc. destruct Hc as [Hc | [<- | Hc]]; [auto | reflexivity |].
  apply in_app_or in Hc. destruct Hc as [Hc | [<- | Hc]]; [auto | reflexivity | auto].
Qed.

End StripFacts.

Section ExactFacts.
Local Open Scope Q_scope.

Lemma Qred_inject_Z z : Qred (inject_Z z) = inject_Z z.
Proof.
  unfold Qred, inject_Z.
  pose proof (Z.ggcd_gcd z 1) as G. pose proof (Z.ggcd_correct_divisors z 1) as D.
  destruct (Z.ggcd z 1) as [g [aa bb]]. cbn [fst snd] in *.
  rewrite Z.gcd_1_r in G. subst g. destruct D as [D1 D2].
  rewrite Z.mul_1_l in D1, D2. subst aa bb. reflexivity.
Qed.

Lemma rnd_Z_eq z : (0 <= z <= 2 ^ 53)%Z -> rnd (inject_Z z) = inject_Z z.
Proof.
  intros Hz. pose proof (rnd_Z z Hz) as E. unfold rnd in *.
  destruct (Qeq_bool (inject_Z z) 0) eqn:Q0.
  - apply Qeq_bool_iff in Q0.
    assert (z = 0%Z) as ->; [| reflexivity].
    unfold Qeq in Q0. cbn in Q0. lia.
  - etransitivity; [| apply (Qred_inject_Z z)]. apply Qred_complete.
    etransitivity; [symmetry; apply Qred_correct | exact E].
Qed.

Lemma rnd_eq_Z q z : (0 <= z <= 2 ^ 53)%Z -> q == inject_Z z -> rnd q = inject_Z z.
Proof.
  intros Hz E. rewrite <- (rnd_Z_eq z Hz). apply rnd_proper; [| exact E].
  rewrite E. change 0 with (inject_Z 0). rewrite <- Zle_Qle. lia.
Qed.

Lemma round_result_Z q z : (0 <= z <= 2 ^ 53)%Z -> q == inject_Z z -> round_result q = Fin (inject_Z z).
Proof.
  intros Hz E.
  assert (Hq : 0 <= q) by (rewrite E; change 0 with (inject_Z 0); rewrite <- Zle_Qle; lia).
  rewrite (round_result_fin q z Hq Hz) by (rewrite E; lra).
  f_equal. apply rnd_eq_Z; assumption.
Qed.

Lemma whole_seconds_field ss :
  seconds_field ss -> all_digits ss = true -> length ss = 2%nat.
Proof.
  intros [s [_ L] | s d _ _] D; [lia |].
  rewrite all_digits_app in D. cbn in D. rewrite andb_false_r in D. discriminate.
Qed.

Lemma seconds_value_grid sec :
  seconds_field sec -> seconds_value sec == 0 \/ 1 # 1000 <= seconds_value sec.
Proof.
  intros [ss [D L] | ss d [D L] [D' L']].
  - rewrite seconds_value_whole by exact D.
    pose proof (digits_val_nonneg _ D) as H0.
    destruct (Z.eq_dec (digits_val ss) 0%Z) as [-> | N]; [left; reflexivity | right].
    assert (1 <= inject_Z (digits_val ss)) by (change 1 with (inject_Z 1); rewrite <- Zle_Qle; lia).
    change (inject_Z 1) with 1. field_simplify. lra.
  - rewrite seconds_value_frac by exact D.
    assert (Dd : all_digits (ss ++ d) = true) by (rewrite all_digits_app, D, D'; reflexivity).
    pose proof (digits_val_nonneg _ Dd) as H0.
    set (n := digits_val (ss ++ d)) in *.
    assert (P : (1 <= 10 ^ Z.of_nat (length d) <= 1000)%Z).
    { split; [pose proof (Z.pow_pos_nonneg 10 (Z.of_nat (length d))); lia |].
      change 1000%Z with (10 ^ 3)%Z. apply Z.pow_le_mono_r; lia. }
    set (p := (10 ^ Z.of_nat (length d))%Z) in *.
    destruct (Z.eq_dec n 0%Z) as [-> | N]; [left; unfold Qdiv; ring | right].
    assert (Hp : 0 < inject_Z p) by (change 0 with (inject_Z 0); rewrite <- Zlt_Qlt; lia).
    assert (Hp' : inject_Z p <= 1000) by (change 1000 with (inject_Z 1000); rewrite <- Zle_Qle; lia).
    assert (Hn : 1 <= inject_Z n) by (change 1 with (inject_Z 1); rewrite <- Zle_Qle; lia).
    apply Qle_shift_div_l; [exact Hp |]. nra.
Qed.

End ExactFacts.

Section Threshold.
Local Open Scope Q_scope.

(** The least integer that is too large for a float: halfway between the
    largest float and [2^1024]. *)
Lemma below_threshold :
  Qle_bool (rnd (inject_Z (2 ^ 1024 - 2 ^ 970 - 1)) + 100) (inject_Z (2 ^ 1024 - 2 ^ 970 - 1)) = true
  /\ Qle_bool (pow2 1024) (rnd (inject_Z (2 ^ 1024 - 2 ^ 970 - 1))) = false
  /\ Qle_bool (pow2 1024) (rnd (inject_Z (2 ^ 1024 - 2 ^ 970))) = true.
Proof. repeat split; vm_compute; reflexivity. Qed.

Lemma overflows_nonneg q : 0 <= q -> overflows q = Qle_bool (pow2 1024) (rnd q).
Proof. intros H. unfold overflows. rewrite Qabs_pos by (apply rnd_nonneg, H). reflexivity. Qed.

Lemma of_int_threshold N :
  (0 <= N)%Z -> (overflows (inject_Z N) = true <-> (2 ^ 1024 - 2 ^ 970 <= N)%Z).
Proof.
  intros H0. destruct below_threshold as (_ & B1 & B2).
  assert (Nq : 0 <= inject_Z N) by (change 0 with (inject_Z 0); rewrite <- Zle_Qle; lia).
  rewrite overflows_nonneg by exact Nq. split.
  - intros E. apply Qle_bool_iff in E.
    destruct (Z_lt_le_dec N (2 ^ 1024 - 2 ^ 970)) as [L |]; [exfalso | assumption].
    assert (M : rnd (inject_Z N) <= rnd (inject_Z (2 ^ 1024 - 2 ^ 970 - 1))).
    { apply rnd_mono; [exact Nq | rewrite <- Zle_Qle; lia]. }
    apply not_true_iff_false in B1. apply B1. apply Qle_bool_iff.
    apply Qle_trans with (rnd (inject_Z N)); assumption.
  - intros L. apply Qle_bool_iff. apply Qle_bool_iff in B2.
    apply Qle_trans with (rnd (inject_Z (2 ^ 1024 - 2 ^ 970))); [exact B2 |].
    apply rnd_mono; [| rewrite <- Zle_Qle; exact L].
    change 0 with (inject_Z 0). rewrite <- Zle_Qle.
    apply Z.leb_le. vm_compute. reflexivity.
Qed.

Lemma add_seconds_finite N v :
  (0 <= N)%Z -> overflows (inject_Z N) = false -> 0 <= v -> v <= 100 ->
  exists x, fadd (Fin (rnd (inject_Z N))) (Fin (rnd v)) = Fin x /\ 0 <= x.
Proof.
  intros H0 Ho V0 V1. destruct below_threshold as (B0 & B1 & _).
  apply Qle_bool_iff in B0.
  assert (Nq : 0 <= inject_Z N) by (change 0 with (inject_Z 0); rewrite <- Zle_Qle; lia).
  assert (L : (N <= 2 ^ 1024 - 2 ^ 970 - 1)%Z).
  { destruct (Z_lt_le_dec N (2 ^ 1024 - 2 ^ 970)) as [L | L]; [lia |].
    apply of_int_threshold in L; [congruence | exact H0]. }
  set (K := (2 ^ 1024 - 2 ^ 970 - 1)%Z) in *.
  assert (M : rnd (inject_Z N) <= rnd (inject_Z K)).
  { apply rnd_mono; [exact Nq | rewrite <- Zle_Qle; exact L]. }
  assert (A0 : 0 <= rnd v) by (apply rnd_nonneg, V0).
  assert (A1 : rnd v <= 100).
  { apply (rnd_le_Z v 100); [exact V0 | lia | change (inject_Z 100) with 100; exact V1]. }
  assert (R0 : 0 <= rnd (inject_Z N)) by (apply rnd_nonneg, Nq).
  set (q := rnd (inject_Z N) + rnd v).
  assert (Q0 : 0 <= q) by (unfold q; lra).
  assert (Q1 : q <= inject_Z K) by (unfold q; lra).
  exists (rnd q). split; [| apply rnd_nonneg, Q0].
  unfold fadd. fold q. unfold round_result.
  rewrite overflows_nonneg by exact Q0.
  destruct (Qle_bool (pow2 1024) (rnd q)) eqn:E; [exfalso | reflexivity].
  apply Qle_bool_iff in E. apply not_true_iff_false in B1. apply B1, Qle_bool_iff.
  apply Qle_trans with (rnd q); [exact E |].
  apply rnd_mono; assumption.
Qed.

End Threshold.

Section ParseMore.
Local Open Scope Q_scope.

Lemma to_seconds_whole (t h m ss : str) :
  timecode_fields (strip t) h m ss -> all_digits ss = true -> (length h <= 12)%nat ->
  to_seconds t
  = Ok (Fin (inject_Z (digits_val h * 3600 + digits_val m * 60 + digits_val ss))).
Proof.
  intros F D L. destruct (fields_seconds_total t h m ss F) as (N0 & N1 & V0 & V1 & E).
  set (N := (digits_val h * 3600 + digits_val m * 60)%Z) in *.
  destruct F as (_ & _ & _ & Fs).
  pose proof (whole_seconds_field ss Fs D) as Ls.
  pose proof (digits_val_nonneg _ D) as S0. pose proof (digits_val_bound _ D) as S1.
  rewrite Ls in S1. change (10 ^ Z.of_nat 2)%Z with 100%Z in S1.
  assert (P : (10 ^ Z.of_nat (length h) <= 10 ^ 12)%Z) by (apply Z.pow_le_mono_r; lia).
  change (10 ^ 12)%Z with 1000000000000%Z in P.
  assert (B : (N + digits_val ss <= 2 ^ 53)%Z) by (change (2 ^ 53)%Z with 9007199254740992%Z; lia).
  rewrite E. unfold of_int.
  rewrite (no_overflow (inject_Z N) N); [| | lia | lra].
  2:{ change 0 with (inject_Z 0). rewrite <- Zle_Qle. lia. }
  rewrite bind_Ok. rewrite (rnd_Z_eq N) by lia.
  rewrite (rnd_eq_Z (seconds_value ss) (digits_val ss)); [| lia |].
  2:{ rewrite seconds_value_whole by exact D. change (inject_Z 1) with 1. field. }
  unfold fadd. f_equal. apply round_result_Z; [lia |].
  rewrite inject_Z_plus. reflexivity.
Qed.

Lemma to_seconds_finite (t : str) (y : float) :
  to_seconds t = Ok y -> exists x, y = Fin x /\ 0 <= x.
Proof.
  intros H.
  destruct (fullmatch TIME_PATTERN (strip t)) as [g |] eqn:M.
  2:{ unfold to_seconds in H. rewrite M in H. discriminate. }
  apply fullmatch_timecode_inv in M. destruct M as (h & m & sec & _ & F).
  destruct (fields_seconds_total t h m sec F) as (N0 & _ & V0 & V1 & E).
  rewrite E in H. unfold of_int in H.
  destruct (overflows _) eqn:O; [discriminate |].
  rewrite bind_Ok in H. injection H as <-.
  apply add_seconds_finite; assumption.
Qed.

End ParseMore.

Section FormatMore.
Local Open Scope Q_scope.

Lemma format_02_length n k :
  (0 <= n < 10 ^ Z.of_nat k)%Z -> (2 <= k)%nat -> (length (format_02 n) <= k)%nat.
Proof.
  intros Hn Hk. unfold format_02.
  destruct (Z.ltb_spec n 0) as [? | _]; [lia |].
  rewrite zfill_length.
  destruct (str_of_nonneg_spec n ltac:(lia)) as (_ & _ & _ & H).
  specialize (H k ltac:(lia) ltac:(lia)). lia.
Qed.

Lemma has_fraction_whole n : (0 <= n)%Z -> has_fraction (inject_Z n) = false.
Proof.
  intros H. apply has_fraction_spec.
  - change 0 with (inject_Z 0). rewrite <- Zle_Qle. exact H.
  - rewrite Qfloor_Z. reflexivity.
Qed.

Lemma has_fraction_near_60 x :
  0 <= x -> 119999 # 2000 <= seconds_of x -> has_fraction x = true.
Proof.
  intros Hx Hs. destruct (has_fraction x) eqn:E; [reflexivity | exfalso].
  pose proof (has_fraction_false x Hx E) as Ei.
  destruct (seconds_of_bounds x Hx) as [_ S1].
  set (f := Qfloor (seconds_of x)) in *.
  assert (A : inject_Z 59 < inject_Z f) by (change (inject_Z 59) with 59; lra).
  assert (B : inject_Z f < inject_Z 60) by (change (inject_Z 60) with 60; lra).
  rewrite <- Zlt_Qlt in A, B. lia.
Qed.

Lemma millis_near_60 s : 119999 # 2000 <= s -> s < 60 -> millis s = 60000%Z.
Proof.
  intros H0 H1. unfold millis.
  assert (F : Qfloor (s * 1000) = 59999%Z).
  { apply Qfloor_unique; change (inject_Z 59999) with 59999; lra. }
  destruct (rhe_cases (s * 1000)) as [[A _] | [[_ ->] | [_ ->]]]; rewrite F in *.
  - change (inject_Z 59999) with 59999 in A. lra.
  - reflexivity.
  - reflexivity.
Qed.

End FormatMore.

Section NegativeFacts.
Local Open Scope Q_scope.

Lemma Qfloor_opp_nonint x :
  ~ x == inject_Z (Qfloor x) -> Qfloor (- x) = (- Qfloor x - 1)%Z.
Proof.
  intros N. pose proof (Qfloor_le x) as L. pose proof (Qlt_floor x) as U.
  rewrite inject_Z_plus in U. change (inject_Z 1) with 1 in U.
  apply Qfloor_unique.
  - unfold Z.sub. rewrite inject_Z_plus, !inject_Z_opp. change (inject_Z 1) with 1. lra.
  - unfold Z.sub. rewrite inject_Z_plus, !inject_Z_opp. change (inject_Z 1) with 1.
    assert (inject_Z (Qfloor x) < x); [| lra].
    apply Qle_lteq in L. destruct L as [L | L]; [exact L | exfalso; apply N; symmetry; exact L].
Qed.

Lemma rhe_opp x : round_half_even (- x) = (- round_half_even x)%Z.
Proof.
  destruct (Qeq_dec x (inject_Z (Qfloor x))) as [E | N].
  - rewrite (rhe_proper x _ E), rhe_Z.
    rewrite (rhe_proper (- x) (inject_Z (- Qfloor x))); [apply rhe_Z |].
    rewrite inject_Z_opp, <- E. reflexivity.
  - pose proof (Qfloor_opp_nonint x N) as F.
    destruct (rhe_cases x) as [[A ->] | [[A ->] | [A ->]]];
      destruct (rhe_cases (- x)) as [[B ->] | [[B ->] | [B ->]]];
      rewrite F in *; unfold Z.sub in B;
      rewrite inject_Z_plus, !inject_Z_opp in B; change (inject_Z 1) with 1 in B;
      try lia; try (exfalso; lra).
    replace (- Qfloor x - 1)%Z with (- (Qfloor x + 1))%Z by lia.
    rewrite Z.even_opp, Z.even_add. cbn.
    destruct (Z.even (Qfloor x)); cbn; lia.
Qed.

Lemma Qabs_opp_eq q : Qabs (- q) = Qabs q.
Proof. destruct q as [n d]. cbn. rewrite Z.abs_opp. reflexivity. Qed.

Lemma rnd_opp q : rnd (- q) == - rnd q.
Proof.
  destruct (Qeq_dec q 0) as [E | N].
  - rewrite (rnd_zero q E), (rnd_zero (- q)); [reflexivity | rewrite E; reflexivity].
  - assert (N' : ~ - q == 0) by (intros H; apply N; lra).
    rewrite (rnd_eq q N), (rnd_eq (- q) N').
    unfold fexp. rewrite Qabs_opp_eq.
    set (e := Z.max (ilog2 (Qabs q) - 52) (-1074)).
    rewrite (rhe_proper (- q * pow2 (- e)) (- (q * pow2 (- e)))) by ring.
    rewrite rhe_opp, inject_Z_opp. ring.
Qed.

Lemma rnd_nonpos q : q <= 0 -> rnd q <= 0.
Proof.
  intros H. assert (R : rnd q == - rnd (- q)) by (rewrite rnd_opp; ring).
  rewrite R. pose proof (rnd_nonneg (- q) ltac:(lra)). lra.
Qed.

Lemma rnd_le_neg q z : (0 <= z <= 2 ^ 53)%Z -> q <= - inject_Z z -> rnd q <= - inject_Z z.
Proof.
  intros Hz H. assert (R : rnd q == - rnd (- q)) by (rewrite rnd_opp; ring).
  rewrite R. pose proof (rnd_ge_Z (- q) z Hz ltac:(lra)). lra.
Qed.

Lemma Qceiling_neg q : q <= -1 -> (Qceiling q <= -1)%Z.
Proof.
  intros H. unfold Qceiling.
  assert (1 <= Qfloor (- q))%Z; [| lia].
  change 1%Z with (Qfloor 1). apply Qfloor_resp_le. lra.
Qed.

(** [x // 3600] for a negative [x] is at most -1. *)
Lemma floordiv_negative x : x < 0 -> floordiv x 3600 <= -1.
Proof.
  intros Hx. unfold floordiv.
  set (md := fmod x 3600).
  assert (T : Qtrunc (x / 3600) = Qceiling (x / 3600)).
  { unfold Qtrunc. replace (Qltb (x / 3600) 0) with true; [reflexivity |].
    symmetry. apply Qltb_true. apply Qlt_shift_div_r; lra. }
  set (k := Qceiling (x / 3600)) in *.
  assert (K0 : (k <= 0)%Z).
  { unfold k, Qceiling.
    assert (0 <= Qfloor (- (x / 3600)))%Z; [| lia].
    apply Qfloor_nonneg. assert (x / 3600 <= 0); [| lra].
    apply Qle_shift_div_r; lra. }
  assert (Kx : x / 3600 <= inject_Z k) by apply Qle_ceiling.
  assert (Kx' : x <= 3600 * inject_Z k).
  { assert (E : x == (x / 3600) * 3600) by (field; lra). lra. }
  assert (Md : md == x - 3600 * inject_Z k).
  { unfold md, fmod. rewrite Qred_correct, T. reflexivity. }
  assert (Kq : inject_Z k <= 0) by (change 0 with (inject_Z 0); rewrite <- Zle_Qle; exact K0).
  assert (Md0 : md <= 0) by lra.
  assert (D0 : rnd (rnd (x - md) / 3600) <= 0).
  { apply rnd_nonpos. assert (rnd (x - md) <= 0) by (apply rnd_nonpos; lra).
    apply Qle_shift_div_r; lra. }
  set (dv0 := rnd (rnd (x - md) / 3600)) in *.
  assert (DV : (if Qeq_bool md 0 then dv0
                else if negb (Bool.eqb (Qltb 3600 0) (Qltb md 0)) then rnd (dv0 - 1) else dv0)
               <= -1).
  { destruct (Qeq_bool md 0) eqn:E0.
    - apply Qeq_bool_iff in E0.
      assert (k <= -1)%Z.
      { destruct (Z.eq_dec k 0%Z) as [K | ?]; [| lia].
        rewrite K in Md. change (inject_Z 0) with 0 in Md. lra. }
      assert (inject_Z k <= -1).
      { change (-1) with (inject_Z (-1)). rewrite <- Zle_Qle. lia. }
      unfold dv0. apply (rnd_le_neg _ 1); [lia |].
      change (inject_Z 1) with 1.
      assert (rnd (x - md) <= - inject_Z 3600).
      { apply rnd_le_neg; [lia |]. change (inject_Z 3600) with 3600. lra. }
      change (inject_Z 3600) with 3600 in *.
      apply Qle_shift_div_r; lra.
    - apply Qeq_bool_false in E0.
      assert (Hm : Qltb md 0 = true) by (apply Qltb_true; lra).
      rewrite Hm.
      replace (negb (Bool.eqb (Qltb 3600 0) true)) with true by reflexivity.
      apply (rnd_le_neg _ 1); [lia |]. change (inject_Z 1) with 1. lra. }
  set (dv := if Qeq_bool md 0 then dv0
             else if negb (Bool.eqb (Qltb 3600 0) (Qltb md 0)) then rnd (dv0 - 1) else dv0) in *.
  destruct (Qeq_bool dv 0) eqn:E0; [apply Qeq_bool_iff in E0; lra |].
  pose proof (Qfloor_le dv) as Fl.
  destruct (Qltb (1 # 2) (dv - inject_Z (Qfloor dv))) eqn:G; [| lra].
  apply Qltb_true in G.
  assert (Qfloor dv <= -2)%Z.
  { assert (inject_Z (Qfloor dv) < inject_Z (-1)); [| rewrite <- Zlt_Qlt in *; lia].
    change (inject_Z (-1)) with (-1). lra. }
  apply (rnd_le_neg _ 1); [lia |]. change (inject_Z 1) with 1.
  assert (inject_Z (Qfloor dv) <= inject_Z (-2)) by (rewrite <- Zle_Qle; lia).
  change (inject_Z (-2)) with (-2) in *. lra.
Qed.

Lemma rstrip_head c r : is_space c = false -> exists r', rstrip (c :: r) = c :: r'.
Proof.
  intros Hc. unfold rstrip. cbn [rev].
  assert (H : forall l, exists l', lstrip (l ++ [c]) = l' ++ [c]).
  { induction l as [| a l IH]; cbn.
    - rewrite Hc. exists []. reflexivity.
    - destruct (is_space a); [exact IH | exists (a :: l); reflexivity]. }
  destruct (H (rev r)) as [l' ->]. exists (rev l'). rewrite rev_app_distr. reflexivity.
Qed.

End NegativeFacts.

Section PercentFacts.

Lemma completed_all_done (bars : gmap string Bar) :
  map_Forall (fun _ b => (total_or_index b <= index b)%Z) bars ->
  completed bars = sum_totals bars.
Proof.
  unfold completed, sum_totals. rewrite !map_fold_foldr.
  intros H. apply map_Forall_to_list in H.
  induction (map_to_list bars) as [| [k b] l IH]; [reflexivity |].
  inversion H as [| ? ? Hb Hl]; subst. specialize (IH Hl).
  cbn [foldr uncurry]. cbn in Hb. cbn. lia.
Qed.

Lemma completed_none_done (bars : gmap string Bar) :
  map_Forall (fun _ b => nonneg_bar b /\ index b = 0%Z) bars -> completed bars = 0%Z.
Proof.
  unfold completed. rewrite !map_fold_foldr.
  intros H. apply map_Forall_to_list in H.
  induction (map_to_list bars) as [| [k b] l IH]; [reflexivity |].
  inversion H as [| ? ? Hb Hl]; subst. specialize (IH Hl).
  cbn [foldr uncurry]. cbn in Hb. destruct Hb as [Hb Hi].
  pose proof (nonneg_bar_term b Hb). cbn. lia.
Qed.

Lemma grand_total_nonzero (bars : gmap string Bar) : grand_total bars <> 0%Z.
Proof. unfold grand_total. destruct (Z.eqb_spec (sum_totals bars) 0); lia. Qed.

Local Open Scope Q_scope.

Lemma ratio_one g : (1 <= g)%Z -> (r ← int_truediv g g; to_int (fmul r (Fin 100))) = Ok 100%Z.
Proof.
  intros Hg. unfold int_truediv.
  destruct (Z.eqb_spec g 0) as [? | _]; [lia |].
  assert (Gq : 0 < inject_Z g) by (change 0 with (inject_Z 0); rewrite <- Zlt_Qlt; lia).
  assert (E : inject_Z g / inject_Z g == 1) by (field; lra).
  assert (R : rnd (inject_Z g / inject_Z g) = rnd 1).
  { apply rnd_proper; [rewrite E; lra | exact E]. }
  unfold overflows. rewrite R. vm_compute. reflexivity.
Qed.

Lemma ratio_zero g : g <> 0%Z -> (r ← int_truediv 0 g; to_int (fmul r (Fin 100))) = Ok 0%Z.
Proof.
  intros Hg. unfold int_truediv.
  destruct (Z.eqb_spec g 0) as [? | _]; [lia |].
  assert (E : inject_Z 0 / inject_Z g == 0) by (unfold Qdiv; change (inject_Z 0) with 0; ring).
  unfold overflows. rewrite (rnd_zero _ E). vm_compute. reflexivity.
Qed.

End PercentFacts.

Section StartTrimFacts.
Context (exists_ : Path -> bool).

Lemma to_seconds_rejects t :
  ~ is_timecode (strip t) -> to_seconds t = Raise (ValueError TIMECODE_MSG).
Proof.
  intros N. unfold to_seconds. apply fullmatch_timecode_none in N. rewrite N. reflexivity.
Qed.

(** [start_trim] once the source check has passed. *)
Lemma start_trim_checked win fx video :
  video_path win = Some video -> exists_ video = true ->
  start_trim exists_ (win, fx)
  = match to_seconds (start_edit win) with
    | Raise (ValueError m) => (Ok tt, (win, fx ++ [ErrorBox m]))
    | Raise e => (Raise e, (win, fx))
    | Ok start_sec =>
        match to_seconds (end_edit win) with
        | Raise (ValueError m) => (Ok tt, (win, fx ++ [ErrorBox m]))
        | Raise e => (Raise e, (win, fx))
        | Ok end_sec =>
            if fle end_sec start_sec
            then (Ok tt, (win, fx ++ [ErrorBox "End time must be greater than start time."]))
            else
              let w := TrimWorker.mkWorker video (mkPath (strip (out_edit win)))
                                           start_sec end_sec in
              (Ok tt,
               (mkWindow (video_path win) (start_edit win) (end_edit win) (out_edit win)
                         false 0%Z (Some w),
                fx ++ [Started w]))
        end
    end.
Proof.
  intros Ev Ex.
  unfold start_trim, mbind, prog_bind, read_state, error, prepare, update_state.
  cbn [Path_bool negb orb]. rewrite Ev, Ex. cbn [negb].
  destruct (to_seconds (start_edit win)) as [start_sec | e].
  - destruct (to_seconds (end_edit win)) as [end_sec | e].
    + destruct (fle end_sec start_sec); [reflexivity |]. cbn. rewrite Ev. reflexivity.
    + destruct e; reflexivity.
  - destruct e; reflexivity.
Qed.

Lemma start_trim_no_source win fx :
  (video_path win = None \/ exists v, video_path win = Some v /\ exists_ v = false) ->
  start_trim exists_ (win, fx)
  = (Ok tt, (win, fx ++ [ErrorBox "Please select a source video first."])).
Proof.
  unfold start_trim, mbind, prog_bind, read_state, error, update_state.
  cbn [Path_bool negb orb].
  intros [-> | (v & -> & ->)]; reflexivity.
Qed.

(** What a started worker was built from. *)
Lemma start_trim_started win fx win' fx' w :
  start_trim exists_ (win, fx) = (Ok tt, (win', fx')) -> In (Started w) (drop (length fx) fx') ->
  video_path win = Some (src w) /\ exists_ (src w) = true
  /\ dst w = mkPath (strip (out_edit win))
  /\ to_seconds (start_edit win) = Ok (start_time w)
  /\ to_seconds (end_edit win) = Ok (end_time w)
  /\ fle (end_time w) (start_time w) = false
  /\ win' = mkWindow (video_path win) (start_edit win) (end_edit win) (out_edit win)
                     false 0%Z (Some w)
  /\ fx' = fx ++ [Started w].
Proof.
  intros E Hw.
  assert (Hd : forall e, drop (length fx) (fx ++ [e]) = [e]).
  { intros e. rewrite drop_app_length. reflexivity. }
  destruct (video_path win) as [video |] eqn:Ev.
  2:{ rewrite start_trim_no_source in E by (left; exact Ev).
      injection E as <- <-. rewrite Hd in Hw. destruct Hw as [? | []]. discriminate. }
  destruct (exists_ video) eqn:Ex.
  2:{ rewrite start_trim_no_source in E by (right; eauto).
      injection E as <- <-. rewrite Hd in Hw. destruct Hw as [? | []]. discriminate. }
  rewrite (start_trim_checked win fx video Ev Ex) in E.
  destruct (to_seconds (start_edit win)) as [start_sec | e] eqn:Es.
  - destruct (to_seconds (end_edit win)) as [end_sec | e] eqn:Ee.
    + destruct (fle end_sec start_sec) eqn:Ef.
      * injection E as <- <-. rewrite Hd in Hw. destruct Hw as [? | []]. discriminate.
      * cbv zeta in E. injection E as <- <-. rewrite Hd in Hw.
        destruct Hw as [Hw | []]. injection Hw as <-. cbn.
        repeat split; try reflexivity; try assumption. rewrite Ev. reflexivity.
    + destruct e; try discriminate.
      injection E as <- <-. rewrite Hd in Hw. destruct Hw as [? | []]. discriminate.
  - destruct e; try discriminate.
    injection E as <- <-. rewrite Hd in Hw. destruct Hw as [? | []]. discriminate.
Qed.

End StartTrimFacts.

Section DeliverFacts.




End DeliverFacts.

Section BrowseFacts.

Lemma startswith_app p s : startswith (p ++ s) p = true.
Proof. induction p as [| c p IH]; [reflexivity |]. cbn. rewrite Ascii.eqb_refl. exact IH. Qed.

Lemma endswith_app s suffix : endswith (s ++ suffix) suffix = true.
Proof. unfold endswith. rewrite rev_app_distr. apply startswith_app. Qed.

Lemma lower_app a b : lower (a ++ b) = lower a ++ lower b.
Proof. apply map_app. Qed.

Lemma browse_output_name_nonempty fname :
  fname <> [] ->
  (if endswith (lower fname) (lit ".mp4") then fname else fname ++ lit ".mp4") <> [].
Proof. intros H. destruct (endswith _ _); [exact H |]. destruct fname; [congruence | discriminate]. Qed.

End BrowseFacts.

Section BrowseFileFacts.
Context (VideoFileClip : str -> result Clip).

(** [browse_file] on a name the user chose. *)
Lemma browse_file_chosen fname v :
  fname <> [] ->
  browse_file VideoFileClip fname v
  = (Ok tt,
     match VideoFileClip fname with
     | Ok clip =>
         match seconds_to_timecode (duration clip) with
         | Ok text => mkView (set_end_edit text (set_video_path (mkPath fname) (win v))) fname
         | Raise _ => mkView (set_video_path (mkPath fname) (win v)) fname
         end
     | Raise _ => mkView (set_video_path (mkPath fname) (win v)) fname
     end).
Proof.
  intros H. destruct fname as [| c r]; [congruence |].
  unfold browse_file, try_except, mbind, prog_bind, update_state, lift, mret, prog_ret.
  destruct (VideoFileClip (c :: r)) as [clip | e]; [| reflexivity].
  destruct (seconds_to_timecode (duration clip)); reflexivity.
Qed.

End BrowseFileFacts.

(** ** Properties *)

Section Properties.
Local Open Scope Q_scope.

(** *** [to_seconds] *)

(** X1: [to_seconds] ignores the white space around the timecode that
    lies below code point 256 (tab, line feed, vertical tab, form feed,
    carriage return, the separators 28 to 31, space, next line and no-break
    space), and rejects with the timecode error every text that still holds
    one of these characters once stripped. *)
Theorem to_seconds_whitespace :
  (forall a t b : str,
      Forall (fun c => is_space c = true) a -> Forall (fun c => is_space c = true) b ->
      to_seconds (a ++ t ++ b) = to_seconds t)
  /\ (forall (t : str) (c : ascii),
         In c (strip t) -> is_space c = true ->
         to_seconds t = Raise (ValueError TIMECODE_MSG)).
Proof.
  split.
  - intros a t b Ha Hb. unfold to_seconds. rewrite strip_spaces by assumption. reflexivity.
  - intros t c Hc Hs. unfold to_seconds.
    destruct (fullmatch TIME_PATTERN (strip t)) as [g |] eqn:E; [exfalso | reflexivity].
    apply fullmatch_timecode_inv in E. destruct E as (h & m & sec & _ & F).
    pose proof (timecode_chars _ _ _ _ c F Hc). congruence.
Qed.

(** X1, witness. *)
Lemma to_seconds_whitespace_witness :
  Forall (fun c => is_space c = true) (lit " ")
  /\ to_seconds (lit " " ++ lit "00:00:10" ++ lit " ") = to_seconds (lit "00:00:10")
  /\ In " "%char (strip (lit "00: 00:10")) /\ is_space " " = true
  /\ to_seconds (lit "00: 00:10") = Raise (ValueError TIMECODE_MSG).
Proof.
  assert (S : Forall (fun c => is_space c = true) (lit " ")) by (repeat constructor).
  assert (I : In " "%char (strip (lit "00: 00:10"))) by (vm_compute; tauto).
  destruct to_seconds_whitespace as [H1 H2].
  split; [exact S |]. split; [exact (H1 _ _ _ S S) |].
  split; [exact I |]. split; [reflexivity |]. exact (H2 _ _ I eq_refl).
Defined.

(** X2: a timecode without fraction and with at most twelve hour digits
    parses to exactly [3600 * hours + 60 * minutes + seconds], the three
    fields read as decimal numbers; minutes and seconds above 59 are added
    like any other value. *)
Theorem to_seconds_whole_exact (t h m ss : str) :
  timecode_fields (strip t) h m ss -> all_digits ss = true -> (length h <= 12)%nat ->
  to_seconds t
  = Ok (Fin (inject_Z (digits_val h * 3600 + digits_val m * 60 + digits_val ss))).
Proof. apply to_seconds_whole. Qed.

Lemma fields_01_02_03 :
  timecode_fields (strip (lit "01:02:03")) (lit "01") (lit "02") (lit "03").
Proof.
  split; [vm_compute; reflexivity |].
  split; [split; [reflexivity | cbn; lia] |].
  split; [split; [reflexivity | cbn; lia] |].
  apply seconds_whole. split; [reflexivity | cbn; lia].
Defined.

(** X2, witness. *)
Lemma to_seconds_whole_exact_witness :
  timecode_fields (strip (lit "01:02:03")) (lit "01") (lit "02") (lit "03")
  /\ all_digits (lit "03") = true /\ (length (lit "01") <= 12)%nat
  /\ to_seconds (lit "01:02:03") = Ok (Fin (inject_Z 3723)).
Proof.
  split; [exact fields_01_02_03 |]. split; [reflexivity |]. split; [cbn; lia |].
  exact (to_seconds_whole_exact _ _ _ _ fields_01_02_03 eq_refl ltac:(cbn; lia)).
Defined.

(** X3: with at most eight hour digits, the float [to_seconds] returns
    is within 1/20000 of a second of the exact decimal value of the
    timecode. *)
Theorem to_seconds_accuracy (t h m sec : str) :
  timecode_fields (strip t) h m sec -> (length h <= 8)%nat ->
  exists x,
    to_seconds t = Ok (Fin x)
    /\ Qabs (x - (inject_Z (digits_val h * 3600 + digits_val m * 60) + seconds_value sec))
       <= 1 # 20000.
Proof.
  intros F L. destruct (fields_seconds_total t h m sec F) as (N0 & N1 & V0 & V1 & E).
  set (N := (digits_val h * 3600 + digits_val m * 60)%Z) in *.
  assert (G : seconds_value sec == 0 \/ 1 # 1000 <= seconds_value sec).
  { destruct F as (_ & _ & _ & Fs). apply seconds_value_grid, Fs. }
  set (v := seconds_value sec) in *.
  assert (P : (10 ^ Z.of_nat (length h) <= 10 ^ 8)%Z) by (apply Z.pow_le_mono_r; lia).
  change (10 ^ 8)%Z with 100000000%Z in P.
  assert (Hz : (0 <= N <= 2 ^ 53)%Z) by (change (2 ^ 53)%Z with 9007199254740992%Z; lia).
  assert (Hz' : (0 <= N + 100 <= 2 ^ 53)%Z) by (change (2 ^ 53)%Z with 9007199254740992%Z; lia).
  assert (Nq : 0 <= inject_Z N) by (change 0 with (inject_Z 0); rewrite <- Zle_Qle; lia).
  assert (Nu : inject_Z N <= 360000006000).
  { change 360000006000 with (inject_Z 360000006000). rewrite <- Zle_Qle. lia. }
  assert (Cv : v - v * (1 # 9007199254740992) <= rnd v /\ rnd v <= v + v * (1 # 9007199254740992)).
  { apply rnd_close. destruct G as [G | G]; [left; exact G | right; lra]. }
  assert (A1 : rnd v <= 100).
  { apply (rnd_le_Z v 100); [exact V0 | lia | change (inject_Z 100) with 100; exact V1]. }
  assert (A0 : 0 <= rnd v) by (apply rnd_nonneg, V0).
  set (q := inject_Z N + rnd v).
  assert (Gq : q == 0 \/ 1 # 1000000 <= q).
  { destruct (Z.eq_dec N 0%Z) as [N0' | N0'].
    - unfold q. rewrite N0'. change (inject_Z 0) with 0.
      destruct G as [G | G].
      + left. rewrite (rnd_zero v G). reflexivity.
      + right. lra.
    - right. assert (1 <= inject_Z N) by (change 1 with (inject_Z 1); rewrite <- Zle_Qle; lia).
      unfold q. lra. }
  assert (Cq : q - q * (1 # 9007199254740992) <= rnd q /\ rnd q <= q + q * (1 # 9007199254740992))
    by (apply rnd_close, Gq).
  exists (rnd q). split.
  - rewrite E. unfold of_int.
    rewrite (no_overflow (inject_Z N) N); [| exact Nq | exact Hz | lra].
    rewrite bind_Ok, (rnd_Z_eq N Hz). unfold fadd. fold q.
    f_equal. apply (round_result_fin q (N + 100)); [unfold q; lra | exact Hz' |].
    unfold q. rewrite inject_Z_plus. change (inject_Z 100) with 100. lra.
  - apply Qabs_Qle_condition. unfold q in *. split; lra.
Qed.

(** X3, witness. *)
Lemma to_seconds_accuracy_witness :
  timecode_fields (strip (lit "01:01:01.500")) (lit "01") (lit "01") (lit "01.500")
  /\ (length (lit "01") <= 8)%nat
  /\ exists x, to_seconds (lit "01:01:01.500") = Ok (Fin x)
               /\ Qabs (x - (inject_Z 3660 + seconds_value (lit "01.500"))) <= 1 # 20000.
Proof.
  split; [exact fields_01_01_01_500 |]. split; [cbn; lia |].
  exact (to_seconds_accuracy _ _ _ _ fields_01_01_01_500 ltac:(cbn; lia)).
Defined.

(** X4: whatever [to_seconds] returns is a finite float that is not
    negative: never an infinity, never NaN. *)
Theorem to_seconds_result_finite (t : str) (y : float) :
  to_seconds t = Ok y -> exists x, y = Fin x /\ 0 <= x.
Proof.
  intros H. destruct (to_seconds_finite t y H) as (x & E & X0).
  exists x. split; assumption.
Qed.

(** X4, witness. *)
Lemma to_seconds_result_finite_witness :
  to_seconds (lit "00:00:10") = Ok (Fin 10)
  /\ exists x, Fin 10 = Fin x /\ 0 <= x.
Proof.
  assert (E : to_seconds (lit "00:00:10") = Ok (Fin 10)) by (vm_compute; reflexivity).
  split; [exact E |]. exact (to_seconds_result_finite _ _ E).
Defined.

(** X5: on a text of the grammar (hour field within the 4300 digits
    the interpreter accepts for [int]), [to_seconds] raises [OverflowError]
    exactly when [3600 * hours + 60 * minutes] is at least [2^1024 - 2^970],
    the first integer too large for a float; below that it returns a finite
    float that is not negative. *)
Theorem to_seconds_overflow_threshold (t h m sec : str) :
  timecode_fields (strip t) h m sec -> (length h <= 4300)%nat ->
  (to_seconds t = Raise (OverflowError "int too large to convert to float")
   <-> (2 ^ 1024 - 2 ^ 970 <= digits_val h * 3600 + digits_val m * 60)%Z)
  /\ ((digits_val h * 3600 + digits_val m * 60 < 2 ^ 1024 - 2 ^ 970)%Z ->
      exists x, to_seconds t = Ok (Fin x) /\ 0 <= x).
Proof.
  intros F _. destruct (fields_seconds_total t h m sec F) as (N0 & _ & V0 & V1 & E).
  set (N := (digits_val h * 3600 + digits_val m * 60)%Z) in *.
  rewrite E. unfold of_int. destruct (overflows (inject_Z N)) eqn:O;
    pose proof (of_int_threshold N N0) as T.
  - apply T in O. split; [split; [intros _; exact O | reflexivity] |].
    intros L. lia.
  - rewrite bind_Ok. split.
    + split; [discriminate |]. intros L. apply T in L. congruence.
    + intros _. destruct (add_seconds_finite N _ N0 O V0 V1) as (x & Ex & X0).
      exists x. rewrite Ex. auto.
Qed.

(** X5, witness. *)
Lemma to_seconds_overflow_threshold_witness :
  timecode_fields (strip (lit "01:02:03")) (lit "01") (lit "02") (lit "03")
  /\ (length (lit "01") <= 4300)%nat
  /\ (digits_val (lit "01") * 3600 + digits_val (lit "02") * 60 < 2 ^ 1024 - 2 ^ 970)%Z
  /\ exists x, to_seconds (lit "01:02:03") = Ok (Fin x) /\ 0 <= x.
Proof.
  assert (L : (length (lit "01") <= 4300)%nat) by (cbn; lia).
  assert (B : (digits_val (lit "01") * 3600 + digits_val (lit "02") * 60
               < 2 ^ 1024 - 2 ^ 970)%Z) by (apply Z.ltb_lt; vm_compute; reflexivity).
  split; [exact fields_01_02_03 |]. split; [exact L |]. split; [exact B |].
  exact (proj2 (to_seconds_overflow_threshold _ _ _ _ fields_01_02_03 L) B).
Defined.

(** *** [seconds_to_timecode] *)

(** X6: what [seconds_to_timecode] prints for a non-negative finite
    float is always a text of the grammar of [to_seconds], with no white
    space to strip; up to [2^40] seconds [to_seconds] reads it back to within
    a millisecond of the float that was printed. *)
Theorem format_then_parse :
  (forall x : Q, 0 <= x ->
     exists s, seconds_to_timecode (Fin x) = Ok s /\ strip s = s /\ is_timecode s)
  /\ (forall x : Q, 0 <= x -> x <= inject_Z (2 ^ 40) ->
        exists s y, seconds_to_timecode (Fin x) = Ok s /\ to_seconds s = Ok (Fin y)
                    /\ Qabs (y - x) < 1 # 1000).
Proof.
  split.
  - intros x Hx. destruct (formatted_fields x Hx) as (s & sec & E & St & F & _).
    exists s. split; [exact E |]. split; [exact St |]. eexists _, _, _. exact F.
  - intros x Hx Hb. destruct (format_parse x Hx Hb) as (s & y & E1 & E2 & Y1 & Y2).
    exists s, y. split; [exact E1 |]. split; [exact E2 |].
    apply Qabs_Qlt_condition. split; lra.
Qed.

(** X6, witness. *)
Lemma format_then_parse_witness :
  0 <= 7323 # 2 /\ 7323 # 2 <= inject_Z (2 ^ 40)
  /\ exists s y, seconds_to_timecode (Fin (7323 # 2)) = Ok s /\ to_seconds s = Ok (Fin y)
                 /\ Qabs (y - (7323 # 2)) < 1 # 1000.
Proof.
  assert (H0 : 0 <= 7323 # 2) by (apply Qle_bool_iff; reflexivity).
  assert (H1 : 7323 # 2 <= inject_Z (2 ^ 40)) by (apply Qle_bool_iff; reflexivity).
  split; [exact H0 |]. split; [exact H1 |].
  exact (proj2 format_then_parse _ H0 H1).
Defined.

(** X7: a whole number of seconds up to [2^40] is printed by
    [seconds_to_timecode] and read back by [to_seconds] exactly. *)
Theorem whole_seconds_round_trip (n : Z) :
  (0 <= n <= 2 ^ 40)%Z ->
  exists s, seconds_to_timecode (Fin (inject_Z n)) = Ok s
            /\ to_seconds s = Ok (Fin (inject_Z n)).
Proof.
  intros Hn. set (x := inject_Z n).
  assert (Hx : 0 <= x) by (unfold x; change 0 with (inject_Z 0); rewrite <- Zle_Qle; lia).
  assert (Hb : x <= inject_Z (2 ^ 53)).
  { unfold x. rewrite <- Zle_Qle. apply Z.le_trans with (2 ^ 40)%Z; [lia |].
    apply Z.pow_le_mono_r; lia. }
  pose proof (has_fraction_whole n ltac:(lia)) as Fr. fold x in Fr.
  pose proof (hours_of_nonneg x Hx) as Hh.
  destruct (minutes_of_exact x Hx) as [_ Hm].
  destruct (seconds_of_bounds x Hx) as [S0 S1].
  pose proof (has_fraction_false x Hx Fr) as Ei.
  assert (Hi : (0 <= Qfloor (seconds_of x) <= 59)%Z).
  { split; [apply Qfloor_nonneg, S0 |].
    assert (A : inject_Z (Qfloor (seconds_of x)) < inject_Z 60)
      by (change (inject_Z 60) with 60; lra).
    rewrite <- Zlt_Qlt in A. lia. }
  destruct (format_02_spec (hours_of x) Hh) as (Dh & Vh & Lh & _).
  destruct (format_02_spec (minutes_of x) ltac:(lia)) as (Dm & Vm & _ & Lm).
  destruct (format_02_spec (Qfloor (seconds_of x)) ltac:(lia)) as (Di & Vi & _ & Li).
  specialize (Lm ltac:(lia)). specialize (Li ltac:(lia)).
  pose proof (components_sum x Hx Hb) as Sum.
  assert (Val : (hours_of x * 3600 + minutes_of x * 60 + Qfloor (seconds_of x))%Z = n).
  { assert (Sum' : inject_Z n
                   == inject_Z (hours_of x * 3600 + minutes_of x * 60 + Qfloor (seconds_of x))).
    { rewrite inject_Z_plus, <- Ei. exact Sum. }
    rewrite inject_Z_injective in Sum'. symmetry. exact Sum'. }
  assert (Hl : (length (format_02 (hours_of x)) <= 12)%nat).
  { apply format_02_length; [| lia]. split; [lia |].
    change (10 ^ Z.of_nat 12)%Z with 1000000000000%Z.
    assert (n <= 1099511627776)%Z by (change 1099511627776%Z with (2 ^ 40)%Z; lia). lia. }
  eexists. split.
  - rewrite (seconds_to_timecode_nonneg x Hx), Fr. reflexivity.
  - set (hs := format_02 (hours_of x)) in *. set (ms := format_02 (minutes_of x)) in *.
    set (ss := format_02 (Qfloor (seconds_of x))) in *.
    assert (St : strip (hs ++ ":"%char :: ms ++ ":"%char :: ss)
                 = hs ++ ":"%char :: ms ++ ":"%char :: ss).
    { apply strip_id. apply Forall_app. split; [apply digits_no_space, Dh |].
      constructor; [reflexivity |]. apply Forall_app. split; [apply digits_no_space, Dm |].
      constructor; [reflexivity | apply digits_no_space, Di]. }
    rewrite (to_seconds_whole _ hs ms ss); [| | exact Di | exact Hl].
    + rewrite Vh, Vm, Vi, Val. reflexivity.
    + rewrite St. split; [reflexivity |].
      split; [split; [exact Dh | lia] |].
      split; [split; [exact Dm | lia] |].
      apply seconds_whole. split; [exact Di | lia].
Qed.

(** X7, witness. *)
Lemma whole_seconds_round_trip_witness :
  (0 <= 3661 <= 2 ^ 40)%Z
  /\ exists s, seconds_to_timecode (Fin (inject_Z 3661)) = Ok s
               /\ to_seconds s = Ok (Fin (inject_Z 3661)).
Proof.
  assert (H : (0 <= 3661 <= 2 ^ 40)%Z) by (split; apply Z.leb_le; reflexivity).
  split; [exact H |]. exact (whole_seconds_round_trip 3661 H).
Defined.

(** X8: when [seconds % 60] is 59.9995 or more, the seconds field is
    printed as [60.000]: the rounding to three decimals is not carried into
    the minutes. *)
Theorem seconds_field_reads_60 (x : Q) :
  0 <= x -> 119999 # 2000 <= seconds_of x ->
  seconds_to_timecode (Fin x)
  = Ok (format_02 (hours_of x) ++ ":"%char :: format_02 (minutes_of x) ++ lit ":60.000").
Proof.
  intros Hx Hs. destruct (seconds_of_bounds x Hx) as [_ S1].
  rewrite (seconds_to_timecode_nonneg x Hx), (has_fraction_near_60 x Hx Hs).
  rewrite (millis_near_60 _ Hs S1). reflexivity.
Qed.

(** X8, witness. *)
Lemma seconds_field_reads_60_witness :
  0 <= 599996 # 10000 /\ 119999 # 2000 <= seconds_of (599996 # 10000)
  /\ seconds_to_timecode (Fin (599996 # 10000)) = Ok (lit "00:00:60.000").
Proof.
  assert (H0 : 0 <= 599996 # 10000) by (apply Qle_bool_iff; reflexivity).
  assert (H1 : 119999 # 2000 <= seconds_of (599996 # 10000))
    by (apply Qle_bool_iff; vm_compute; reflexivity).
  split; [exact H0 |]. split; [exact H1 |].
  rewrite (seconds_field_reads_60 _ H0 H1). vm_compute. reflexivity.
Defined.

(** X9: on a negative finite float [seconds_to_timecode] raises
    nothing: it returns a text that begins with a minus sign, which
    [to_seconds] rejects with the timecode error. *)
Theorem seconds_to_timecode_negative (x : Q) :
  x < 0 ->
  exists s, seconds_to_timecode (Fin x) = Ok ("-"%char :: s)
            /\ to_seconds ("-"%char :: s) = Raise (ValueError TIMECODE_MSG).
Proof.
  intros Hx. pose proof (floordiv_negative x Hx) as F.
  assert (Hh : (Qtrunc (floordiv x 3600) < 0)%Z).
  { unfold Qtrunc. replace (Qltb (floordiv x 3600) 0) with true
      by (symmetry; apply Qltb_true; lra).
    pose proof (Qceiling_neg _ F). lia. }
  assert (Hf : exists r, format_02 (Qtrunc (floordiv x 3600)) = "-"%char :: r).
  { unfold format_02. destruct (Z.ltb_spec (Qtrunc (floordiv x 3600)) 0); [eauto | lia]. }
  destruct Hf as [r Hf].
  assert (E : exists s, seconds_to_timecode (Fin x) = Ok ("-"%char :: s)).
  { unfold seconds_to_timecode. rewrite Hf. destruct (negb _); eexists; reflexivity. }
  destruct E as [s E]. exists s. split; [exact E |].
  unfold to_seconds.
  destruct (fullmatch TIME_PATTERN (strip ("-"%char :: s))) as [g |] eqn:M; [exfalso | reflexivity].
  apply fullmatch_timecode_inv in M. destruct M as (h & m & sec & _ & (Es & [Dh Lh] & _)).
  unfold strip in Es. cbn [lstrip] in Es. change (is_space "-") with false in Es. cbv iota in Es.
  destruct (rstrip_head "-" s eq_refl) as [r' Er]. rewrite Er in Es.
  destruct h as [| c h]; [cbn in Lh; lia |].
  injection Es as <- _. cbn in Dh. discriminate.
Qed.

(** X9, witness. *)
Lemma seconds_to_timecode_negative_witness :
  - (3 # 2) < 0
  /\ seconds_to_timecode (Fin (- (3 # 2))) = Ok (lit "-1:59:58.500")
  /\ to_seconds (lit "-1:59:58.500") = Raise (ValueError TIMECODE_MSG).
Proof.
  assert (H : - (3 # 2) < 0) by reflexivity.
  split; [exact H |].
  destruct (seconds_to_timecode_negative _ H) as (s & E & R).
  assert (E' : seconds_to_timecode (Fin (- (3 # 2))) = Ok (lit "-1:59:58.500"))
    by (vm_compute; reflexivity).
  split; [exact E' |].
  rewrite E' in E. injection E as <-. exact R.
Defined.

(** *** [QtLogger.callback] *)

(** X10: the percent is exactly 100 when every recorded phase has
    reached its total (and some total is positive), and exactly 0 when every
    index is 0; no bound on the counters is needed. *)
Theorem percent_end_points :
  (forall bars : gmap string Bar,
      map_Forall (fun _ b => (total_or_index b <= index b)%Z) bars ->
      (0 < sum_totals bars)%Z ->
      percent bars = Ok 100%Z)
  /\ (forall bars : gmap string Bar,
         map_Forall (fun _ b => nonneg_bar b /\ index b = 0%Z) bars ->
         percent bars = Ok 0%Z).
Proof.
  split.
  - intros bars H Hs. unfold percent.
    rewrite (completed_all_done bars H).
    unfold grand_total. destruct (Z.eqb_spec (sum_totals bars) 0) as [? | _]; [lia |].
    apply ratio_one. lia.
  - intros bars H. unfold percent. rewrite (completed_none_done bars H).
    apply ratio_zero, grand_total_nonzero.
Qed.

Lemma done_phase : map_Forall (fun _ b => (total_or_index b <= index b)%Z)
                              ({["t" := mkBar 5 (Some 5%Z)]} : gmap string Bar).
Proof. apply map_Forall_singleton. cbn. lia. Defined.

(** X10, witness. *)
Lemma percent_end_points_witness :
  map_Forall (fun _ b => (total_or_index b <= index b)%Z)
             ({["t" := mkBar 5 (Some 5%Z)]} : gmap string Bar)
  /\ (0 < sum_totals {["t" := mkBar 5 (Some 5%Z)]})%Z
  /\ percent {["t" := mkBar 5 (Some 5%Z)]} = Ok 100%Z.
Proof.
  assert (S : (0 < sum_totals {["t" := mkBar 5 (Some 5%Z)]})%Z)
    by (apply Z.ltb_lt; vm_compute; reflexivity).
  split; [exact done_phase |]. split; [exact S |].
  exact (proj1 percent_end_points _ done_phase S).
Defined.

(** X11: computing the percent never divides by zero, whatever the
    counters are, negative ones included: it returns an integer or raises
    [OverflowError]. *)
Theorem percent_raises_only_overflow (bars : gmap string Bar) :
  (exists p, percent bars = Ok p)
  \/ (exists msg, percent bars = Raise (OverflowError msg)).
Proof.
  unfold percent, int_truediv.
  destruct (Z.eqb_spec (grand_total bars) 0) as [E | _];
    [exfalso; exact (grand_total_nonzero bars E) |].
  destruct (overflows _); [right; eexists; reflexivity |].
  rewrite bind_Ok. unfold fmul, round_result.
  destruct (overflows _); cbn; [right | left]; eexists; reflexivity.
Qed.

(** X12: a phase whose index has reached its positive total counts as
    complete and no more: moving the index further beyond the total leaves
    the percent as it is. *)
Theorem percent_index_capped (bars : gmap string Bar) (n : string) (i i' t : Z) :
  bars !! n = Some (mkBar i (Some t)) -> (0 < t <= i)%Z -> (t <= i')%Z ->
  percent (<[n := mkBar i' (Some t)]> bars) = percent bars.
Proof.
  intros Hl Ht Hi.
  destruct (bar_sums_delete bars n _ Hl) as [C S].
  assert (C' : completed (<[n := mkBar i' (Some t)]> bars) = completed bars
               /\ sum_totals (<[n := mkBar i' (Some t)]> bars) = sum_totals bars).
  { rewrite <- (insert_delete_eq bars).
    rewrite completed_insert, sum_totals_insert by apply lookup_delete_eq.
    rewrite C, S. unfold total_or_index. cbn.
    destruct (Z.eqb_spec t 0); [lia |]. split; lia. }
  destruct C' as [C1 C2]. unfold percent, grand_total. rewrite C1, C2. reflexivity.
Qed.

(** X12, witness. *)
Lemma percent_index_capped_witness :
  ({["t" := mkBar 7 (Some 5%Z)]} : gmap string Bar) !! "t" = Some (mkBar 7 (Some 5%Z))
  /\ (0 < 5 <= 7)%Z /\ (5 <= 9)%Z
  /\ percent (<["t" := mkBar 9 (Some 5%Z)]> {["t" := mkBar 7 (Some 5%Z)]})
     = percent {["t" := mkBar 7 (Some 5%Z)]}.
Proof.
  assert (L : ({["t" := mkBar 7 (Some 5%Z)]} : gmap string Bar) !! "t"
              = Some (mkBar 7 (Some 5%Z))) by apply lookup_singleton_eq.
  split; [exact L |]. split; [lia |]. split; [lia |].
  exact (percent_index_capped _ "t" 7 9 5 L ltac:(lia) ltac:(lia)).
Defined.

(** *** [TrimWorker.run] *)




(** X15: when cutting the clip fails, the encoder is never called and
    no progress is emitted: the failure notification follows the cut at
    once. *)
Theorem run_failed_cut {Changes : Type} (env : MoviePy Changes) (w : TrimWorker.t)
    (clip : Clip) (e : exn) :
  VideoFileClip env (src w) = Ok clip ->
  subclipped env clip (start_time w) (clamp_end (end_time w) (duration clip)) = Raise e ->
  events (run env (mkWorld w [])).2
  = [Opened clip; SubclipCall clip (start_time w) (clamp_end (end_time w) (duration clip));
     Finished false (exn_str e)].
Proof.
  intros Eo Es. rewrite run_spec, Eo. cbv zeta.
  destruct (set_end_time_clamp w (duration clip)) as (E1 & E2 & E3 & E4).
  set (w1 := if fgt (end_time w) (duration clip)
             then set_end_time (duration clip) w else w) in *.
  rewrite E1, E2, Es. reflexivity.
Qed.

(** X15, witness. *)
Lemma run_failed_cut_witness :
  VideoFileClip (moviepy_bad_cut (ValueError "bad interval")) (src worker_10_300) = Ok clip120
  /\ events (run (moviepy_bad_cut (ValueError "bad interval")) (mkWorld worker_10_300 [])).2
     = [Opened clip120; SubclipCall clip120 (Fin 10) (Fin 120);
        Finished false "bad interval"].
Proof.
  split; [reflexivity |].
  exact (run_failed_cut (moviepy_bad_cut (ValueError "bad interval")) worker_10_300
           clip120 (ValueError "bad interval") eq_refl eq_refl).
Defined.

(** *** [MainWindow.start_trim] *)

(** X16: the checks of [start_trim] in their order, each showing one
    error box and leaving the window as it was: no readable source; then a
    start text on which [to_seconds] raises [ValueError]; then an end text
    on which it does; then an end time not after the start time, equal
    times included.  For the two texts the box shows the message of the
    exception. *)
Theorem start_trim_rejections (exists_ : Path -> bool) (win : MainWindow.t)
    (fx : list Effect) :
  let shows m := start_trim exists_ (win, fx) = (Ok tt, (win, fx ++ [ErrorBox m])) in
  ((video_path win = None \/ exists v, video_path win = Some v /\ exists_ v = false) ->
   shows "Please select a source video first."%string)
  /\ (forall v, video_path win = Some v -> exists_ v = true ->
        (forall m, to_seconds (start_edit win) = Raise (ValueError m) -> shows m)
        /\ (forall s m, to_seconds (start_edit win) = Ok s ->
                        to_seconds (end_edit win) = Raise (ValueError m) -> shows m)
        /\ (forall s e, to_seconds (start_edit win) = Ok s ->
                        to_seconds (end_edit win) = Ok e -> fle e s = true ->
                        shows "End time must be greater than start time."%string)).
Proof.
  intros shows. subst shows. cbv beta. split; [apply start_trim_no_source |].
  intros v Ev Ex. rewrite (start_trim_checked exists_ win fx v Ev Ex).
  split; [| split].
  - intros m Es. rewrite Es. reflexivity.
  - intros s m Es Ee. rewrite Es, Ee. reflexivity.
  - intros s e Es Ee Hf. rewrite Es, Ee, Hf. reflexivity.
Qed.

(** X16, witness: one window for each check. *)
Lemma start_trim_rejections_witness :
  start_trim (fun _ => true) (init, [])
  = (Ok tt, (init, [ErrorBox "Please select a source video first."]))
  /\ start_trim (fun _ => false) (window_10_300, [])
     = (Ok tt, (window_10_300, [ErrorBox "Please select a source video first."]))
  /\ start_trim (fun _ => true) (window_bad_start, [])
     = (Ok tt, (window_bad_start, [ErrorBox TIMECODE_MSG]))
  /\ start_trim (fun _ => true) (window_bad_end, [])
     = (Ok tt, (window_bad_end, [ErrorBox TIMECODE_MSG]))
  /\ start_trim (fun _ => true) (window_equal_times, [])
     = (Ok tt, (window_equal_times,
                [ErrorBox "End time must be greater than start time."])).
Proof.
  assert (T10 : to_seconds (lit "00:00:10") = Ok (Fin 10)) by (vm_compute; reflexivity).
  split; [| split; [| split; [| split]]].
  - exact (proj1 (start_trim_rejections (fun _ => true) init []) (or_introl eq_refl)).
  - exact (proj1 (start_trim_rejections (fun _ => false) window_10_300 [])
             (or_intror (ex_intro _ video_in (conj eq_refl eq_refl)))).
  - destruct (proj2 (start_trim_rejections (fun _ => true) window_bad_start [])
                video_in eq_refl eq_refl) as (H & _).
    apply H. vm_compute. reflexivity.
  - destruct (proj2 (start_trim_rejections (fun _ => true) window_bad_end [])
                video_in eq_refl eq_refl) as (_ & H & _).
    apply (H (Fin 10)); [exact T10 | vm_compute; reflexivity].
  - destruct (proj2 (start_trim_rejections (fun _ => true) window_equal_times [])
                video_in eq_refl eq_refl) as (_ & _ & H).
    apply (H (Fin 10) (Fin 10)); [exact T10 | exact T10 | reflexivity].
Defined.

(** X17: a worker is started only from a window whose source exists
    and whose two timecodes parse; it gets the source, the stripped output
    text as destination and the two parsed times, which are finite with
    [0 <= start < end]; the button is disabled, the progress bar reset to 0
    and the worker stored. *)
Theorem start_trim_worker (exists_ : Path -> bool) (win win' : MainWindow.t)
    (fx fx' : list Effect) (w : TrimWorker.t) :
  start_trim exists_ (win, fx) = (Ok tt, (win', fx')) ->
  In (Started w) (drop (length fx) fx') ->
  video_path win = Some (src w) /\ exists_ (src w) = true
  /\ dst w = mkPath (strip (out_edit win))
  /\ (exists s e,
         to_seconds (start_edit win) = Ok (Fin s) /\ to_seconds (end_edit win) = Ok (Fin e)
         /\ start_time w = Fin s /\ end_time w = Fin e /\ 0 <= s /\ s < e)
  /\ win' = mkWindow (video_path win) (start_edit win) (end_edit win) (out_edit win)
                     false 0%Z (Some w)
  /\ fx' = fx ++ [Started w].
Proof.
  intros E Hw.
  destruct (start_trim_started exists_ win fx win' fx' w E Hw)
    as (H1 & H2 & H3 & Hs & He & Hf & H4 & H5).
  repeat (split; [assumption |]). split; [| split; assumption].
  destruct (to_seconds_finite _ _ Hs) as (s & Es & S0).
  destruct (to_seconds_finite _ _ He) as (e & Ee & E0).
  exists s, e. rewrite Es, Ee in *. repeat (split; [assumption || reflexivity |]).
  cbn in Hf. apply Qltb_true. unfold Qltb. rewrite Hf. reflexivity.
Qed.

Lemma start_trim_10_300 :
  start_trim (fun _ => true) (window_10_300, [])
  = (Ok tt,
     (mkWindow (Some video_in) (lit "00:00:10") (lit "00:05:00") (lit "out.mp4")
               false 0%Z (Some worker_10_300),
      [Started worker_10_300])).
Proof. vm_compute. reflexivity. Defined.

Lemma started_10_300 : In (Started worker_10_300) (drop (length ([] : list Effect)) [Started worker_10_300]).
Proof. left. reflexivity. Defined.

(** X17, witness. *)
Lemma start_trim_worker_witness :
  start_trim (fun _ => true) (window_10_300, [])
  = (Ok tt,
     (mkWindow (Some video_in) (lit "00:00:10") (lit "00:05:00") (lit "out.mp4")
               false 0%Z (Some worker_10_300),
      [Started worker_10_300]))
  /\ exists s e, start_time worker_10_300 = Fin s /\ end_time worker_10_300 = Fin e
                 /\ 0 <= s /\ s < e.
Proof.
  split; [exact start_trim_10_300 |].
  destruct (start_trim_worker _ _ _ _ _ _ start_trim_10_300 started_10_300)
    as (_ & _ & _ & (s & e & _ & _ & Hs & He & S0 & Se) & _).
  exists s, e. auto.
Defined.

(** X18: an [OverflowError] raised while parsing the start or the end
    time is not caught by [start_trim]: it leaves the slot, no error box is
    shown, the window is unchanged and nothing is started. *)
Theorem start_trim_overflow (exists_ : Path -> bool) (win : MainWindow.t)
    (fx : list Effect) (v : Path) (m : string) :
  video_path win = Some v -> exists_ v = true ->
  (to_seconds (start_edit win) = Raise (OverflowError m)
   \/ (exists s, to_seconds (start_edit win) = Ok s)
      /\ to_seconds (end_edit win) = Raise (OverflowError m)) ->
  start_trim exists_ (win, fx) = (Raise (OverflowError m), (win, fx)).
Proof.
  intros Ev Ex H. rewrite (start_trim_checked exists_ win fx v Ev Ex).
  destruct H as [-> | [[s ->] ->]]; reflexivity.
Qed.

(** X18, witness. *)
Lemma start_trim_overflow_witness :
  video_path window_huge_start = Some video_in
  /\ to_seconds (start_edit window_huge_start)
     = Raise (OverflowError "int too large to convert to float")
  /\ start_trim (fun _ => true) (window_huge_start, [])
     = (Raise (OverflowError "int too large to convert to float"), (window_huge_start, [])).
Proof.
  assert (E : to_seconds (start_edit window_huge_start)
              = Raise (OverflowError "int too large to convert to float"))
    by (vm_compute; reflexivity).
  split; [reflexivity |]. split; [exact E |].
  exact (start_trim_overflow (fun _ => true) window_huge_start [] video_in _
           eq_refl eq_refl (or_introl E)).
Defined.

(** X19: for a worker started by [start_trim] on a source of finite
    duration, [run] asks for the sub-clip from the start time to the smaller
    of the end time and the duration; the interval is not empty exactly when
    the start time lies before the end of the source, and [run] checks
    neither. *)
Theorem trim_interval {Changes : Type} (env : MoviePy Changes) (exists_ : Path -> bool)
    (win win' : MainWindow.t) (fx fx' : list Effect) (w : TrimWorker.t)
    (clip : Clip) (d : Q) :
  start_trim exists_ (win, fx) = (Ok tt, (win', fx')) ->
  In (Started w) (drop (length fx) fx') ->
  VideoFileClip env (src w) = Ok clip -> duration clip = Fin d ->
  exists s e t1,
    start_time w = Fin s /\ end_time w = Fin e /\ 0 <= s /\ s < e
    /\ In (SubclipCall clip (Fin s) (Fin t1)) (events (run env (mkWorld w [])).2)
    /\ (t1 = e /\ e <= d \/ t1 = d /\ d < e)
    /\ (s < t1 <-> s < d).
Proof.
  intros E Hw Eo Ed.
  destruct (start_trim_started exists_ win fx win' fx' w E Hw)
    as (_ & _ & _ & Hs & He & Hf & _).
  destruct (to_seconds_finite _ _ Hs) as (s & Es & S0).
  destruct (to_seconds_finite _ _ He) as (e & Ee & E0).
  rewrite Es, Ee in Hf. cbn in Hf.
  assert (Hse : s < e) by (apply Qltb_true; unfold Qltb; rewrite Hf; reflexivity).
  assert (Hc : exists rest,
             events (run env (mkWorld w [])).2
             = Opened clip
               :: SubclipCall clip (start_time w) (clamp_end (end_time w) (duration clip))
               :: rest).
  { rewrite run_spec, Eo. cbv zeta.
    destruct (set_end_time_clamp w (duration clip)) as (E1 & E2 & _ & _).
    set (w1 := if fgt (end_time w) (duration clip)
               then set_end_time (duration clip) w else w) in *.
    rewrite E1, E2.
    destruct (subclipped env clip (start_time w) _) as [sub | e'].
    - destruct (write_videofile env sub (dst w1)) as [calls outcome].
      destruct (QtLogger.emissions (super_callback env) calls ∅) as [ps e'].
      eexists. reflexivity.
    - eexists. reflexivity. }
  destruct Hc as [rest Hc]. rewrite Es, Ee, Ed in Hc. unfold clamp_end, fgt in Hc.
  exists s, e, (if Qltb d e then d else e).
  split; [exact Es |]. split; [exact Ee |]. split; [exact S0 |]. split; [exact Hse |].
  split.
  - rewrite Hc. right. left. destruct (Qltb d e); reflexivity.
  - destruct (Qltb d e) eqn:G.
    + apply Qltb_true in G. split; [right; auto | tauto].
    + apply Qltb_false in G. split; [left; auto |]. split; intros; lra.
Qed.

(** X19, witness. *)
Lemma trim_interval_witness :
  exists s e t1,
    start_time worker_10_300 = Fin s /\ end_time worker_10_300 = Fin e /\ 0 <= s /\ s < e
    /\ In (SubclipCall clip120 (Fin s) (Fin t1))
          (events (run (moviepy120 None) (mkWorld worker_10_300 [])).2)
    /\ (t1 = e /\ e <= 120 \/ t1 = 120 /\ 120 < e)
    /\ (s < t1 <-> s < 120).
Proof.
  exact (trim_interval (moviepy120 None) _ _ _ _ _ _ clip120 120
           start_trim_10_300 started_10_300 eq_refl eq_refl).
Defined.

(** *** [MainWindow.on_finished] and the worker's signals *)


(** *** [MainWindow.browse_output] *)

(** X21: [browse_output] does nothing when the dialog is cancelled;
    otherwise the output field gets the chosen name, with [.mp4] appended
    unless the name already ends in [.mp4] in any letter case, so that the
    field always ends in [.mp4] and choosing the text of the field again
    changes nothing. *)
Theorem browse_output_suffix :
  (forall ui : UI, browse_output [] ui = (Ok tt, ui))
  /\ (forall (fname : str) (win : MainWindow.t) (fx : list Effect),
         fname <> [] ->
         exists name,
           browse_output fname (win, fx) = (Ok tt, (set_out_edit name win, fx))
           /\ (endswith (lower fname) (lit ".mp4") = true /\ name = fname
               \/ endswith (lower fname) (lit ".mp4") = false /\ name = fname ++ lit ".mp4")
           /\ endswith (lower name) (lit ".mp4") = true
           /\ browse_output name (set_out_edit name win, fx)
              = (Ok tt, (set_out_edit name win, fx))).
Proof.
  split; [reflexivity |].
  intros fname win fx H.
  set (name := if endswith (lower fname) (lit ".mp4") then fname else fname ++ lit ".mp4").
  assert (Hn : endswith (lower name) (lit ".mp4") = true).
  { unfold name. destruct (endswith (lower fname) (lit ".mp4")) eqn:E; [exact E |].
    rewrite lower_app. apply endswith_app. }
  assert (Hne : name <> []) by (apply browse_output_name_nonempty, H).
  exists name. split; [| split; [| split]].
  - destruct fname; [congruence | reflexivity].
  - unfold name. destruct (endswith (lower fname) (lit ".mp4")); auto.
  - exact Hn.
  - destruct name as [| c r] eqn:En; [congruence |].
    unfold browse_output, update_state. rewrite Hn. reflexivity.
Qed.

(** X21, witness. *)
Lemma browse_output_suffix_witness :
  lit "clip" <> []
  /\ exists name,
       browse_output (lit "clip") (init, []) = (Ok tt, (set_out_edit name init, []))
       /\ endswith (lower name) (lit ".mp4") = true.
Proof.
  assert (H : lit "clip" <> []) by discriminate.
  split; [exact H |].
  destruct (proj2 browse_output_suffix (lit "clip") init [] H) as (name & E & _ & S & _).
  exists name. auto.
Defined.

(** *** [MainWindow.browse_file] *)


(** X23: when the chosen file cannot be opened, or its duration is
    not a finite number, [browse_file] still records it as the source and
    leaves the end field as it was; the exception is dropped. *)
Theorem browse_file_unreadable (VideoFileClip : str -> result Clip) (fname : str) (v : View) :
  fname <> [] ->
  ((exists e, VideoFileClip fname = Raise e)
   \/ (exists clip, VideoFileClip fname = Ok clip
                    /\ (duration clip = NaN \/ exists sign, duration clip = Inf sign))) ->
  browse_file VideoFileClip fname v
  = (Ok tt, mkView (set_video_path (mkPath fname) (win v)) fname).
Proof.
  intros H C. rewrite (browse_file_chosen VideoFileClip fname v H).
  destruct C as [[e ->] | (clip & -> & [-> | [sign ->]])]; reflexivity.
Qed.

(** X23, witness. *)
Lemma browse_file_unreadable_witness :
  lit "a.mp4" <> []
  /\ browse_file (fun _ => Raise (RuntimeError "no such file")) (lit "a.mp4") init_view
     = (Ok tt, mkView (set_video_path (mkPath (lit "a.mp4")) init) (lit "a.mp4")).
Proof.
  assert (H : lit "a.mp4" <> []) by discriminate.
  split; [exact H |].
  exact (browse_file_unreadable (fun _ => Raise (RuntimeError "no such file")) _ init_view H
           (or_introl (ex_intro _ (RuntimeError "no such file") eq_refl))).
Defined.

(** X24: when the chosen file opens with a duration between 0 and
    [2^40] seconds, [browse_file] writes the duration into the end field as a
    timecode that [to_seconds] reads back to within a millisecond. *)
Theorem browse_file_sets_end (VideoFileClip : str -> result Clip) (fname : str) (v : View)
    (clip : Clip) (d : Q) :
  fname <> [] -> VideoFileClip fname = Ok clip -> duration clip = Fin d ->
  0 <= d -> d <= inject_Z (2 ^ 40) ->
  exists text y,
    browse_file VideoFileClip fname v
    = (Ok tt, mkView (set_end_edit text (set_video_path (mkPath fname) (win v))) fname)
    /\ seconds_to_timecode (Fin d) = Ok text
    /\ to_seconds text = Ok (Fin y)
    /\ Qabs (y - d) < 1 # 1000.
Proof.
  intros H Eo Ed D0 D1.
  destruct (format_parse d D0 D1) as (s & y & E1 & E2 & Y1 & Y2).
  exists s, y. rewrite (browse_file_chosen VideoFileClip fname v H), Eo, Ed, E1.
  repeat split; try assumption. apply Qabs_Qlt_condition. split; lra.
Qed.

Lemma clip120_bounds : 0 <= 120 /\ 120 <= inject_Z (2 ^ 40).
Proof. split; apply Qle_bool_iff; reflexivity. Defined.

(** X24, witness. *)
Lemma browse_file_sets_end_witness :
  lit "a.mp4" <> []
  /\ exists text y,
       browse_file (fun _ => Ok clip120) (lit "a.mp4") init_view
       = (Ok tt, mkView (set_end_edit text (set_video_path (mkPath (lit "a.mp4")) init))
                        (lit "a.mp4"))
       /\ seconds_to_timecode (Fin 120) = Ok text
       /\ to_seconds text = Ok (Fin y)
       /\ Qabs (y - 120) < 1 # 1000.
Proof.
  assert (H : lit "a.mp4" <> []) by discriminate.
  split; [exact H |].
  exact (browse_file_sets_end (fun _ => Ok clip120) _ init_view clip120 120 H eq_refl eq_refl
           (proj1 clip120_bounds) (proj2 clip120_bounds)).
Defined.

(** X25: after [browse_file] on a readable file that exists, a press
    on Trim with a valid start time at least a millisecond before the end
    of the source starts a worker on that file, from that start time to an
    end time within a millisecond of the duration of the source. *)
Theorem browse_then_trim (VideoFileClip : str -> result Clip) (exists_ : Path -> bool)
    (fname : str) (v : View) (fx : list Effect) (clip : Clip) (s d : Q) :
  fname <> [] -> VideoFileClip fname = Ok clip -> duration clip = Fin d ->
  d <= inject_Z (2 ^ 40) -> exists_ (mkPath fname) = true ->
  to_seconds (start_edit (win v)) = Ok (Fin s) -> 0 <= s -> s + (1 # 1000) <= d ->
  exists v' win' w y,
    browse_file VideoFileClip fname v = (Ok tt, v')
    /\ start_trim exists_ (win v', fx) = (Ok tt, (win', fx ++ [Started w]))
    /\ src w = mkPath fname /\ start_time w = Fin s /\ end_time w = Fin y
    /\ Qabs (y - d) < 1 # 1000.
Proof.
  intros H Eo Ed D1 Ex Es S0 Sd.
  assert (D0 : 0 <= d) by lra.
  destruct (format_parse d D0 D1) as (text & y & E1 & E2 & Y1 & Y2).
  eexists _, _, _, y. split.
  - rewrite (browse_file_chosen VideoFileClip fname v H), Eo, Ed, E1. reflexivity.
  - cbn [win set_end_edit set_video_path].
    erewrite start_trim_checked; [| reflexivity | exact Ex].
    unfold set_end_edit, set_video_path.
    cbn [win start_edit end_edit video_path out_edit]. rewrite Es, E2.
    assert (Hf : fle (Fin y) (Fin s) = false).
    { cbn. apply not_true_iff_false. intros Q. apply Qle_bool_iff in Q. lra. }
    rewrite Hf. cbv zeta. split; [reflexivity |].
    cbn [src start_time end_time]. split; [reflexivity |].
    split; [reflexivity |]. split; [reflexivity |].
    apply Qabs_Qlt_condition. split; lra.
Qed.

(** X25, witness. *)
Lemma browse_then_trim_witness :
  lit "a.mp4" <> []
  /\ to_seconds (start_edit (win init_view)) = Ok (Fin 0)
  /\ exists v' win' w y,
       browse_file (fun _ => Ok clip120) (lit "a.mp4") init_view = (Ok tt, v')
       /\ start_trim (fun _ => true) (win v', []) = (Ok tt, (win', [] ++ [Started w]))
       /\ src w = mkPath (lit "a.mp4") /\ start_time w = Fin 0 /\ end_time w = Fin y
       /\ Qabs (y - 120) < 1 # 1000.
Proof.
  assert (H : lit "a.mp4" <> []) by discriminate.
  assert (E : to_seconds (start_edit (win init_view)) = Ok (Fin 0)) by (vm_compute; reflexivity).
  split; [exact H |]. split; [exact E |].
  refine (browse_then_trim (fun _ => Ok clip120) (fun _ => true) _ init_view [] clip120 0 120
            H eq_refl eq_refl (proj2 clip120_bounds) eq_refl E _ _);
    apply Qle_bool_iff; reflexivity.
Defined.

End Properties.
